(** * Senergy: rating normalisation, place aggregates, explore feed and
      group ranked-choice voting

    A shallow embedding of the scoring and voting core of the Senergy API
    ([rating.service.ts], [group.service.ts], [routes/explore.ts]) and of the
    Discord bot's vote tally ([commands/group.ts]).

    Conventions of the embedding.
    - A JavaScript [number] has two models. In module [JS] and the modules
      built on it, it is an exact rational ([Q]), with [Math.round x] as
      [floor (x + 1/2)]; the properties stated there are ranges, orders,
      counts and database effects. Modules [B64], [B64Feed] and [B64Views]
      repeat the scoring functions, the two explore handlers and the viewer
      statistics on IEEE 754 doubles; the properties that equate computed
      scores are stated, or repeated, there.
    - Vote scores and counters, which only ever hold whole numbers, are [Z].
    - Firestore collections are finite maps from document id to document.
      A service method is a computation in the monad [M]: it threads the
      database and may throw; writes made before a throw stay in place, as
      they do in the source, which uses no transactions.
    - [new Date().toISOString()] is a parameter [now] of the method. *)

From Stdlib Require Import QArith Qround Qabs Lia Lqa Sorted.
From Stdlib Require Import Uint63 Floats.PrimFloat Floats.FloatOps Floats.SpecFloat.
From stdpp Require Import gmap strings list fin_maps.

(** ** JavaScript numbers *)

Module JS.

Definition number := Q.
Bind Scope Q_scope with number.

(** [Math.round]: nearest integer, halves towards plus infinity. *)
Definition Math_round (x : number) : number := inject_Z (Qfloor (x + (1#2))).

Definition Math_min (x y : number) : number := if Qle_bool x y then x else y.

Definition Math_abs (x : number) : number := Qabs x.

(** Truthiness of a number as used by [x || y]: zero is falsy. *)
Definition truthy (x : number) : bool := negb (Qeq_bool x 0).

(** [x || d] on numbers. *)
Definition or_default (x d : number) : number := if truthy x then x else d.

(** [array.length] as a number. *)
Definition len {A} (l : list A) : number := inject_Z (Z.of_nat (length l)).

(** [l.reduce((sum, r) => sum + f(r), 0)]. *)
Definition sum_by {A} (f : A → number) (l : list A) : number :=
  fold_left (λ sum r, sum + f r)%Q l 0%Q.

End JS.

(** ** Rating service: the personality adjuster ([rating.service.ts]) *)

Module RatingService.
Import JS.

Record RatingCategory := mkCategories {
  crowdSize : number;
  noiseLevel : number;
  socialEnergy : number;
  service : number;
  atmosphere : number
}.

(** The keys of a [RatingCategory], for the code that indexes it by key. *)
Inductive CategoryKey :=
  KCrowdSize | KNoiseLevel | KSocialEnergy | KService | KAtmosphere.

Definition getKey (key : CategoryKey) (c : RatingCategory) : number :=
  match key with
  | KCrowdSize => crowdSize c
  | KNoiseLevel => noiseLevel c
  | KSocialEnergy => socialEnergy c
  | KService => service c
  | KAtmosphere => atmosphere c
  end.

Definition setKey (key : CategoryKey) (v : number) (c : RatingCategory)
  : RatingCategory :=
  match key with
  | KCrowdSize => mkCategories v (noiseLevel c) (socialEnergy c) (service c) (atmosphere c)
  | KNoiseLevel => mkCategories (crowdSize c) v (socialEnergy c) (service c) (atmosphere c)
  | KSocialEnergy => mkCategories (crowdSize c) (noiseLevel c) v (service c) (atmosphere c)
  | KService => mkCategories (crowdSize c) (noiseLevel c) (socialEnergy c) v (atmosphere c)
  | KAtmosphere => mkCategories (crowdSize c) (noiseLevel c) (socialEnergy c) (service c) v
  end.

(** [Object.keys] of a category literal, in declaration order. *)
Definition categoryKeys : list CategoryKey :=
  [KCrowdSize; KNoiseLevel; KSocialEnergy; KService; KAtmosphere].

Definition personalitySensitive : list CategoryKey :=
  [KCrowdSize; KNoiseLevel; KSocialEnergy].

(** [personalitySensitive.forEach(key => { out[key] = 11 - categories[key] })]
    run on the copy [out = { ...categories }]. *)
Definition invertSensitive (categories : RatingCategory) : RatingCategory :=
  fold_left (λ out key, setKey key (11 - getKey key categories)%Q out)
            personalitySensitive categories.

(** [normalizeCategoriesToObjective]: an introvert rater
    ([raterAdjustmentFactor <= -0.2]) has the three sensitive keys inverted. *)
Definition normalizeCategoriesToObjective
    (categories : RatingCategory) (raterAdjustmentFactor : number)
  : RatingCategory :=
  if Qle_bool raterAdjustmentFactor (-(2#10))
  then invertSensitive categories
  else categories.

(** [adjustCategoriesForPersonality]: the same transform, keyed on the
    factor it is given. *)
Definition adjustCategoriesForPersonality
    (categories : RatingCategory) (adjustmentFactor : number)
  : RatingCategory :=
  if Qle_bool adjustmentFactor (-(2#10))
  then invertSensitive categories
  else categories.

Definition adjustCategoriesForViewer
    (normalizedCategories : RatingCategory) (viewerAdjustmentFactor : number)
  : RatingCategory :=
  adjustCategoriesForPersonality normalizedCategories viewerAdjustmentFactor.

(** The weights of [calculateOverallScore]. *)
Definition weights : RatingCategory :=
  {| atmosphere := 25#100; socialEnergy := 25#100; crowdSize := 15#100;
     noiseLevel := 15#100; service := 2#10 |}.

(** The weighted sum, in the order the source adds the five terms. *)
Definition weighted (adjusted : RatingCategory) : number :=
  (crowdSize adjusted * crowdSize weights +
   noiseLevel adjusted * noiseLevel weights +
   socialEnergy adjusted * socialEnergy weights +
   service adjusted * service weights +
   atmosphere adjusted * atmosphere weights)%Q.

Definition calculateOverallScore
    (categories : RatingCategory) (raterAdjustmentFactor : number) : number :=
  let adjustedCategories :=
    adjustCategoriesForPersonality categories raterAdjustmentFactor in
  (Math_round (weighted adjustedCategories * 10) / 10)%Q.

Definition calculateAdjustedScoreForViewer
    (ratingCategories : RatingCategory)
    (raterAdjustmentFactor viewerAdjustmentFactor : number) : number :=
  let normalized :=
    normalizeCategoriesToObjective ratingCategories raterAdjustmentFactor in
  let adjusted := adjustCategoriesForViewer normalized viewerAdjustmentFactor in
  calculateOverallScore adjusted 0%Q.

Definition calculatePreviewScore
    (categories : RatingCategory) (userAdjustmentFactor : number) : number :=
  calculateOverallScore categories userAdjustmentFactor.

Inductive Bucket := introvert | ambivert | extrovert.

Definition getPersonalityBucket (adjustmentFactor : number) : Bucket :=
  if Qle_bool adjustmentFactor (-(2#10)) then introvert
  else if Qle_bool (2#10) adjustmentFactor then extrovert
  else ambivert.

(** Every dimension of a category record is a score between 1 and 10. *)
Definition inRange (c : RatingCategory) : bool :=
  forallb (λ key, Qle_bool 1 (getKey key c) && Qle_bool (getKey key c) 10)
          categoryKeys.

(** The category record of the specification's scenarios A and B. *)
Definition scenarioCategories : RatingCategory :=
  {| atmosphere := 8%Q; socialEnergy := 7%Q; crowdSize := 6%Q;
     noiseLevel := 5%Q; service := 7%Q |}.

End RatingService.


(** ** Documents ([@/types]) *)

Module Types.
Import JS RatingService.

Record LatLng := { lat : number; lng : number }.

Module User.
Record t := {
  displayName : string;
  discordId : option string;
  adjustmentFactor : option number;
  personalityType : option string;
  lastRatedPlaceLocation : option LatLng;
  totalRatingsCount : option Z;
  totalGroupsJoined : option Z
}.
End User.

Module Rating.
Record t := {
  userId : string;
  userAdjustmentFactor : number;
  userPersonalityType : string;
  placeId : string;
  placeName : string;
  placeAddress : string;
  location : LatLng;
  categories : RatingCategory;
  overallScore : number;
  comment : string;
  createdAt : string;
  updatedAt : string
}.
End Rating.

Record BucketStats := { avgScore : number; count : Z }.

Record ByPersonality := {
  ofIntrovert : BucketStats;
  ofAmbivert : BucketStats;
  ofExtrovert : BucketStats
}.

Module PlaceStats.
Record t := {
  totalRatings : Z;
  avgOverallScore : number;
  byPersonality : ByPersonality;
  avgCategories : RatingCategory;
  lastRatedAt : string
}.
End PlaceStats.

Module Place.
Record t := {
  id : string;
  name : string;
  address : string;
  location : LatLng;
  stats : PlaceStats.t;
  lastRatedAt : string
}.
End Place.

Record GroupMember := {
  gm_userId : string;
  gm_displayName : string;
  gm_adjustmentFactor : number;
  gm_personalityType : string
}.

Record RecommendedPlace := {
  rp_placeId : string;
  rp_placeName : string;
  rp_address : string;
  rp_location : option LatLng;
  rp_predictedScore : number
}.

Record FinalPlace := {
  fp_placeId : string;
  fp_placeName : string;
  fp_selectedAt : string;
  fp_location : option LatLng
}.

Inductive GroupStatus := active | place_selected | archived.

Module Group.
Record t := {
  createdBy : string;
  createdAt : string;
  members : list string;
  memberProfiles : gmap string GroupMember;
  recommendedPlaces : list RecommendedPlace;
  votes : gmap string (list string);
  finalPlace : option FinalPlace;
  status : GroupStatus;
  archivedAt : option string
}.
End Group.

#[global] Instance GroupStatus_eq_dec : EqDecision GroupStatus.
Proof. solve_decision. Defined.

End Types.

(** ** The database and the monad of service methods *)

Module Firestore.
Import Types.

Record Db := {
  users : gmap string User.t;
  ratings : gmap string Rating.t;
  places : gmap string Place.t;
  groups : gmap string Group.t
}.

Definition emptyDb : Db :=
  {| users := ∅; ratings := ∅; places := ∅; groups := ∅ |}.

(** The outcome of an awaited call: a value, or a thrown [Error(msg)]. *)
Inductive Result (A : Type) :=
  | Ok (a : A)
  | Throw (msg : string).
Arguments Ok {A} a.
Arguments Throw {A} msg.

Definition M (A : Type) : Type := Db → Db * Result A.

#[global] Instance M_ret : MRet M := λ A a db, (db, Ok a).
#[global] Instance M_bind : MBind M := λ A B f m db,
  match m db with
  | (db', Ok a) => f a db'
  | (db', Throw msg) => (db', Throw msg)
  end.

Definition throw {A} (msg : string) : M A := λ db, (db, Throw msg).

(** Database reached by running a method, and its outcome. *)
Definition exec {A} (m : M A) (db : Db) : Db := (m db).1.
Definition outcome {A} (m : M A) (db : Db) : Result A := (m db).2.

(** A collection: how to read it from, and write it back to, the database. *)
Record Collection (V : Type) := {
  docs : Db → gmap string V;
  withDocs : gmap string V → Db → Db
}.
Arguments docs {V} _ _.
Arguments withDocs {V} _ _ _.

Definition usersCol : Collection User.t :=
  {| docs := users;
     withDocs m db := {| users := m; ratings := ratings db;
                         places := places db; groups := groups db |} |}.
Definition ratingsCol : Collection Rating.t :=
  {| docs := ratings;
     withDocs m db := {| users := users db; ratings := m;
                         places := places db; groups := groups db |} |}.
Definition placesCol : Collection Place.t :=
  {| docs := places;
     withDocs m db := {| users := users db; ratings := ratings db;
                         places := m; groups := groups db |} |}.
Definition groupsCol : Collection Group.t :=
  {| docs := groups;
     withDocs m db := {| users := users db; ratings := ratings db;
                         places := places db; groups := m |} |}.

(** [col.doc(id).get()]: [None] when [!doc.exists]. *)
Definition docGet {V} (col : Collection V) (id : string) : M (option V) :=
  λ db, (db, Ok (docs col db !! id)).

(** [col.doc(id).set(v)]: creates or overwrites. *)
Definition docSet {V} (col : Collection V) (id : string) (v : V) : M unit :=
  λ db, (withDocs col (<[id := v]> (docs col db)) db, Ok tt).

(** [col.doc(id).update(fields)]: rewrites the named fields of an existing
    document and rejects when there is none. *)
Definition docUpdate {V} (col : Collection V) (id : string) (f : V → V)
  : M unit :=
  λ db, match docs col db !! id with
        | Some v => (withDocs col (<[id := f v]> (docs col db)) db, Ok tt)
        | None => (db, Throw "NOT_FOUND: no document to update")
        end.

(** [col.doc(id).delete()]: succeeds whether or not the document exists. *)
Definition docDelete {V} (col : Collection V) (id : string) : M unit :=
  λ db, (withDocs col (delete id (docs col db)) db, Ok tt).

(** [col.get()] / [col.where(...).get()]: the documents that satisfy [p]. *)
Definition docQuery {V} (col : Collection V) (p : string → V → bool)
  : M (list (string * V)) :=
  λ db, (db, Ok (List.filter (λ kv, p kv.1 kv.2) (map_to_list (docs col db)))).

(** [promise.catch(() => {})]: a rejection is swallowed. *)
Definition catchIgnore (m : M unit) : M unit :=
  λ db, match m db with
        | (db', Ok _) => (db', Ok tt)
        | (db', Throw _) => (db', Ok tt)
        end.

(** [for (const x of xs) await body(x)]. *)
Fixpoint forEachM {A} (body : A → M unit) (xs : list A) : M unit :=
  match xs with
  | [] => mret tt
  | x :: xs' => body x ;; forEachM body xs'
  end.

End Firestore.

(** ** Rating service: ratings and place aggregates ([rating.service.ts]) *)

Module RatingStore.
Import JS RatingService Types Firestore.

(** [Math.round(x * 10) / 10]. *)
Definition round1 (x : number) : number := (Math_round (x * 10) / 10)%Q.

Definition emptyBucket : BucketStats := {| avgScore := 0%Q; count := 0%Z |}.

(** One step of the [ratings.forEach] that fills [byPersonality]. *)
Definition addToBucket (b : BucketStats) (score : number) : BucketStats :=
  {| avgScore := (avgScore b + score)%Q; count := (count b + 1)%Z |}.

Definition accumulate (bp : ByPersonality) (rating : Rating.t) : ByPersonality :=
  let score := Rating.overallScore rating in
  match getPersonalityBucket (Rating.userAdjustmentFactor rating) with
  | introvert => {| ofIntrovert := addToBucket (ofIntrovert bp) score;
                    ofAmbivert := ofAmbivert bp; ofExtrovert := ofExtrovert bp |}
  | ambivert => {| ofIntrovert := ofIntrovert bp;
                   ofAmbivert := addToBucket (ofAmbivert bp) score;
                   ofExtrovert := ofExtrovert bp |}
  | extrovert => {| ofIntrovert := ofIntrovert bp; ofAmbivert := ofAmbivert bp;
                    ofExtrovert := addToBucket (ofExtrovert bp) score |}
  end.

(** [if (bucket.count > 0) bucket.avgScore = round1(avgScore / count)]. *)
Definition finishBucket (b : BucketStats) : BucketStats :=
  if (0 <? count b)%Z
  then {| avgScore := round1 (avgScore b / inject_Z (count b)); count := count b |}
  else b.

Definition zeroCategories : RatingCategory :=
  {| crowdSize := 0%Q; noiseLevel := 0%Q; socialEnergy := 0%Q;
     service := 0%Q; atmosphere := 0%Q |}.

Definition calculatePlaceStats (now : string) (ratings : list Rating.t)
  : PlaceStats.t :=
  match ratings with
  | [] =>
      {| PlaceStats.totalRatings := 0%Z;
         PlaceStats.avgOverallScore := 0%Q;
         PlaceStats.byPersonality :=
           {| ofIntrovert := emptyBucket; ofAmbivert := emptyBucket;
              ofExtrovert := emptyBucket |};
         PlaceStats.avgCategories := zeroCategories;
         PlaceStats.lastRatedAt := now |}
  | _ =>
      let avgOverallScore :=
        round1 (sum_by Rating.overallScore ratings / len ratings) in
      let byPersonality :=
        fold_left accumulate ratings
          {| ofIntrovert := emptyBucket; ofAmbivert := emptyBucket;
             ofExtrovert := emptyBucket |} in
      let byPersonality :=
        {| ofIntrovert := finishBucket (ofIntrovert byPersonality);
           ofAmbivert := finishBucket (ofAmbivert byPersonality);
           ofExtrovert := finishBucket (ofExtrovert byPersonality) |} in
      let avgCategories :=
        fold_left
          (λ avg key,
             setKey key
               (round1 (sum_by (λ r, getKey key (Rating.categories r)) ratings
                        / len ratings)) avg)
          categoryKeys zeroCategories in
      {| PlaceStats.totalRatings := Z.of_nat (length ratings);
         PlaceStats.avgOverallScore := avgOverallScore;
         PlaceStats.byPersonality := byPersonality;
         PlaceStats.avgCategories := avgCategories;
         PlaceStats.lastRatedAt := now |}
  end.

(** [getPlaceRatings]: every rating whose [placeId] is the given one. *)
Definition getPlaceRatings (placeId : string) : M (list Rating.t) :=
  snapshot ← docQuery ratingsCol (λ _ r, String.eqb (Rating.placeId r) placeId);
  mret (snapshot.*2).

Definition getPlaceStats (placeId : string) : M (option PlaceStats.t) :=
  placeDoc ← docGet placesCol placeId;
  mret (Place.stats <$> placeDoc).

(** [update({ stats, lastRatedAt })] on a place document. *)
Definition withStats (stats : PlaceStats.t) (now : string) (p : Place.t)
  : Place.t :=
  {| Place.id := Place.id p; Place.name := Place.name p;
     Place.address := Place.address p; Place.location := Place.location p;
     Place.stats := stats; Place.lastRatedAt := now |}.

Section WithAlgolia.

(** Whether the Algolia credentials and index are configured. The index
    itself is an external collaborator and holds no Firestore document. *)
Variable algoliaConfigured : bool.

Definition syncPlaceToAlgolia (place : Place.t) : M unit :=
  if algoliaConfigured then mret tt else throw "Algolia credentials missing".

Definition deletePlaceFromAlgolia (placeId : string) : M unit :=
  if algoliaConfigured then mret tt
  else throw "Algolia credentials not configured".

(** [updatePlaceStats]: the aggregate is computed from all ratings of the
    place; the last four parameters are not read by the source either. *)
Definition updatePlaceStats
    (placeId placeName placeAddress : string) (location : LatLng)
    (overallScore : number) (categories : RatingCategory)
    (userAdjustmentFactor : number) (userPersonalityType : string)
    (now : string) : M unit :=
  placeDoc ← docGet placesCol placeId;
  ratings ← getPlaceRatings placeId;
  let stats := calculatePlaceStats now ratings in
  match placeDoc with
  | None =>
      docSet placesCol placeId
        {| Place.id := placeId; Place.name := placeName;
           Place.address := placeAddress; Place.location := location;
           Place.stats := stats; Place.lastRatedAt := now |}
  | Some _ =>
      docUpdate placesCol placeId (withStats stats now)
  end.

Definition recalculatePlaceStats (placeId : string) (now : string) : M unit :=
  ratings ← getPlaceRatings placeId;
  match ratings with
  | [] => catchIgnore (docDelete placesCol placeId)
  | _ =>
      let stats := calculatePlaceStats now ratings in
      docUpdate placesCol placeId (withStats stats now)
  end.

Definition updateUserRatingStats (userId : string) (location : LatLng)
  : M unit :=
  userDoc ← docGet usersCol userId;
  match userDoc with
  | Some user =>
      docUpdate usersCol userId (λ u,
        {| User.displayName := User.displayName u;
           User.discordId := User.discordId u;
           User.adjustmentFactor := User.adjustmentFactor u;
           User.personalityType := User.personalityType u;
           User.lastRatedPlaceLocation := Some location;
           User.totalRatingsCount :=
             Some (default 0 (User.totalRatingsCount user) + 1)%Z;
           User.totalGroupsJoined := User.totalGroupsJoined u |})
  | None => mret tt
  end.

(** [createRating]; [newId] is the id that [ratingsCol.doc()] generates. *)
Definition createRating
    (newId userId placeId placeName placeAddress : string) (location : LatLng)
    (categories : RatingCategory) (comment : string)
    (userAdjustmentFactor : number) (userPersonalityType : string)
    (now : string) : M (string * Rating.t) :=
  let overallScore := calculateOverallScore categories userAdjustmentFactor in
  let ratingData :=
    {| Rating.userId := userId;
       Rating.userAdjustmentFactor := userAdjustmentFactor;
       Rating.userPersonalityType := userPersonalityType;
       Rating.placeId := placeId; Rating.placeName := placeName;
       Rating.placeAddress := placeAddress; Rating.location := location;
       Rating.categories := categories; Rating.overallScore := overallScore;
       Rating.comment := comment;
       Rating.createdAt := now; Rating.updatedAt := now |} in
  docSet ratingsCol newId ratingData ;;
  updatePlaceStats placeId placeName placeAddress location overallScore
    categories userAdjustmentFactor userPersonalityType now ;;
  placeDoc ← docGet placesCol placeId;
  match placeDoc with
  | Some placeData => syncPlaceToAlgolia placeData
  | None => mret tt
  end ;;
  updateUserRatingStats userId location ;;
  mret (newId, ratingData).

(** [Partial<Rating>]: any of the fields of a rating document, each given
    or not. *)
Record RatingUpdates := {
  u_userId : option string;
  u_userAdjustmentFactor : option number;
  u_userPersonalityType : option string;
  u_placeId : option string;
  u_placeName : option string;
  u_placeAddress : option string;
  u_location : option LatLng;
  u_categories : option RatingCategory;
  u_overallScore : option number;
  u_comment : option string;
  u_createdAt : option string;
  u_updatedAt : option string
}.

(** [updates.categories || updates.overallScore] as a condition: given
    categories are an object and truthy, a given overall score is truthy
    unless it is 0. *)
Definition statsAffected (updates : RatingUpdates) : bool :=
  match u_categories updates, u_overallScore updates with
  | Some _, _ => true
  | None, Some s => truthy s
  | None, None => false
  end.

(** [updateRating]. The document is updated with every field given, with
    the overall score of the given categories in place of a given overall
    score, and with [updatedAt] set by the method. The aggregate is then
    recomputed for the place the rating had before the update. *)
Definition updateRating (ratingId : string) (updates : RatingUpdates)
    (now : string) : M unit :=
  ratingDoc ← docGet ratingsCol ratingId;
  match ratingDoc with
  | None => throw "Rating not found"
  | Some oldRating =>
      let newOverallScore :=
        match u_categories updates with
        | Some c =>
            Some (calculateOverallScore c (Rating.userAdjustmentFactor oldRating))
        | None => u_overallScore updates
        end in
      docUpdate ratingsCol ratingId (λ r,
        {| Rating.userId := default (Rating.userId r) (u_userId updates);
           Rating.userAdjustmentFactor :=
             default (Rating.userAdjustmentFactor r)
                     (u_userAdjustmentFactor updates);
           Rating.userPersonalityType :=
             default (Rating.userPersonalityType r)
                     (u_userPersonalityType updates);
           Rating.placeId := default (Rating.placeId r) (u_placeId updates);
           Rating.placeName := default (Rating.placeName r) (u_placeName updates);
           Rating.placeAddress :=
             default (Rating.placeAddress r) (u_placeAddress updates);
           Rating.location := default (Rating.location r) (u_location updates);
           Rating.categories :=
             default (Rating.categories r) (u_categories updates);
           Rating.overallScore := default (Rating.overallScore r) newOverallScore;
           Rating.comment := default (Rating.comment r) (u_comment updates);
           Rating.createdAt := default (Rating.createdAt r) (u_createdAt updates);
           Rating.updatedAt := now |}) ;;
      if statsAffected updates then
        updatePlaceStats (Rating.placeId oldRating) (Rating.placeName oldRating)
          (Rating.placeAddress oldRating) (Rating.location oldRating)
          (or_default (default 0%Q newOverallScore) (Rating.overallScore oldRating))
          (default (Rating.categories oldRating) (u_categories updates))
          (Rating.userAdjustmentFactor oldRating)
          (Rating.userPersonalityType oldRating) now
      else mret tt
  end.

Definition deleteRating (ratingId : string) (now : string) : M unit :=
  ratingDoc ← docGet ratingsCol ratingId;
  match ratingDoc with
  | None => throw "Rating not found"
  | Some rating =>
      docDelete ratingsCol ratingId ;;
      recalculatePlaceStats (Rating.placeId rating) now ;;
      placeDoc ← docGet placesCol (Rating.placeId rating);
      match placeDoc with
      | None => deletePlaceFromAlgolia (Rating.placeId rating)
      | Some placeData => syncPlaceToAlgolia placeData
      end
  end.

End WithAlgolia.

End RatingStore.

(** ** The place-aggregate invariant *)

Module Aggregates.
Import JS RatingService Types Firestore RatingStore.

(** The ratings that reference a place, as [getPlaceRatings] returns them. *)
Definition placeRatings (db : Db) (placeId : string) : list Rating.t :=
  (List.filter (λ kv, String.eqb (Rating.placeId kv.2) placeId)
               (map_to_list (ratings db))).*2.

(** The places that at least one rating references. *)
Definition ratedPlaces (db : Db) : gset string :=
  list_to_set (Rating.placeId <$> (map_to_list (ratings db)).*2).

(** A place aggregate is stored exactly for the places that have ratings. *)
Definition aggregateInvariant (db : Db) : Prop :=
  dom (places db) = ratedPlaces db.

(** The writes of the rating service. *)
Inductive RatingOp :=
  | CreateRating (newId userId placeId placeName placeAddress : string)
      (location : LatLng) (categories : RatingCategory) (comment : string)
      (userAdjustmentFactor : number) (userPersonalityType : string)
      (now : string)
  | UpdateRating (ratingId : string) (updates : RatingUpdates) (now : string)
  | DeleteRating (ratingId : string) (now : string).

Definition runOp (algoliaConfigured : bool) (op : RatingOp) : M unit :=
  match op with
  | CreateRating newId userId placeId placeName placeAddress location
      categories comment userAdjustmentFactor userPersonalityType now =>
      createRating algoliaConfigured newId userId placeId placeName
        placeAddress location categories comment userAdjustmentFactor
        userPersonalityType now ;; mret tt
  | UpdateRating ratingId updates now =>
      updateRating ratingId updates now
  | DeleteRating ratingId now => deleteRating algoliaConfigured ratingId now
  end.

(** [ratingsCol.doc()] hands out an id that no rating document has yet. *)
Definition freshId (db : Db) (op : RatingOp) : Prop :=
  match op with
  | CreateRating newId _ _ _ _ _ _ _ _ _ _ => ratings db !! newId = None
  | _ => True
  end.

(** An update leaves the rating at its place: it carries no [placeId], or
    the one the rating has. *)
Definition keepsPlace (db : Db) (op : RatingOp) : Prop :=
  match op with
  | UpdateRating ratingId updates _ =>
      ∀ r p, ratings db !! ratingId = Some r → u_placeId updates = Some p →
             p = Rating.placeId r
  | _ => True
  end.

End Aggregates.

(** A small database for examples: one user, one rated café. *)
Module Examples.
Import JS RatingService Types Firestore RatingStore Aggregates.

Definition downtown : LatLng := {| lat := 47%Q; lng := (-122)%Q |}.

Definition ana : User.t :=
  {| User.displayName := "Ana"; User.discordId := Some "d-ana";
     User.adjustmentFactor := Some (-(5#10))%Q;
     User.personalityType := Some "Introvert";
     User.lastRatedPlaceLocation := None; User.totalRatingsCount := None;
     User.totalGroupsJoined := None |}.

Definition usersOnly : Db :=
  {| users := {[ "ana" := ana ]}; ratings := ∅; places := ∅; groups := ∅ |}.

Definition rateCafe : RatingOp :=
  CreateRating "r1" "ana" "cafe" "Brew & Co" "123 Main St" downtown
    scenarioCategories "quiet" (-(5#10))%Q "Introvert" "2024-01-01".

(** The database after Ana has rated the café once. *)
Definition oneRating : Db := exec (runOp false rateCafe) usersOnly.

(** An update that carries nothing, and updates that carry one field. *)
Definition noUpdates : RatingUpdates :=
  {| u_userId := None; u_userAdjustmentFactor := None;
     u_userPersonalityType := None; u_placeId := None; u_placeName := None;
     u_placeAddress := None; u_location := None; u_categories := None;
     u_overallScore := None; u_comment := None; u_createdAt := None;
     u_updatedAt := None |}.

Definition newCategories (c : RatingCategory) : RatingUpdates :=
  {| u_userId := None; u_userAdjustmentFactor := None;
     u_userPersonalityType := None; u_placeId := None; u_placeName := None;
     u_placeAddress := None; u_location := None; u_categories := Some c;
     u_overallScore := None; u_comment := None; u_createdAt := None;
     u_updatedAt := None |}.

Definition newOverallScore (s : number) : RatingUpdates :=
  {| u_userId := None; u_userAdjustmentFactor := None;
     u_userPersonalityType := None; u_placeId := None; u_placeName := None;
     u_placeAddress := None; u_location := None; u_categories := None;
     u_overallScore := Some s; u_comment := None; u_createdAt := None;
     u_updatedAt := None |}.

Definition newComment (comment : string) : RatingUpdates :=
  {| u_userId := None; u_userAdjustmentFactor := None;
     u_userPersonalityType := None; u_placeId := None; u_placeName := None;
     u_placeAddress := None; u_location := None; u_categories := None;
     u_overallScore := None; u_comment := Some comment; u_createdAt := None;
     u_updatedAt := None |}.

(** A move to another place, with new categories. *)
Definition newPlaceAndCategories (placeId : string) (c : RatingCategory)
  : RatingUpdates :=
  {| u_userId := None; u_userAdjustmentFactor := None;
     u_userPersonalityType := None; u_placeId := Some placeId;
     u_placeName := None; u_placeAddress := None; u_location := None;
     u_categories := Some c; u_overallScore := None; u_comment := None;
     u_createdAt := None; u_updatedAt := None |}.

Definition newPlace (placeId : string) : RatingUpdates :=
  {| u_userId := None; u_userAdjustmentFactor := None;
     u_userPersonalityType := None; u_placeId := Some placeId;
     u_placeName := None; u_placeAddress := None; u_location := None;
     u_categories := None; u_overallScore := None; u_comment := None;
     u_createdAt := None; u_updatedAt := None |}.

End Examples.

(** ** JavaScript arrays and insertion-ordered maps *)

Module JSArray.

(** The sign test that [Array.prototype.sort] applies to what the comparator
    returns: a result above zero moves the first argument behind the second. *)
Class Signed (T : Type) := isPositive : T → bool.
#[global] Instance Signed_number : Signed JS.number := λ q, negb (Qle_bool q 0).

Section Sort.
Context {A T : Type} `{Signed T} (compareFn : A → A → T).

(** [x] walks right past every element it must follow. *)
Fixpoint sortInsert (x : A) (sorted : list A) : list A :=
  match sorted with
  | [] => [x]
  | y :: rest =>
      if isPositive (compareFn x y) then y :: sortInsert x rest
      else x :: y :: rest
  end.

(** [array.sort(compareFn)]: the stable sort, as an insertion sort. *)
Definition Array_sort (l : list A) : list A := foldr sortInsert [] l.

(** [a] may stand before [b]: the comparator does not ask to swap them. *)
Definition mayPrecede (a b : A) : Prop := isPositive (compareFn a b) = false.

End Sort.

(** [array.slice(0, end)] for an integer [end]: a negative [end] counts
    from the end of the array, and nothing is left when it reaches past the
    start. *)
Definition Array_slice0 {A} (end_ : Z) (l : list A) : list A :=
  take (Z.to_nat (if (end_ <? 0)%Z then Z.of_nat (length l) + end_ else end_)) l.

(** [array.forEach((x, index) => ...)] threading the state it mutates. *)
Fixpoint forEachIndexed {A St} (body : St → A → nat → St) (l : list A)
    (index : nat) (s : St) : St :=
  match l with
  | [] => s
  | x :: rest => forEachIndexed body rest (S index) (body s x index)
  end.

(** A JavaScript [Map] with string keys: entries in insertion order. *)
Definition JSMap (V : Type) := list (string * V).

Fixpoint Map_get {V} (m : JSMap V) (key : string) : option V :=
  match m with
  | [] => None
  | (k, v) :: rest => if String.eqb k key then Some v else Map_get rest key
  end.

(** [m.set(key, v)]: an existing key keeps its position. *)
Fixpoint Map_set {V} (m : JSMap V) (key : string) (v : V) : JSMap V :=
  match m with
  | [] => [(key, v)]
  | (k, v0) :: rest =>
      if String.eqb k key then (k, v) :: rest else (k, v0) :: Map_set rest key v
  end.

End JSArray.

(** ** Group service ([group.service.ts]) *)

Module GroupService.
Import JS Types Firestore JSArray.

(** [getUserByIdOrDiscordId]: the document with that id if there is one,
    else the first user whose [discordId] is the given string. *)
Definition getUserByIdOrDiscordId (userId : string) : M (string * User.t) :=
  userDoc ← docGet usersCol userId;
  match userDoc with
  | Some data => mret (userId, data)
  | None =>
      snapshot ← docQuery usersCol (λ _ u,
                    bool_decide (User.discordId u = Some userId));
      match snapshot with
      | [] => throw ("User " +:+ userId +:+ " not found")
      | doc :: _ => mret doc
      end
  end.

Definition updateUserGroupStats (userId : string) (increment : Z) : M unit :=
  userDoc ← docGet usersCol userId;
  match userDoc with
  | Some user =>
      docUpdate usersCol userId (λ u,
        {| User.displayName := User.displayName u;
           User.discordId := User.discordId u;
           User.adjustmentFactor := User.adjustmentFactor u;
           User.personalityType := User.personalityType u;
           User.lastRatedPlaceLocation := User.lastRatedPlaceLocation u;
           User.totalRatingsCount := User.totalRatingsCount u;
           User.totalGroupsJoined :=
             Some (default 0 (User.totalGroupsJoined user) + increment)%Z |})
  | None => mret tt
  end.

(** [update({ [`votes.${id}`]: rankedPlaceIds })]. *)
Definition withVote (id : string) (rankedPlaceIds : list string) (g : Group.t)
  : Group.t :=
  {| Group.createdBy := Group.createdBy g; Group.createdAt := Group.createdAt g;
     Group.members := Group.members g;
     Group.memberProfiles := Group.memberProfiles g;
     Group.recommendedPlaces := Group.recommendedPlaces g;
     Group.votes := <[id := rankedPlaceIds]> (Group.votes g);
     Group.finalPlace := Group.finalPlace g; Group.status := Group.status g;
     Group.archivedAt := Group.archivedAt g |}.

(** The update of [finalizeSelection]: three [finalPlace] fields and the
    status are always written, [finalPlace.location] only when given. *)
Definition withFinalPlace (placeId placeName : string)
    (location : option LatLng) (now : string) (g : Group.t) : Group.t :=
  {| Group.createdBy := Group.createdBy g; Group.createdAt := Group.createdAt g;
     Group.members := Group.members g;
     Group.memberProfiles := Group.memberProfiles g;
     Group.recommendedPlaces := Group.recommendedPlaces g;
     Group.votes := Group.votes g;
     Group.finalPlace :=
       Some {| fp_placeId := placeId; fp_placeName := placeName;
               fp_selectedAt := now;
               fp_location :=
                 match location with
                 | Some l => Some l
                 | None => Group.finalPlace g ≫= fp_location
                 end |};
     Group.status := place_selected;
     Group.archivedAt := Group.archivedAt g |}.

(** [update({ status: 'archived', archivedAt })]. *)
Definition withArchived (now : string) (g : Group.t) : Group.t :=
  {| Group.createdBy := Group.createdBy g; Group.createdAt := Group.createdAt g;
     Group.members := Group.members g;
     Group.memberProfiles := Group.memberProfiles g;
     Group.recommendedPlaces := Group.recommendedPlaces g;
     Group.votes := Group.votes g;
     Group.finalPlace := Group.finalPlace g; Group.status := archived;
     Group.archivedAt := Some now |}.

Definition castVotes (groupId userId : string) (rankedPlaceIds : list string)
  : M unit :=
  if (length rankedPlaceIds =? 0) || (3 <? length rankedPlaceIds)
  then throw "Must vote for 1-3 places"
  else
    groupDoc ← docGet groupsCol groupId;
    match groupDoc with
    | None => throw "Group not found"
    | Some group =>
        userData ← getUserByIdOrDiscordId userId;
        let firebaseId := userData.1 in
        if bool_decide (firebaseId ∈ Group.members group)
        then docUpdate groupsCol groupId (withVote firebaseId rankedPlaceIds)
        else throw "User not in group"
    end.

(** The caller's id resolves to the user document [firebaseId], and that id
    is among the members of the group. *)
Definition votesAsMember (db : Db) (g : Group.t) (userId firebaseId : string)
  : Prop :=
  (∃ data, outcome (getUserByIdOrDiscordId userId) db = Ok (firebaseId, data)) ∧
  firebaseId ∈ Group.members g.

Record Vote := { v_userId : string; v_rank : nat }.

(** [[3, 2, 1][index] || 0]. *)
Definition points (index : nat) : Z := default 0%Z ([3; 2; 1]%Z !! index).




Definition finalizeSelection (groupId placeId placeName : string)
    (location : option LatLng) (now : string) : M unit :=
  groupDoc ← docGet groupsCol groupId;
  match groupDoc with
  | None => throw "Group not found"
  | Some group =>
      docUpdate groupsCol groupId
        (withFinalPlace placeId placeName location now) ;;
      forEachM (λ memberId, updateUserGroupStats memberId 0) (Group.members group)
  end.

Definition archiveGroup (groupId : string) (now : string) : M unit :=
  docUpdate groupsCol groupId (withArchived now).

Definition disbandGroup (groupId userId : string) (now : string) : M unit :=
  groupDoc ← docGet groupsCol groupId;
  match groupDoc with
  | None => throw "Group not found"
  | Some group =>
      userData ← getUserByIdOrDiscordId userId;
      let firebaseId := userData.1 in
      if bool_decide (Group.createdBy group ≠ firebaseId)
      then throw "Only creator can disband group"
      else docUpdate groupsCol groupId (withArchived now)
  end.

End GroupService.

Module GroupExamples.
Import JS Types Firestore GroupService.

Definition member (name : string) (discord : string) : User.t :=
  {| User.displayName := name; User.discordId := Some discord;
     User.adjustmentFactor := None; User.personalityType := None;
     User.lastRatedPlaceLocation := None; User.totalRatingsCount := None;
     User.totalGroupsJoined := Some 1%Z |}.

Definition outing (s : GroupStatus) (fp : option FinalPlace) : Group.t :=
  {| Group.createdBy := "ana"; Group.createdAt := "2024-01-01";
     Group.members := ["ana"; "bo"]; Group.memberProfiles := ∅;
     Group.recommendedPlaces := [];
     Group.votes := {[ "ana" := ["A"; "B"; "C"] ]};
     Group.finalPlace := fp; Group.status := s; Group.archivedAt := None |}.

Definition chosenA : FinalPlace :=
  {| fp_placeId := "A"; fp_placeName := "Cafe A";
     fp_selectedAt := "2024-01-02"; fp_location := None |}.

(** Three users, two of them members of each group; one group of each status. *)
Definition groupsDb : Db :=
  {| users := {[ "ana" := member "Ana" "d-ana"; "bo" := member "Bo" "d-bo";
                 "cy" := member "Cy" "d-cy" ]};
     ratings := ∅; places := ∅;
     groups := {[ "g-active" := outing active None;
                  "g-selected" := outing place_selected (Some chosenA);
                  "g-archived" := outing archived None ]} |}.

End GroupExamples.

(** ** The Discord bot's tally ([commands/group.ts], [finalizeVoting]) *)

Module Bot.
Import JS Types JSArray GroupService.

Record GroupSession := {
  groupId : option string;
  members : list string;
  recommendations : list RecommendedPlace;
  sessionVotes : JSMap (list string)
}.

Record Tally := {
  scores : JSMap Z;
  voteDetails : JSMap (list Vote)
}.

(** The body of [rankedPlaces.forEach((placeId, index) => ...)]; the points
    are [[3, 2, 1][index] || 0], as in the service. *)
Definition recordVote (userId : string) (t : Tally) (placeId : string)
    (index : nat) : Tally :=
  {| scores :=
       Map_set (scores t) placeId
         (default 0 (Map_get (scores t) placeId) + points index)%Z;
     voteDetails :=
       Map_set (voteDetails t) placeId
         (default [] (Map_get (voteDetails t) placeId) ++
          [{| v_userId := userId; v_rank := index + 1 |}]) |}.

Definition tally (votes : JSMap (list string)) : Tally :=
  fold_left (λ t entry, forEachIndexed (recordVote entry.1) entry.2 0 t)
            votes {| scores := []; voteDetails := [] |}.





End Bot.

(** ** The ranked-choice rule, in the words of the specification *)

Module RankedChoice.

(** Points of a rank: 3, 2, 1 for ranks 1, 2, 3 and nothing past rank 3. *)
Definition rankPoints (rank : nat) : Z :=
  match rank with
  | 1 => 3%Z
  | 2 => 2%Z
  | 3 => 1%Z
  | _ => 0%Z
  end.

(** What one ranked list awards a place; [rank] is the rank of its head. *)
Fixpoint ballotPoints (placeId : string) (ranked : list string) (rank : nat)
  : Z :=
  match ranked with
  | [] => 0%Z
  | p :: rest =>
      ((if String.eqb p placeId then rankPoints rank else 0) +
       ballotPoints placeId rest (S rank))%Z
  end.

(** The accumulated score of a place: the sum over all members' lists. *)
Definition expectedScore (ballots : list (list string)) (placeId : string) : Z :=
  foldr (λ ranked total, ballotPoints placeId ranked 1 + total)%Z 0%Z ballots.


(** The same reading of the bot's [scores] map. *)
Definition scoreIn (scores : JSArray.JSMap Z) (placeId : string) : Z :=
  default 0%Z (JSArray.Map_get scores placeId).

(** Scenario C of the specification. *)
Definition scenarioVotes : list (string * list string) :=
  [("u1", ["A"; "B"; "C"]); ("u2", ["B"; "A"; "C"]); ("u3", ["A"; "C"; "B"])].

End RankedChoice.

Module TallyExamples.
Import JS Types JSArray GroupService Bot RankedChoice.

Definition candidate (placeId placeName : string) : RecommendedPlace :=
  {| rp_placeId := placeId; rp_placeName := placeName; rp_address := "";
     rp_location := None; rp_predictedScore := 7%Q |}.

(** Scenario C as a bot session: three members, each with a full ballot. *)
Definition scenarioSession : GroupSession :=
  {| groupId := None; members := ["u1"; "u2"; "u3"];
     recommendations :=
       [candidate "A" "Cafe A"; candidate "B" "Bar B"; candidate "C" "Club C"];
     sessionVotes := scenarioVotes |}.


End TallyExamples.

(** ** The "places for you" feed ([routes/explore.ts], [GET /api/explore/places]) *)

Module Explore.
Import JS RatingService Types Firestore JSArray RatingStore.

(** A nearby place, as [getNearbyPlaces] hands it to the route. *)
Record NearbyPlace := {
  np_id : string;
  np_name : string;
  np_address : string;
  np_location : LatLng
}.

Record Recommendation := {
  id : string;
  name : string;
  address : string;
  location : LatLng;
  predictedScore : number;
  confidence : number;
  totalRatings : number;
  similarRatings : number;
  isUnrated : bool
}.

(** An element of [adjustedRatings]: the rating with its score for the viewer. *)
Record AdjustedRating := {
  rating : Rating.t;
  adjustedOverallScore : number;
  personalityDistance : number
}.

(** The body of the [for (const place of nearbyPlaces)] loop, given the
    ratings of the place. *)
Definition scorePlace (userAF : number) (place : NearbyPlace)
    (ratings : list Rating.t) : Recommendation :=
  match ratings with
  | [] =>
      {| id := np_id place; name := np_name place; address := np_address place;
         location := np_location place;
         predictedScore := 5; confidence := 0; totalRatings := 0;
         similarRatings := 0; isUnrated := true |}
  | _ =>
      let adjustedRatings :=
        (λ r, {| rating := r;
                 adjustedOverallScore :=
                   calculateAdjustedScoreForViewer (Rating.categories r)
                     (Rating.userAdjustmentFactor r) userAF;
                 personalityDistance :=
                   Math_abs (Rating.userAdjustmentFactor r - userAF) |})
        <$> ratings in
      let avgAdjustedScore :=
        (sum_by adjustedOverallScore adjustedRatings / len adjustedRatings)%Q in
      let confidence := Math_min (len ratings / 10) 1 in
      {| id := np_id place; name := np_name place; address := np_address place;
         location := np_location place;
         predictedScore := (Math_round (avgAdjustedScore * 10) / 10)%Q;
         confidence := Math_round (confidence * 100);
         totalRatings := len ratings;
         similarRatings := len adjustedRatings;
         isUnrated := false |}
  end.

(** The comparator of [recommendations.sort]. *)
Definition compareRecommendations (a b : Recommendation) : number :=
  if isUnrated a && negb (isUnrated b) then 1
  else if negb (isUnrated a) && isUnrated b then (-1)
  else if isUnrated a && isUnrated b then 0
  else
    let scoreA := (predictedScore a * (confidence a / 100))%Q in
    let scoreB := (predictedScore b * (confidence b / 100))%Q in
    (scoreB - scoreA)%Q.

(** The viewer's factor as the handler reads it:
    [userData?.adjustmentFactor || 0]. *)
Definition viewerFactor (userData : User.t) : number :=
  or_default (default 0%Q (User.adjustmentFactor userData)) 0.

Inductive Response :=
  | NotFound (error : string)
  | Success (data : list Recommendation) (count rated unrated : nat)
            (message : option string).

(** [Math.min(parseInt(req.query.limit) || 20, 50)]: [parsed] is what
    [parseInt] made of the query string, [None] for [NaN]. The result is at
    most 50 and may be negative. *)
Definition queryLimit (parsed : option Z) : Z :=
  Z.min match parsed with
        | Some n => if (n =? 0)%Z then 20 else n
        | None => 20
        end 50.

(** The handler. [nearbyPlaces] is what [getNearbyPlaces] returned for the
    user's last rated location; [limit] is the query limit as [queryLimit]
    gives it. *)
Definition explorePlaces (userId : string) (limit : Z)
    (nearbyPlaces : list NearbyPlace) : M Response :=
  userDoc ← docGet usersCol userId;
  match userDoc with
  | None => mret (NotFound "User not found")
  | Some userData =>
      let userAF := viewerFactor userData in
      match User.lastRatedPlaceLocation userData with
      | None =>
          mret (Success [] 0 0 0
                  (Some "Rate a place first to get personalized recommendations"))
      | Some userLocation =>
          recommendations ←
            mapM (λ place,
                    ratings ← getPlaceRatings (np_id place);
                    mret (scorePlace userAF place ratings))
                 nearbyPlaces;
          let sorted := Array_sort compareRecommendations recommendations in
          mret (Success (Array_slice0 limit sorted) (length sorted)
                  (length (List.filter (λ r, negb (isUnrated r)) sorted))
                  (length (List.filter isUnrated sorted)) None)
      end
  end.

(** The arithmetic mean of a list of scores. *)
Definition mean (scores : list number) : number :=
  (sum_by (λ s, s) scores / len scores)%Q.

(** The score of each rating of a place, re-projected for the viewer. *)
Definition adjustedScores (db : Db) (placeId : string) (userAF : number)
  : list number :=
  (λ r, calculateAdjustedScoreForViewer (Rating.categories r)
          (Rating.userAdjustmentFactor r) userAF)
  <$> Aggregates.placeRatings db placeId.

(** The key the rated entries of the feed are ordered by. *)
Definition rankingKey (r : Recommendation) : number :=
  (predictedScore r * (confidence r / 100))%Q.

End Explore.

Module ExploreExamples.
Import JS RatingService Types Firestore RatingStore Aggregates Explore Examples.

Definition person (name : string) (af : number) : User.t :=
  {| User.displayName := name; User.discordId := None;
     User.adjustmentFactor := Some af; User.personalityType := None;
     User.lastRatedPlaceLocation := None; User.totalRatingsCount := None;
     User.totalGroupsJoined := None |}.

Definition threeUsers : Db :=
  {| users := {[ "ana" := person "Ana" (-(5#10)); "bo" := person "Bo" (5#10);
                 "cy" := person "Cy" 0 ]};
     ratings := ∅; places := ∅; groups := ∅ |}.

Definition lively : RatingCategory :=
  {| crowdSize := 9; noiseLevel := 8; socialEnergy := 9; service := 6;
     atmosphere := 7 |}.

Definition mixed : RatingCategory :=
  {| crowdSize := 4; noiseLevel := 5; socialEnergy := 6; service := 7;
     atmosphere := 8 |}.

Definition rate (newId userId : string) (c : RatingCategory) (af : number)
  : RatingOp :=
  CreateRating newId userId "cafe" "Brew & Co" "123 Main St" downtown c ""
               af "" "2024-01-01".

(** The café after an introvert, an extrovert and an ambivert have rated it. *)
Definition threeRatings : Db :=
  exec (runOp true (rate "r3" "cy" mixed 0))
    (exec (runOp true (rate "r2" "bo" lively (5#10)))
       (exec (runOp true (rate "r1" "ana" scenarioCategories (-(5#10))))
          threeUsers)).

Definition cafe : NearbyPlace :=
  {| np_id := "cafe"; np_name := "Brew & Co"; np_address := "123 Main St";
     np_location := downtown |}.

Definition park : NearbyPlace :=
  {| np_id := "park"; np_name := "City Park"; np_address := "1 Park Ave";
     np_location := downtown |}.

End ExploreExamples.

(** ** The scoring functions on binary64

    The same functions of [rating.service.ts] over IEEE 754 doubles, the
    numbers JavaScript computes with, to evaluate the scenarios exactly as
    the runtime does. *)

Module B64.

#[local] Set Warnings "-inexact-float".

Definition number := float.

(** [Math.round] on a double: the integer [floor (x + 1/2)], computed
    exactly from the sign, mantissa and exponent of [x]. Zeros, infinities,
    NaN and doubles without a fractional part are returned as they are. *)
Definition Math_round (x : number) : number :=
  match Prim2SF x with
  | S754_finite s m e =>
      if (0 <=? e)%Z then x
      else
        let n := if s then Z.neg m else Z.pos m in
        let k := ((2 * n + 2 ^ (- e)) / 2 ^ (1 - e))%Z in
        match k with
        | Z0 => if s then (-0)%float else 0%float
        | Zpos _ => of_uint63 (Uint63.of_Z k)
        | Zneg p => (- of_uint63 (Uint63.of_Z (Zpos p)))%float
        end
  | _ => x
  end.

Record RatingCategory := mkCategories {
  crowdSize : number;
  noiseLevel : number;
  socialEnergy : number;
  service : number;
  atmosphere : number
}.

Definition invertSensitive (categories : RatingCategory) : RatingCategory :=
  {| crowdSize := 11 - crowdSize categories;
     noiseLevel := 11 - noiseLevel categories;
     socialEnergy := 11 - socialEnergy categories;
     service := service categories;
     atmosphere := atmosphere categories |}%float.

Definition normalizeCategoriesToObjective
    (categories : RatingCategory) (raterAdjustmentFactor : number)
  : RatingCategory :=
  if (raterAdjustmentFactor <=? -0.2)%float
  then invertSensitive categories else categories.

Definition adjustCategoriesForPersonality
    (categories : RatingCategory) (adjustmentFactor : number)
  : RatingCategory :=
  if (adjustmentFactor <=? -0.2)%float
  then invertSensitive categories else categories.

Definition calculateOverallScore
    (categories : RatingCategory) (raterAdjustmentFactor : number) : number :=
  let adjusted :=
    adjustCategoriesForPersonality categories raterAdjustmentFactor in
  let weighted :=
    (crowdSize adjusted * 0.15 + noiseLevel adjusted * 0.15 +
     socialEnergy adjusted * 0.25 + service adjusted * 0.2 +
     atmosphere adjusted * 0.25)%float in
  (Math_round (weighted * 10) / 10)%float.

Definition adjustCategoriesForViewer
    (normalizedCategories : RatingCategory) (viewerAdjustmentFactor : number)
  : RatingCategory :=
  adjustCategoriesForPersonality normalizedCategories viewerAdjustmentFactor.

Definition calculateAdjustedScoreForViewer
    (ratingCategories : RatingCategory)
    (raterAdjustmentFactor viewerAdjustmentFactor : number) : number :=
  let normalized :=
    normalizeCategoriesToObjective ratingCategories raterAdjustmentFactor in
  let adjusted :=
    adjustCategoriesForViewer normalized viewerAdjustmentFactor in
  calculateOverallScore adjusted 0%float.

Definition scenarioCategories : RatingCategory :=
  {| atmosphere := 8; socialEnergy := 7; crowdSize := 6; noiseLevel := 5;
     service := 7 |}%float.

(** The ten scores of the 1-10 scale. *)
Definition scale : list number := [1; 2; 3; 4; 5; 6; 7; 8; 9; 10]%float.

(** The three personality-sensitive values of a record are scores of the
    1-10 scale; service and atmosphere are any doubles. *)
Definition sensitiveOnScale (c : RatingCategory) : Prop :=
  crowdSize c ∈ scale ∧ noiseLevel c ∈ scale ∧ socialEnergy c ∈ scale.

(** A record with a crowd size between two scores of the scale. *)
Definition offScale : RatingCategory :=
  {| crowdSize := 1.1; noiseLevel := 5; socialEnergy := 5; service := 5;
     atmosphere := 5 |}%float.

(** A record with three values between scores of the scale. *)
Definition offScaleScores : RatingCategory :=
  {| crowdSize := 1.2; noiseLevel := 3.8; socialEnergy := 1.2; service := 7;
     atmosphere := 8 |}%float.

End B64.

(** ** The explore routes on binary64 ([routes/explore.ts])

    The two handlers of [routes/explore.ts] over doubles, with the documents
    they read. Both only read, so they are functions of the database. *)

Module B64Feed.
Import B64 JSArray.

#[local] Set Warnings "-inexact-float".
#[local] Open Scope float_scope.

(** [Math.min] and [Math.max]: [NaN] when an argument is [NaN]; of the two
    zeros the negative one is the smaller. *)
Definition Math_min (x y : number) : number :=
  if is_nan x || is_nan y then nan
  else if x <? y then x else if y <? x then y
  else if get_sign x then x else y.

Definition Math_max (x y : number) : number :=
  if is_nan x || is_nan y then nan
  else if x <? y then y else if y <? x then x
  else if get_sign x then y else x.

Definition Math_abs (x : number) : number := abs x.

(** Truthiness of a number as used by [x || y]: zeros and [NaN] are falsy. *)
Definition truthy (x : number) : bool := negb ((x =? 0) || is_nan x).

Definition or_default (x d : number) : number := if truthy x then x else d.

(** [array.length] as a number; array lengths are below 2^32. *)
Definition len {A} (l : list A) : number :=
  of_uint63 (Uint63.of_Z (Z.of_nat (length l))).

(** [l.reduce((sum, r) => sum + f(r), 0)]. *)
Definition sum_by {A} (f : A → number) (l : list A) : number :=
  fold_left (λ sum r, sum + f r) l 0.

(** [Math.round(x * 10) / 10]. *)
Definition round1 (x : number) : number := Math_round (x * 10) / 10.

(** The sign test of [Array.prototype.sort] on a double: [NaN] counts as 0. *)
#[global] Instance Signed_float : Signed number := λ v, 0 <? v.

Record LatLng := { lat : number; lng : number }.

(** The fields of a user document that the handlers read. *)
Record User := {
  displayName : string;
  personalityType : option string;
  adjustmentFactor : option number;
  lastRatedPlaceLocation : option LatLng;
  totalRatingsCount : option Z
}.

(** The fields of a rating document that the handlers read. *)
Record Rating := {
  placeId : string;
  categories : RatingCategory;
  userAdjustmentFactor : number
}.

Record Db := {
  users : gmap string User;
  ratings : gmap string Rating
}.

(** [getPlaceRatings]: every rating whose [placeId] is the given one. *)
Definition getPlaceRatings (db : Db) (placeId0 : string) : list Rating :=
  (List.filter (λ kv, String.eqb (placeId kv.2) placeId0)
               (map_to_list (ratings db))).*2.

(** The viewer's factor as the handlers read it:
    [userData?.adjustmentFactor || 0]. *)
Definition viewerFactor (userData : User) : number :=
  or_default (default 0 (adjustmentFactor userData)) 0.

(** *** [GET /api/explore/places] *)

(** A nearby place, as [getNearbyPlaces] hands it to the route. *)
Record NearbyPlace := {
  np_id : string;
  np_name : string;
  np_address : string;
  np_location : LatLng
}.

Record Recommendation := {
  id : string;
  name : string;
  address : string;
  location : LatLng;
  predictedScore : number;
  confidence : number;
  totalRatings : nat;
  similarRatings : nat;
  isUnrated : bool
}.

(** An element of [adjustedRatings]: the rating with its score for the viewer. *)
Record AdjustedRating := {
  rating : Rating;
  adjustedOverallScore : number;
  personalityDistance : number
}.

(** The body of the [for (const place of nearbyPlaces)] loop, given the
    ratings of the place. *)
Definition scorePlace (userAF : number) (place : NearbyPlace)
    (ratings : list Rating) : Recommendation :=
  match ratings with
  | [] =>
      {| id := np_id place; name := np_name place; address := np_address place;
         location := np_location place;
         predictedScore := 5; confidence := 0; totalRatings := 0%nat;
         similarRatings := 0%nat; isUnrated := true |}
  | _ =>
      let adjustedRatings :=
        (λ r, {| rating := r;
                 adjustedOverallScore :=
                   calculateAdjustedScoreForViewer (categories r)
                     (userAdjustmentFactor r) userAF;
                 personalityDistance :=
                   Math_abs (userAdjustmentFactor r - userAF) |})
        <$> ratings in
      let avgAdjustedScore :=
        sum_by adjustedOverallScore adjustedRatings / len adjustedRatings in
      let confidence := Math_min (len ratings / 10) 1 in
      {| id := np_id place; name := np_name place; address := np_address place;
         location := np_location place;
         predictedScore := Math_round (avgAdjustedScore * 10) / 10;
         confidence := Math_round (confidence * 100);
         totalRatings := length ratings;
         similarRatings := length adjustedRatings;
         isUnrated := false |}
  end.

(** The comparator of [recommendations.sort]. *)
Definition compareRecommendations (a b : Recommendation) : number :=
  if isUnrated a && negb (isUnrated b) then 1
  else if negb (isUnrated a) && isUnrated b then (-1)
  else if isUnrated a && isUnrated b then 0
  else
    let scoreA := predictedScore a * (confidence a / 100) in
    let scoreB := predictedScore b * (confidence b / 100) in
    scoreB - scoreA.

Inductive Response :=
  | NotFound (error : string)
  | NoLocation (message : string)
  | Feed (data : list Recommendation) (count rated unrated : nat).

(** The handler. [nearbyPlaces] is what [getNearbyPlaces] returned for the
    user's last rated location; [limit] is the query limit, an integer of at
    most 50 that may be negative. *)
Definition explorePlaces (db : Db) (userId : string) (limit : Z)
    (nearbyPlaces : list NearbyPlace) : Response :=
  match users db !! userId with
  | None => NotFound "User not found"
  | Some userData =>
      let userAF := viewerFactor userData in
      match lastRatedPlaceLocation userData with
      | None =>
          NoLocation "Rate a place first to get personalized recommendations"
      | Some userLocation =>
          let recommendations :=
            (λ place, scorePlace userAF place (getPlaceRatings db (np_id place)))
            <$> nearbyPlaces in
          let sorted := Array_sort compareRecommendations recommendations in
          Feed (Array_slice0 limit sorted) (length sorted)
               (length (List.filter (λ r, negb (isUnrated r)) sorted))
               (length (List.filter isUnrated sorted))
      end
  end.

(** The arithmetic mean of a list of scores, as the handler computes it:
    the sum from the left, starting at 0, divided by the length. *)
Definition mean (scores : list number) : number :=
  sum_by (λ s, s) scores / len scores.

(** The score of each rating of a place, re-projected for the viewer. *)
Definition adjustedScores (db : Db) (placeId0 : string) (userAF : number)
  : list number :=
  (λ r, calculateAdjustedScoreForViewer (categories r)
          (userAdjustmentFactor r) userAF)
  <$> getPlaceRatings db placeId0.

(** *** [GET /api/explore/people] *)

(** An entry of the answer; the avatar, which is passed through, is left
    out. *)
Record PersonRecommendation := {
  pr_id : string;
  pr_displayName : string;
  pr_personalityType : option string;
  pr_adjustmentFactor : number;
  pr_totalRatingsCount : Z;
  pr_lastRatedPlaceLocation : LatLng;
  similarity : number;
  distance : number
}.

(** The comparator of [recommendations.sort]. *)
Definition comparePeople (a b : PersonRecommendation) : number :=
  let simDiff := similarity b - similarity a in
  if 0.05 <? Math_abs simDiff then simDiff
  else distance a - distance b.

Inductive PeopleResponse :=
  | PeopleNotFound (error : string)
  | PeopleNoLocation (message : string)
  | People (data : list PersonRecommendation) (count : nat).

Section Distance.

(** [haversineDistance], whose trigonometry is left uninterpreted. *)
Variable haversineDistance : number → number → number → number → number.

(** The body of the loop over the snapshot: [None] where the loop continues
    or pushes nothing. *)
Definition scorePerson (userId : string) (userAF : number)
    (userLocation : LatLng) (maxDistance : number) (doc : string * User)
  : option PersonRecommendation :=
  if String.eqb doc.1 userId then None
  else
    match lastRatedPlaceLocation doc.2 with
    | None => None
    | Some otherLocation =>
        let otherAF := or_default (default 0 (adjustmentFactor doc.2)) 0 in
        let afDistance := Math_abs (userAF - otherAF) in
        let similarity := Math_max 0 (1 - afDistance) in
        let distance :=
          haversineDistance (lat userLocation) (lng userLocation)
            (lat otherLocation) (lng otherLocation) in
        if (distance <=? maxDistance) && (0.3 <=? similarity)
        then Some {| pr_id := doc.1;
                     pr_displayName := displayName doc.2;
                     pr_personalityType := personalityType doc.2;
                     pr_adjustmentFactor := otherAF;
                     pr_totalRatingsCount :=
                       default 0%Z (totalRatingsCount doc.2);
                     pr_lastRatedPlaceLocation := otherLocation;
                     similarity := similarity;
                     distance := Math_round (distance * 10) / 10 |}
        else None
    end.

(** The handler. The snapshot is the first 200 users that have a
    personality type, in the order the store lists them; [limit] and
    [maxDistance] are the parsed query parameters. *)
Definition explorePeople (db : Db) (userId : string) (limit : Z)
    (maxDistance : number) : PeopleResponse :=
  match users db !! userId with
  | None => PeopleNotFound "User not found"
  | Some userData =>
      let userAF := viewerFactor userData in
      match lastRatedPlaceLocation userData with
      | None =>
          PeopleNoLocation
            "Rate a place first to get personalized recommendations"
      | Some userLocation =>
          let usersSnapshot :=
            List.filter (λ kv : string * User,
                           bool_decide (is_Some (personalityType kv.2)))
                        (map_to_list (users db)) in
          let recommendations :=
            omap (scorePerson userId userAF userLocation maxDistance)
                 (take 200 usersSnapshot) in
          let sorted := Array_sort comparePeople recommendations in
          People (Array_slice0 limit sorted) (length sorted)
      end
  end.

End Distance.

(** *** Examples *)

Definition downtown : LatLng := {| lat := 47; lng := -122 |}.

Definition person (name : string) (af : number) : User :=
  {| displayName := name; personalityType := Some "Unknown";
     adjustmentFactor := Some af; lastRatedPlaceLocation := Some downtown;
     totalRatingsCount := Some 1%Z |}.

Definition lively : RatingCategory :=
  {| crowdSize := 9; noiseLevel := 8; socialEnergy := 9; service := 6;
     atmosphere := 7 |}.

Definition mixed : RatingCategory :=
  {| crowdSize := 4; noiseLevel := 5; socialEnergy := 6; service := 7;
     atmosphere := 8 |}.

(** The café after an introvert, an extrovert and an ambivert have rated it. *)
Definition threeRatings : Db :=
  {| users := {[ "ana" := person "Ana" (-0.5); "bo" := person "Bo" 0.5;
                 "cy" := person "Cy" 0 ]};
     ratings :=
       {[ "r1" := {| placeId := "cafe"; categories := scenarioCategories;
                     userAdjustmentFactor := -0.5 |};
          "r2" := {| placeId := "cafe"; categories := lively;
                     userAdjustmentFactor := 0.5 |};
          "r3" := {| placeId := "cafe"; categories := mixed;
                     userAdjustmentFactor := 0 |} ]} |}.

(** A café whose two raters, both ambiverts, gave it the neutral scores
    1.2 and 1.9. *)
Definition twoRatings : Db :=
  {| users := {[ "cy" := person "Cy" 0 ]};
     ratings :=
       {[ "r1" := {| placeId := "cafe";
                     categories := {| crowdSize := 1; noiseLevel := 1;
                                      socialEnergy := 1; service := 2;
                                      atmosphere := 1 |};
                     userAdjustmentFactor := 0 |};
          "r2" := {| placeId := "cafe";
                     categories := {| crowdSize := 1; noiseLevel := 1;
                                      socialEnergy := 2; service := 3;
                                      atmosphere := 2 |};
                     userAdjustmentFactor := 0 |} ]} |}.

Definition cafe : NearbyPlace :=
  {| np_id := "cafe"; np_name := "Brew & Co"; np_address := "123 Main St";
     np_location := downtown |}.

Definition park : NearbyPlace :=
  {| np_id := "park"; np_name := "City Park"; np_address := "1 Park Ave";
     np_location := downtown |}.

(** A user who last rated a place at the given location. *)
Definition personAt (name : string) (af : number) (location : LatLng) : User :=
  {| displayName := name; personalityType := Some "Unknown";
     adjustmentFactor := Some af;
     lastRatedPlaceLocation := Some location;
     totalRatingsCount := None |}.

(** The distance between two points of the equator, 111.19 km to the
    degree. *)
Definition alongEquator (lat1 lng1 lat2 lng2 : number) : number :=
  Math_abs (lng2 - lng1) * 111.19.

End B64Feed.

(** ** Viewer-adjusted statistics on binary64

    [getPlaceStatsForUser] over doubles. The method only reads: it is a
    function of the place documents and of the ratings. *)

Module B64Views.
Import B64 JSArray B64Feed.

#[local] Set Warnings "-inexact-float".
#[local] Open Scope float_scope.

Inductive CategoryKey :=
  KCrowdSize | KNoiseLevel | KSocialEnergy | KService | KAtmosphere.

Definition getKey (key : CategoryKey) (c : RatingCategory) : number :=
  match key with
  | KCrowdSize => crowdSize c
  | KNoiseLevel => noiseLevel c
  | KSocialEnergy => socialEnergy c
  | KService => service c
  | KAtmosphere => atmosphere c
  end.

Definition setKey (key : CategoryKey) (v : number) (c : RatingCategory)
  : RatingCategory :=
  match key with
  | KCrowdSize => mkCategories v (noiseLevel c) (socialEnergy c) (service c) (atmosphere c)
  | KNoiseLevel => mkCategories (crowdSize c) v (socialEnergy c) (service c) (atmosphere c)
  | KSocialEnergy => mkCategories (crowdSize c) (noiseLevel c) v (service c) (atmosphere c)
  | KService => mkCategories (crowdSize c) (noiseLevel c) (socialEnergy c) v (atmosphere c)
  | KAtmosphere => mkCategories (crowdSize c) (noiseLevel c) (socialEnergy c) (service c) v
  end.

(** [Object.keys] of a category record, in insertion order. *)
Definition categoryKeys : list CategoryKey :=
  [KCrowdSize; KNoiseLevel; KSocialEnergy; KService; KAtmosphere].

Definition zeroCategories : RatingCategory := mkCategories 0 0 0 0 0.

Record BucketStats := { avgScore : number; count : Z }.

Record ByPersonality := {
  ofIntrovert : BucketStats;
  ofAmbivert : BucketStats;
  ofExtrovert : BucketStats
}.

Record PlaceStats := {
  totalRatings : Z;
  avgOverallScore : number;
  byPersonality : ByPersonality;
  avgCategories : RatingCategory;
  lastRatedAt : string
}.

(** The field [avgCategories] that [calculatePlaceStats] computes for a
    non-empty array of ratings: key by key, the rounded mean of the values
    as stored. *)
Definition storedAvgCategories (ratings : list Rating) : RatingCategory :=
  fold_left (λ avgCategories key,
               setKey key
                 (Math_round
                    (sum_by (λ r, getKey key (categories r)) ratings
                     / len ratings * 10) / 10)
                 avgCategories)
            categoryKeys zeroCategories.

(** One [ratings.forEach] step of [getPlaceStatsForUser]: the rating is
    normalised for its rater, adjusted for the viewer, and added key by key. *)
Definition accumulateAdjusted (viewerAdjustmentFactor : number)
    (adjustedCategories : RatingCategory) (rating : Rating) : RatingCategory :=
  let normalizedCategories :=
    normalizeCategoriesToObjective (categories rating)
      (userAdjustmentFactor rating) in
  let viewerAdjusted :=
    adjustCategoriesForViewer normalizedCategories viewerAdjustmentFactor in
  fold_left (λ acc key, setKey key (getKey key acc + getKey key viewerAdjusted) acc)
            categoryKeys adjustedCategories.

(** [getPlaceStatsForUser], given the [stats] of the place documents. *)
Definition getPlaceStatsForUser (places : gmap string PlaceStats) (db : Db)
    (placeId : string) (viewerAdjustmentFactor : number) : option PlaceStats :=
  match places !! placeId with
  | None => None
  | Some baseStats =>
      match getPlaceRatings db placeId with
      | [] => Some baseStats
      | ratings =>
          let adjustedCategories :=
            fold_left (accumulateAdjusted viewerAdjustmentFactor) ratings
                      zeroCategories in
          let count := len ratings in
          let adjustedCategories :=
            fold_left (λ acc key,
                         setKey key
                           (Math_round (getKey key acc / count * 10) / 10) acc)
                      categoryKeys adjustedCategories in
          let adjustedOverallScore :=
            calculateOverallScore adjustedCategories viewerAdjustmentFactor in
          Some {| totalRatings := totalRatings baseStats;
                  avgOverallScore := adjustedOverallScore;
                  byPersonality := byPersonality baseStats;
                  avgCategories := adjustedCategories;
                  lastRatedAt := lastRatedAt baseStats |}
      end
  end.

(** A rating that reads the same for the viewer as it was stored: rater and
    viewer are on the same side of the threshold, and where that is the
    introvert side the three sensitive values are whole scores. *)
Definition readsAsStored (viewerAdjustmentFactor : number) (r : Rating) : Prop :=
  (userAdjustmentFactor r <=? -0.2) = (viewerAdjustmentFactor <=? -0.2) ∧
  ((viewerAdjustmentFactor <=? -0.2) = true → sensitiveOnScale (categories r)).

(** Two introvert raters of one place with whole scores. *)
Definition introvertRatings : Db :=
  {| users := ∅;
     ratings :=
       {[ "r1" := {| placeId := "cafe"; categories := mkCategories 2 3 2 7 8;
                     userAdjustmentFactor := -0.5 |};
          "r2" := {| placeId := "cafe"; categories := mkCategories 3 3 4 6 9;
                     userAdjustmentFactor := -0.3 |} ]} |}.

(** Two introvert raters of one place, one with a crowd size off the scale. *)
Definition offScaleRatings : Db :=
  {| users := ∅;
     ratings :=
       {[ "r1" := {| placeId := "cafe"; categories := mkCategories 1 5 5 5 5;
                     userAdjustmentFactor := -0.5 |};
          "r2" := {| placeId := "cafe"; categories := mkCategories 1.1 5 5 5 5;
                     userAdjustmentFactor := -0.5 |} ]} |}.

Definition cafeStats : PlaceStats :=
  {| totalRatings := 2; avgOverallScore := 4.4;
     byPersonality :=
       {| ofIntrovert := {| avgScore := 4.4; count := 2 |};
          ofAmbivert := {| avgScore := 0; count := 0 |};
          ofExtrovert := {| avgScore := 0; count := 0 |} |};
     avgCategories := mkCategories 1.1 5 5 5 5;
     lastRatedAt := "2024-01-01" |}.

End B64Views.

(** ** Rating service: reading ratings *)

Module RatingViews.
Import JS RatingService Types Firestore RatingStore.

(** [getRatingById]: [null] when there is no such document. *)
Definition getRatingById (ratingId : string) : M (option Rating.t) :=
  docGet ratingsCol ratingId.

(** Whether a factor is on the introvert side of the threshold. *)
Definition isIntrovert (adjustmentFactor : number) : bool :=
  Qle_bool adjustmentFactor (-(2#10)).

(** One category record is at most another, dimension by dimension. *)
Definition categoriesLe (c c' : RatingCategory) : Prop :=
  ∀ key, (getKey key c <= getKey key c')%Q.

End RatingViews.

(** ** Reading the aggregate *)

Module StatsSpec.
Import JS RatingService Types RatingStore.

#[global] Instance Bucket_eq_dec : EqDecision Bucket.
Proof. solve_decision. Defined.

(** The number of ratings whose rater falls in a personality bucket. *)
Definition bucketCount (b : Bucket) (ratings : list Rating.t) : Z :=
  Z.of_nat (length (List.filter
    (λ r, bool_decide (getPersonalityBucket (Rating.userAdjustmentFactor r) = b))
    ratings)).

(** A stored rating whose categories and overall score are on the scale. *)
Definition onScale (r : Rating.t) : Prop :=
  inRange (Rating.categories r) = true ∧ (1 <= Rating.overallScore r <= 10)%Q.

(** A bucket average is 0 for an empty bucket and on the scale otherwise. *)
Definition bucketOnScale (b : BucketStats) : Prop :=
  if (0 <? count b)%Z then (1 <= avgScore b <= 10)%Q
  else count b = 0%Z ∧ avgScore b = 0%Q.

(** A bucket under construction: a non-negative count and a sum of that many
    scores on the scale; untouched while the count is 0. *)
Definition bucketSum (b : BucketStats) : Prop :=
  (0 ≤ count b)%Z ∧
  (inject_Z (count b) * 1 <= avgScore b <= inject_Z (count b) * 10)%Q ∧
  (count b = 0%Z → b = emptyBucket).

End StatsSpec.

(** ** Group service: creating groups and changing membership *)

Module GroupMembers.
Import JS Types Firestore JSArray GroupService.

(** [try { x = await m } catch { }]: a rejection becomes "no value". *)
Definition attempt {A} (m : M A) : M (option A) :=
  λ db, match m db with
        | (db', Ok a) => (db', Ok (Some a))
        | (db', Throw _) => (db', Ok None)
        end.

(** [s || 'Unknown'] on an optional string: missing and empty are falsy. *)
Definition orUnknown (s : option string) : string :=
  match s with
  | Some s => if bool_decide (s = "") then "Unknown" else s
  | None => "Unknown"
  end.

(** The [GroupMember] snapshot taken of a user document. *)
Definition memberProfile (firebaseId : string) (user : User.t) : GroupMember :=
  {| gm_userId := firebaseId;
     gm_displayName := User.displayName user;
     gm_adjustmentFactor := or_default (default 0%Q (User.adjustmentFactor user)) 0;
     gm_personalityType := orUnknown (User.personalityType user) |}.

(** The first loop of [createGroup]: ids that resolve are collected in
    order, ids that do not are skipped. *)
Fixpoint resolveMembers (memberIds : list string) : M (list string) :=
  match memberIds with
  | [] => mret []
  | memberId :: rest =>
      memberData ← attempt (getUserByIdOrDiscordId memberId);
      ids ← resolveMembers rest;
      mret match memberData with
           | Some data => data.1 :: ids
           | None => ids
           end
  end.

(** The second loop of [createGroup]: one profile per id that has a user
    document. *)
Fixpoint collectProfiles (firebaseIds : list string)
    (memberProfiles : gmap string GroupMember) : M (gmap string GroupMember) :=
  match firebaseIds with
  | [] => mret memberProfiles
  | firebaseId :: rest =>
      userDoc ← docGet usersCol firebaseId;
      collectProfiles rest
        match userDoc with
        | Some user => <[firebaseId := memberProfile firebaseId user]> memberProfiles
        | None => memberProfiles
        end
  end.

(** [createGroup]; [newId] is the id that [groupsCol.add] generates. The
    search location, radius, city and community fields, which are stored as
    given and read by no method here, are not part of [Group.t]. *)
Definition createGroup (newId createdBy : string) (memberIds : list string)
    (now : string) : M (string * Group.t) :=
  creatorData ← getUserByIdOrDiscordId createdBy;
  let creatorFirebaseId := creatorData.1 in
  resolved ← resolveMembers memberIds;
  let firebaseMemberIds :=
    if bool_decide (creatorFirebaseId ∈ resolved) then resolved
    else creatorFirebaseId :: resolved in
  memberProfiles ← collectProfiles firebaseMemberIds ∅;
  let groupData :=
    {| Group.createdBy := creatorFirebaseId; Group.createdAt := now;
       Group.members := firebaseMemberIds;
       Group.memberProfiles := memberProfiles;
       Group.recommendedPlaces := []; Group.votes := ∅;
       Group.finalPlace := None; Group.status := active;
       Group.archivedAt := None |} in
  docSet groupsCol newId groupData ;;
  forEachM (λ firebaseId, updateUserGroupStats firebaseId 1) firebaseMemberIds ;;
  mret (newId, groupData).

Definition getGroup (groupId : string) : M (option Group.t) :=
  docGet groupsCol groupId.

(** [FieldValue.arrayUnion(x)]: appended unless already present. *)
Definition arrayUnion (l : list string) (x : string) : list string :=
  if bool_decide (x ∈ l) then l else l ++ [x].

(** [FieldValue.arrayRemove(x)]: every occurrence removed. *)
Definition arrayRemove (l : list string) (x : string) : list string :=
  List.filter (λ y, negb (String.eqb y x)) l.

Definition withMember (firebaseId : string) (profile : GroupMember)
    (g : Group.t) : Group.t :=
  {| Group.createdBy := Group.createdBy g; Group.createdAt := Group.createdAt g;
     Group.members := arrayUnion (Group.members g) firebaseId;
     Group.memberProfiles := <[firebaseId := profile]> (Group.memberProfiles g);
     Group.recommendedPlaces := Group.recommendedPlaces g;
     Group.votes := Group.votes g;
     Group.finalPlace := Group.finalPlace g; Group.status := Group.status g;
     Group.archivedAt := Group.archivedAt g |}.

Definition withoutMember (firebaseId : string) (g : Group.t) : Group.t :=
  {| Group.createdBy := Group.createdBy g; Group.createdAt := Group.createdAt g;
     Group.members := arrayRemove (Group.members g) firebaseId;
     Group.memberProfiles := Group.memberProfiles g;
     Group.recommendedPlaces := Group.recommendedPlaces g;
     Group.votes := Group.votes g;
     Group.finalPlace := Group.finalPlace g; Group.status := Group.status g;
     Group.archivedAt := Group.archivedAt g |}.

(** [update({ votes })]: the whole map is replaced. *)
Definition withVotes (votes : gmap string (list string)) (g : Group.t)
  : Group.t :=
  {| Group.createdBy := Group.createdBy g; Group.createdAt := Group.createdAt g;
     Group.members := Group.members g;
     Group.memberProfiles := Group.memberProfiles g;
     Group.recommendedPlaces := Group.recommendedPlaces g;
     Group.votes := votes;
     Group.finalPlace := Group.finalPlace g; Group.status := Group.status g;
     Group.archivedAt := Group.archivedAt g |}.

Definition addMember (groupId userId : string) : M unit :=
  groupDoc ← docGet groupsCol groupId;
  match groupDoc with
  | None => throw "Group not found"
  | Some group =>
      userData ← getUserByIdOrDiscordId userId;
      let firebaseId := userData.1 in
      let user := userData.2 in
      if bool_decide (firebaseId ∈ Group.members group)
      then throw "User already in group"
      else
        docUpdate groupsCol groupId
          (withMember firebaseId (memberProfile firebaseId user)) ;;
        updateUserGroupStats firebaseId 1
  end.

Definition removeMember (groupId userId : string) : M unit :=
  groupDoc ← docGet groupsCol groupId;
  match groupDoc with
  | None => throw "Group not found"
  | Some group =>
      userData ← getUserByIdOrDiscordId userId;
      let firebaseId := userData.1 in
      if bool_decide (Group.createdBy group = firebaseId)
         && (1 <? length (Group.members group))
      then throw "Creator cannot leave group. Disband the group instead."
      else
        docUpdate groupsCol groupId (withoutMember firebaseId) ;;
        let updatedVotes := delete firebaseId (Group.votes group) in
        docUpdate groupsCol groupId (withVotes updatedVotes)
  end.

(** [getUserActiveGroups]: the id is resolved when it can be and used as it
    is otherwise; the query is [members array-contains id]. *)
Definition getUserActiveGroups (userId : string) : M (list (string * Group.t)) :=
  userData ← attempt (getUserByIdOrDiscordId userId);
  let firebaseId := match userData with Some data => data.1 | None => userId end in
  docQuery groupsCol (λ _ g, bool_decide (firebaseId ∈ Group.members g)).

(** Every stored vote belongs to a current member of its group. *)
Definition votersAreMembers (db : Db) : Prop :=
  ∀ groupId g voter,
    groups db !! groupId = Some g →
    is_Some (Group.votes g !! voter) → voter ∈ Group.members g.

(** The writes of the group service. *)
Inductive GroupOp :=
  | CreateGroup (newId createdBy : string) (memberIds : list string) (now : string)
  | AddMember (groupId userId : string)
  | RemoveMember (groupId userId : string)
  | CastVotes (groupId userId : string) (rankedPlaceIds : list string)
  | FinalizeSelection (groupId placeId placeName : string)
      (location : option LatLng) (now : string)
  | ArchiveGroup (groupId now : string)
  | DisbandGroup (groupId userId now : string).

Definition runGroupOp (op : GroupOp) : M unit :=
  match op with
  | CreateGroup newId createdBy memberIds now =>
      createGroup newId createdBy memberIds now ;; mret tt
  | AddMember groupId userId => addMember groupId userId
  | RemoveMember groupId userId => removeMember groupId userId
  | CastVotes groupId userId rankedPlaceIds =>
      castVotes groupId userId rankedPlaceIds
  | FinalizeSelection groupId placeId placeName location now =>
      finalizeSelection groupId placeId placeName location now
  | ArchiveGroup groupId now => archiveGroup groupId now
  | DisbandGroup groupId userId now => disbandGroup groupId userId now
  end.

(** A sequence of writes, from left to right; a write that rejects leaves
    whatever it had written before rejecting. *)
Definition runGroupOps (ops : list GroupOp) (db : Db) : Db :=
  foldl (λ db op, exec (runGroupOp op) db) db ops.

(** [update({ totalGroupsJoined: n })] on a user document. *)
Definition withGroupsJoined (n : Z) (u : User.t) : User.t :=
  {| User.displayName := User.displayName u;
     User.discordId := User.discordId u;
     User.adjustmentFactor := User.adjustmentFactor u;
     User.personalityType := User.personalityType u;
     User.lastRatedPlaceLocation := User.lastRatedPlaceLocation u;
     User.totalRatingsCount := User.totalRatingsCount u;
     User.totalGroupsJoined := Some n |}.

(** How many times [x] occurs in [l]. *)
Definition occurrences (x : string) (l : list string) : Z :=
  Z.of_nat (length (List.filter (String.eqb x) l)).

(** A user document after [n] calls of [updateUserGroupStats] with the
    same increment. *)
Definition statsBumped (n increment : Z) (u : User.t) : User.t :=
  if (n =? 0)%Z then u
  else withGroupsJoined (default 0 (User.totalGroupsJoined u) + n * increment)%Z u.

(** The ids that [createGroup] resolves, in order, and the members it
    stores: the creator is put in front unless already among them. *)
Definition resolvedIds (memberIds : list string) (db : Db) : list string :=
  omap (λ memberId,
          match outcome (getUserByIdOrDiscordId memberId) db with
          | Ok data => Some data.1
          | Throw _ => None
          end) memberIds.

End GroupMembers.

(** ** The feed: what its counts count *)

Module FeedSpec.
Import JS RatingService Types Firestore RatingStore Aggregates Explore.

(** The place has at least one stored rating. *)
Definition hasRatings (db : Db) (place : NearbyPlace) : bool :=
  match placeRatings db (np_id place) with
  | [] => false
  | _ :: _ => true
  end.

(** Every stored rating of the place has its five categories on the scale. *)
Definition ratedOnScale (db : Db) (placeId : string) : Prop :=
  ∀ r, r ∈ placeRatings db placeId → inRange (Rating.categories r) = true.

End FeedSpec.

(** ** The Discord bot's vote menus ([commands/group.ts], [handleVoteSelect]) *)

Module BotVoting.
Import JS Types JSArray GroupService Bot.

(** An option of a select menu; the description and the emoji, which are
    display only, are left out. *)
Record MenuOption := { label : string; value : string }.

(** What the handler answers the interaction with. *)
Inductive Update :=
  | NextChoice (nextStep : nat) (options : list MenuOption)
  | Recorded (allVoted : bool).

Definition withSessionVotes (votes : JSMap (list string))
    (session : GroupSession) : GroupSession :=
  {| groupId := groupId session; members := members session;
     recommendations := recommendations session; sessionVotes := votes |}.

(** [handleVoteSelect] on the session of the channel: [userId] is
    [interaction.user.id], [placeId] is [interaction.values[0]] and
    [currentStep] the number that ends the menu's custom id. [allVoted] tells
    whether [finalizeVoting] is called. *)
Definition handleVoteSelect (userId placeId : string) (currentStep : nat)
    (session : GroupSession) : GroupSession * Update :=
  let votes0 :=
    match Map_get (sessionVotes session) userId with
    | Some _ => sessionVotes session
    | None => Map_set (sessionVotes session) userId []
    end in
  let userVotes := default [] (Map_get votes0 userId) ++ [placeId] in
  let votes1 := Map_set votes0 userId userVotes in
  let session' := withSessionVotes votes1 session in
  if currentStep <? 3 then
    let nextStep := currentStep + 1 in
    (session',
     NextChoice nextStep
       ((λ rec, {| label := rp_placeName rec; value := rp_placeId rec |}) <$>
        List.filter (λ rec, negb (bool_decide (rp_placeId rec ∈ userVotes)))
          (take 3 (recommendations session))))
  else
    (session', Recorded (length votes1 =? length (members session))).

End BotVoting.

(** ** Places near a point ([getNearbyPlaces]) *)

Module Nearby.
Import JS RatingService Types Firestore JSArray RatingStore.

Section Distance.

(** [haversineDistance], whose trigonometry is left uninterpreted. *)
Variable haversineDistance : number → number → number → number → number.

Definition distanceTo (lat0 lng0 : number) (place : Place.t) : number :=
  haversineDistance lat0 lng0
    (lat (Place.location place)) (lng (Place.location place)).

(** [getNearbyPlaces]. [algoliaHits] is what the Algolia search answered,
    as places; it is [None] when Algolia is not configured or the search
    failed, and the method then filters and sorts the stored places itself. *)
Definition getNearbyPlaces (algoliaHits : option (list Place.t))
    (lat0 lng0 radiusKm : number) : M (list Place.t) :=
  match algoliaHits with
  | Some hits => mret hits
  | None =>
      snapshot ← docQuery placesCol (λ _ _, true);
      mret (Array_sort
              (λ a b, (distanceTo lat0 lng0 a - distanceTo lat0 lng0 b)%Q)
              (List.filter
                 (λ place, Qle_bool (distanceTo lat0 lng0 place) radiusKm)
                 snapshot.*2))
  end.

End Distance.

End Nearby.

(** ** Voting results: what an entry holds *)

Module ResultsSpec.
Import JS Types Firestore JSArray GroupService.


End ResultsSpec.

(** * Properties *)

Module RatingFacts.
Import JS RatingService.

Lemma Math_round_mono (x y : number) :
  (x <= y)%Q → (Math_round x <= Math_round y)%Q.
Proof.
  intros Hxy. unfold Math_round. rewrite <- Zle_Qle.
  apply Qfloor_resp_le. lra.
Qed.

Lemma Math_round_Z (n : Z) : Math_round (inject_Z n) = inject_Z n.
Proof.
  unfold Math_round. f_equal.
  assert (Hlo : (n <= Qfloor (inject_Z n + (1#2)))%Z).
  { rewrite <- (Qfloor_Z n) at 1. apply Qfloor_resp_le. lra. }
  assert (Hhi : (Qfloor (inject_Z n + (1#2)) < n + 1)%Z).
  { rewrite Zlt_Qlt. eapply Qle_lt_trans; [apply Qfloor_le|].
    rewrite inject_Z_plus. change (inject_Z 1) with 1%Q. lra. }
  lia.
Qed.


Lemma invert_twice (v : number) : (11 - (11 - v))%Q = v.
Proof.
  destruct v as [n d]. unfold Qminus, Qplus, Qopp; simpl.
  f_equal; lia.
Qed.

Lemma invertSensitive_involutive (c : RatingCategory) :
  invertSensitive (invertSensitive c) = c.
Proof.
  destruct c as [cs nl se sv at']. unfold invertSensitive; simpl.
  by rewrite !invert_twice.
Qed.

Lemma inRange_spec (c : RatingCategory) :
  inRange c = true ↔ ∀ key, (1 <= getKey key c <= 10)%Q.
Proof.
  unfold inRange. rewrite forallb_forall. split.
  - intros H key. specialize (H key).
    rewrite andb_true_iff, !Qle_bool_iff in H. apply H.
    destruct key; simpl; tauto.
  - intros H key _. rewrite andb_true_iff, !Qle_bool_iff. apply H.
Qed.

Lemma invertSensitive_inRange (c : RatingCategory) :
  inRange c = true → inRange (invertSensitive c) = true.
Proof.
  rewrite !inRange_spec. intros Hc key.
  pose proof (Hc KCrowdSize) as H1. pose proof (Hc KNoiseLevel) as H2.
  pose proof (Hc KSocialEnergy) as H3. pose proof (Hc KService) as H4.
  pose proof (Hc KAtmosphere) as H5.
  destruct c as [cs nl se sv at']; simpl in *.
  destruct key; unfold invertSensitive; simpl; lra.
Qed.

Lemma adjust_inRange (c : RatingCategory) (af : number) :
  inRange c = true → inRange (adjustCategoriesForPersonality c af) = true.
Proof.
  intros Hc. unfold adjustCategoriesForPersonality.
  destruct (Qle_bool af _); [by apply invertSensitive_inRange | done].
Qed.

Lemma weighted_inRange (c : RatingCategory) :
  inRange c = true → (1 <= weighted c <= 10)%Q.
Proof.
  rewrite inRange_spec. intros Hc.
  pose proof (Hc KCrowdSize) as H1. pose proof (Hc KNoiseLevel) as H2.
  pose proof (Hc KSocialEnergy) as H3. pose proof (Hc KService) as H4.
  pose proof (Hc KAtmosphere) as H5.
  destruct c as [cs nl se sv at']; unfold weighted; simpl in *. lra.
Qed.

(** Rounding to one decimal keeps a value of [[1,10]] in [[1,10]]. *)
Lemma round1_inRange (w : number) :
  (1 <= w <= 10)%Q → (1 <= Math_round (w * 10) / 10 <= 10)%Q.
Proof.
  intros [Hlo Hhi].
  assert (H10 : (inject_Z 10 <= Math_round (w * 10))%Q).
  { rewrite <- (Math_round_Z 10). apply Math_round_mono.
    change (inject_Z 10) with 10%Q. lra. }
  assert (H100 : (Math_round (w * 10) <= inject_Z 100)%Q).
  { rewrite <- (Math_round_Z 100). apply Math_round_mono.
    change (inject_Z 100) with 100%Q. lra. }
  change (inject_Z 10) with 10%Q in H10.
  change (inject_Z 100) with 100%Q in H100.
  set (r := Math_round (w * 10)%Q) in *.
  split.
  - apply Qle_shift_div_l; lra.
  - apply Qle_shift_div_r; lra.
Qed.

Lemma roundtrip_same_factor (c : RatingCategory) (af : number) :
  adjustCategoriesForPersonality (normalizeCategoriesToObjective c af) af = c.
Proof.
  unfold adjustCategoriesForPersonality, normalizeCategoriesToObjective.
  destruct (Qle_bool af _); [apply invertSensitive_involutive | done].
Qed.

End RatingFacts.


(** ** Place aggregates follow the rating set *)

Module AggregateFacts.
Import JS RatingService Types Firestore RatingStore Aggregates.

Lemma elem_of_placeRatings (db : Db) (p : string) (r : Rating.t) :
  r ∈ placeRatings db p ↔
  ∃ id, ratings db !! id = Some r ∧ Rating.placeId r = p.
Proof.
  unfold placeRatings. rewrite list_elem_of_fmap. split.
  - intros [[id r'] [-> Hin]]. rewrite list_elem_of_In, filter_In in Hin.
    destruct Hin as [Hin Hp]. simpl in *.
    apply String.eqb_eq in Hp.
    rewrite <- list_elem_of_In, elem_of_map_to_list in Hin. eauto.
  - intros (id & Hid & Hp). exists (id, r). split; [done|].
    rewrite list_elem_of_In, filter_In. split.
    + by rewrite <- list_elem_of_In, elem_of_map_to_list.
    + simpl. by apply String.eqb_eq.
Qed.

Lemma elem_of_ratedPlaces (db : Db) (p : string) :
  p ∈ ratedPlaces db ↔
  ∃ id r, ratings db !! id = Some r ∧ Rating.placeId r = p.
Proof.
  unfold ratedPlaces. rewrite elem_of_list_to_set, list_elem_of_fmap. split.
  - intros (r & -> & Hr). rewrite list_elem_of_fmap in Hr.
    destruct Hr as ([id r'] & -> & Hin).
    rewrite elem_of_map_to_list in Hin. eauto.
  - intros (id & r & Hid & <-). exists r. split; [done|].
    rewrite list_elem_of_fmap. exists (id, r). split; [done|].
    by rewrite elem_of_map_to_list.
Qed.

Lemma placeRatings_nonempty (db : Db) (p : string) :
  placeRatings db p ≠ [] ↔ p ∈ ratedPlaces db.
Proof.
  rewrite elem_of_ratedPlaces. split.
  - destruct (placeRatings db p) as [|r l] eqn:E; [done|]. intros _.
    assert (Hr : r ∈ placeRatings db p) by (rewrite E; left).
    apply elem_of_placeRatings in Hr as (id & Hid & Hp). eauto.
  - intros (id & r & Hid & Hp) E.
    assert (Hr : r ∈ placeRatings db p) by (apply elem_of_placeRatings; eauto).
    rewrite E in Hr. by apply elem_of_nil in Hr.
Qed.

Lemma aggregateInvariant_spec (db : Db) :
  aggregateInvariant db ↔
  ∀ p, is_Some (places db !! p) ↔
       ∃ id r, ratings db !! id = Some r ∧ Rating.placeId r = p.
Proof.
  unfold aggregateInvariant. rewrite set_eq.
  by setoid_rewrite elem_of_dom; setoid_rewrite elem_of_ratedPlaces.
Qed.

Ltac run_method :=
  unfold exec, outcome, mbind, M_bind, mret, M_ret, throw, docGet, docSet,
    docUpdate, docDelete, docQuery, catchIgnore; simpl.

Lemma getPlaceRatings_run (p : string) (db : Db) :
  getPlaceRatings p db = (db, Ok (placeRatings db p)).
Proof. reflexivity. Qed.

(** [placeRatings] reads the ratings collection only. *)
Lemma placeRatings_ext (db1 db2 : Db) (p : string) :
  ratings db1 = ratings db2 → placeRatings db1 p = placeRatings db2 p.
Proof. unfold placeRatings. by intros ->. Qed.

Lemma updatePlaceStats_run
    (p pn pa : string) (loc : LatLng) (os : number) (c : RatingCategory)
    (af : number) (pt now : string) (db : Db) :
  ∃ place,
    Place.stats place = calculatePlaceStats now (placeRatings db p) ∧
    updatePlaceStats p pn pa loc os c af pt now db =
      (withDocs placesCol (<[p := place]> (places db)) db, Ok tt).
Proof.
  unfold updatePlaceStats. run_method.
  destruct (places db !! p) as [pl|] eqn:E; run_method; rewrite ?E;
    eexists; split; [| reflexivity | | reflexivity]; reflexivity.
Qed.

Lemma recalculatePlaceStats_run (p now : string) (db : Db) :
  recalculatePlaceStats p now db =
    match placeRatings db p, places db !! p with
    | [], _ => (withDocs placesCol (delete p (places db)) db, Ok tt)
    | _ :: _, Some pl =>
        (withDocs placesCol
           (<[p := withStats (calculatePlaceStats now (placeRatings db p)) now pl]>
              (places db)) db, Ok tt)
    | _ :: _, None => (db, Throw "NOT_FOUND: no document to update")
    end.
Proof.
  unfold recalculatePlaceStats. run_method.
  fold (placeRatings db p).
  destruct (placeRatings db p) as [|r l]; [reflexivity|].
  run_method. destruct (places db !! p); reflexivity.
Qed.

Lemma updateUserRatingStats_frame (u : string) (loc : LatLng) (db : Db) :
  ratings (exec (updateUserRatingStats u loc) db) = ratings db ∧
  places (exec (updateUserRatingStats u loc) db) = places db.
Proof.
  unfold updateUserRatingStats. run_method.
  destruct (users db !! u) as [user|] eqn:E; run_method; rewrite ?E; done.
Qed.

Lemma exec_bind_ok {A B} (m : M A) (f : A → M B) (db db1 : Db) (a : A) :
  m db = (db1, Ok a) → exec (m ≫= f) db = exec (f a) db1.
Proof. unfold exec, mbind, M_bind. by intros ->. Qed.

Lemma exec_bind_throw {A B} (m : M A) (f : A → M B) (db db1 : Db) (e : string) :
  m db = (db1, Throw e) → exec (m ≫= f) db = db1.
Proof. unfold exec, mbind, M_bind. by intros ->. Qed.

Lemma exec_ret {A} (a : A) (db : Db) : exec (mret a) db = db.
Proof. reflexivity. Qed.

Lemma exec_throw {A} (e : string) (db : Db) : exec (throw (A:=A) e) db = db.
Proof. reflexivity. Qed.

Lemma exec_then_ret {A B} (m : M A) (b : B) (db : Db) :
  exec (m ;; mret b) db = exec m db.
Proof. unfold exec, mbind, M_bind. by destruct (m db) as [db1 [a|e]]. Qed.

Lemma sync_run (algolia : bool) (place : Place.t) (db : Db) :
  ∃ res, syncPlaceToAlgolia algolia place db = (db, res).
Proof. unfold syncPlaceToAlgolia. destruct algolia; by eexists. Qed.

Lemma deleteFromAlgolia_run (algolia : bool) (p : string) (db : Db) :
  ∃ res, deletePlaceFromAlgolia algolia p db = (db, res).
Proof. unfold deletePlaceFromAlgolia. destruct algolia; by eexists. Qed.

Section Effects.
Context (algolia : bool).

Lemma createRating_effect
    (newId userId p pn pa : string) (loc : LatLng) (c : RatingCategory)
    (comment : string) (af : number) (pt now : string) (db db' : Db) :
  db' = exec (runOp algolia
           (CreateRating newId userId p pn pa loc c comment af pt now)) db →
  ∃ r place,
    Rating.placeId r = p ∧
    ratings db' = <[newId := r]> (ratings db) ∧
    places db' = <[p := place]> (places db) ∧
    Place.stats place = calculatePlaceStats now (placeRatings db' p).
Proof.
  intros ->. cbn [runOp]. rewrite exec_then_ret. unfold createRating.
  set (r := {| Rating.userId := userId; Rating.placeId := p |}).
  set (db1 := withDocs ratingsCol (<[newId := r]> (ratings db)) db).
  destruct (updatePlaceStats_run p pn pa loc
              (calculateOverallScore c af) c af pt now db1)
    as (place & Hstats & Hrun).
  set (db2 := withDocs placesCol (<[p := place]> (places db1)) db1) in Hrun.
  exists r, place.
  assert (Hgoal : ∀ dbf : Db,
            ratings dbf = ratings db1 → places dbf = places db2 →
            Rating.placeId r = p ∧ ratings dbf = <[newId := r]> (ratings db) ∧
            places dbf = <[p := place]> (places db) ∧
            Place.stats place = calculatePlaceStats now (placeRatings dbf p)).
  { intros dbf Hr Hp. repeat split; [done..|].
    rewrite Hstats. f_equal. symmetry. by apply placeRatings_ext. }
  erewrite (exec_bind_ok (docSet _ _ _)) by reflexivity. fold db1.
  erewrite exec_bind_ok by exact Hrun.
  erewrite (exec_bind_ok (docGet _ _)) by reflexivity.
  replace (docs placesCol db2 !! p) with (Some place)
    by (symmetry; apply lookup_insert_eq).
  destruct (sync_run algolia place db2) as [[[]|e] Hsync].
  - erewrite exec_bind_ok by exact Hsync. rewrite exec_then_ret.
    destruct (updateUserRatingStats_frame userId loc db2) as [H1 H2].
    apply Hgoal; [by rewrite H1 | by rewrite H2].
  - erewrite exec_bind_throw by exact Hsync. by apply Hgoal.
Qed.

Lemma deleteRating_effect (id now : string) (r : Rating.t) (db db' : Db) :
  db' = exec (runOp algolia (DeleteRating id now)) db →
  ratings db !! id = Some r →
  ratings db' = delete id (ratings db) ∧
  places db' =
    match placeRatings db' (Rating.placeId r), places db !! Rating.placeId r with
    | [], _ => delete (Rating.placeId r) (places db)
    | _ :: _, Some pl =>
        <[Rating.placeId r :=
            withStats (calculatePlaceStats now
                         (placeRatings db' (Rating.placeId r))) now pl]>
          (places db)
    | _ :: _, None => places db
    end.
Proof.
  intros -> Hr. cbn [runOp]. unfold deleteRating.
  erewrite (exec_bind_ok (docGet _ _)) by reflexivity.
  replace (docs ratingsCol db !! id) with (Some r) by done.
  erewrite (exec_bind_ok (docDelete _ _)) by reflexivity.
  set (db1 := withDocs ratingsCol (delete id (docs ratingsCol db)) db).
  set (p := Rating.placeId r).
  assert (Hgoal : ∀ dbf : Db,
    ratings dbf = ratings db1 →
    places dbf = match placeRatings db1 p, places db !! p with
                 | [], _ => delete p (places db)
                 | _ :: _, Some pl =>
                     <[p := withStats (calculatePlaceStats now (placeRatings db1 p))
                              now pl]> (places db)
                 | _ :: _, None => places db
                 end →
    ratings dbf = delete id (ratings db) ∧
    places dbf = match placeRatings dbf p, places db !! p with
                 | [], _ => delete p (places db)
                 | _ :: _, Some pl =>
                     <[p := withStats (calculatePlaceStats now (placeRatings dbf p))
                              now pl]> (places db)
                 | _ :: _, None => places db
                 end).
  { intros dbf Hrs Hps. split; [done|].
    by rewrite (placeRatings_ext dbf db1 p Hrs). }
  pose proof (recalculatePlaceStats_run p now db1) as Hrun.
  change (places db1) with (places db) in Hrun.
  destruct (placeRatings db1 p) as [|r0 l] eqn:El.
  - erewrite exec_bind_ok by exact Hrun.
    erewrite (exec_bind_ok (docGet _ _)) by reflexivity.
    set (db2 := withDocs placesCol _ db1).
    replace (docs placesCol db2 !! p) with (@None Place.t)
      by (symmetry; apply lookup_delete_eq).
    unfold exec.
    destruct (deleteFromAlgolia_run algolia p db2) as [res ->].
    cbn [fst]. by apply (Hgoal db2).
  - destruct (places db !! p) as [pl|] eqn:Ep.
    + erewrite exec_bind_ok by exact Hrun.
      erewrite (exec_bind_ok (docGet _ _)) by reflexivity.
      set (db2 := withDocs placesCol _ db1).
      set (pl' := withStats _ now pl) in *.
      replace (docs placesCol db2 !! p) with (Some pl')
        by (symmetry; apply lookup_insert_eq).
      unfold exec.
      destruct (sync_run algolia pl' db2) as [res ->].
      cbn [fst]. by apply (Hgoal db2).
    + erewrite exec_bind_throw by exact Hrun.
      by apply (Hgoal db1).
Qed.

Lemma updateRating_effect (id now : string) (u : RatingUpdates) (db db' : Db) :
  db' = exec (runOp algolia (UpdateRating id u now)) db →
  match ratings db !! id with
  | None => db' = db
  | Some r =>
      ∃ r', Rating.placeId r' = default (Rating.placeId r) (u_placeId u) ∧
            ratings db' = <[id := r']> (ratings db) ∧
            if statsAffected u
            then ∃ place,
                   places db' = <[Rating.placeId r := place]> (places db) ∧
                   Place.stats place =
                     calculatePlaceStats now (placeRatings db' (Rating.placeId r))
            else places db' = places db
  end.
Proof.
  intros ->. cbn [runOp]. unfold updateRating.
  erewrite (exec_bind_ok (docGet _ _)) by reflexivity.
  change (docs ratingsCol db) with (ratings db).
  destruct (ratings db !! id) as [r|] eqn:Hr; [|done].
  match goal with |- context [docUpdate ratingsCol id ?g] => set (f := g) end.
  assert (Hupd : docUpdate ratingsCol id f db =
                 (withDocs ratingsCol (<[id := f r]> (ratings db)) db, Ok tt)).
  { unfold docUpdate. change (docs ratingsCol db) with (ratings db).
    by rewrite Hr. }
  erewrite exec_bind_ok by exact Hupd.
  set (db1 := withDocs ratingsCol _ db).
  exists (f r). split; [done|].
  destruct (statsAffected u).
  - match goal with |- context [updatePlaceStats ?a ?b ?c ?d ?e ?g ?h ?i ?j] =>
      destruct (updatePlaceStats_run a b c d e g h i j db1)
        as (place & Hstats & Hrun) end.
    unfold exec. rewrite Hrun. cbn [fst]. split; [done|].
    exists place. split; [done|]. by rewrite Hstats.
  - by rewrite exec_ret.
Qed.

End Effects.

Lemma ratingOp_preserves_invariant (algolia : bool) (db : Db) (op : RatingOp) :
  aggregateInvariant db → freshId db op → keepsPlace db op →
  aggregateInvariant (exec (runOp algolia op) db).
Proof.
  rewrite !aggregateInvariant_spec. intros Hinv Hfresh Hkeeps.
  set (db' := exec (runOp algolia op) db).
  assert (Hdb' : db' = exec (runOp algolia op) db) by done.
  clearbody db'. intros q. destruct op as [newId uid p pn pa loc c cm af pt now
                                           | id u now | id now ].
  - apply (createRating_effect algolia) in Hdb' as (r & place & Hp & -> & -> & _).
    simpl in Hfresh. rewrite lookup_insert. case_decide as Hq.
    + subst q. split; [|by eauto]. intros _. exists newId, r.
      by rewrite lookup_insert_eq.
    + rewrite Hinv. split.
      * intros (id0 & r0 & H0 & Hq0). exists id0, r0. split; [|done].
        rewrite lookup_insert_ne; [done|]. congruence.
      * intros (id0 & r0 & H0 & Hq0). rewrite lookup_insert in H0.
        case_decide; [congruence|]. eauto.
  - apply (updateRating_effect algolia) in Hdb'.
    destruct (ratings db !! id) as [r|] eqn:Hr; [|by subst db'].
    destruct Hdb' as (r' & Hp' & -> & Hplaces).
    assert (Hsame : Rating.placeId r' = Rating.placeId r).
    { rewrite Hp'. destruct (u_placeId u) as [p|] eqn:Hp; [|done].
      simpl. by apply (Hkeeps r p). }
    clear Hp'. rename Hsame into Hp'.
    assert (Hsome : is_Some (places db !! Rating.placeId r))
      by (apply Hinv; eauto).
    assert (Hdom : is_Some (places db' !! q) ↔ is_Some (places db !! q)).
    { destruct (statsAffected u).
      - destruct Hplaces as (place & -> & _). rewrite lookup_insert.
        case_decide; [by subst q|done].
      - by rewrite Hplaces. }
    rewrite Hdom, Hinv. split.
    + intros (id0 & r0 & H0 & Hq0). destruct (decide (id0 = id)) as [->|Hne].
      * exists id, r'. rewrite lookup_insert_eq. split; [done|]. congruence.
      * exists id0, r0. by rewrite lookup_insert_ne.
    + intros (id0 & r0 & H0 & Hq0). rewrite lookup_insert in H0.
      case_decide as Hid.
      * subst id0. exists id, r. split; [done|]. congruence.
      * eauto.
  - destruct (ratings db !! id) as [r|] eqn:Hr.
    + pose proof (deleteRating_effect algolia id now r db db' Hdb' Hr)
        as [Hrs Hps].
      set (p := Rating.placeId r) in *.
      assert (Hrest : ∀ q', q' ≠ p →
                (∃ id0 r0, ratings db' !! id0 = Some r0 ∧ Rating.placeId r0 = q') ↔
                (∃ id0 r0, ratings db !! id0 = Some r0 ∧ Rating.placeId r0 = q')).
      { intros q' Hq'. rewrite Hrs. split.
        - intros (id0 & r0 & H0 & Hq0). rewrite lookup_delete in H0.
          case_decide; [done|]. eauto.
        - intros (id0 & r0 & H0 & Hq0). exists id0, r0. split; [|done].
          rewrite lookup_delete_ne; [done|]. intros ->.
          rewrite Hr in H0. injection H0 as <-. by apply Hq'. }
      assert (Hp : placeRatings db' p ≠ [] ↔
                ∃ id0 r0, ratings db' !! id0 = Some r0 ∧ Rating.placeId r0 = p)
        by (by rewrite placeRatings_nonempty, elem_of_ratedPlaces).
      destruct (decide (q = p)) as [->|Hq].
      * rewrite <- Hp, Hps. destruct (placeRatings db' p) as [|r0 l].
        -- rewrite lookup_delete_eq. split; [by intros [? ?]|done].
        -- destruct (Hinv p) as [_ Hex].
           destruct Hex as [pl Hpl]; [by eauto|]. rewrite Hpl.
           rewrite lookup_insert_eq. split; [done|by eauto].
      * rewrite (Hrest q Hq), <- Hinv, Hps.
        destruct (placeRatings db' p) as [|r0 l].
        -- by rewrite lookup_delete_ne.
        -- destruct (places db !! p); [by rewrite lookup_insert_ne|done].
    + assert (db' = db) as ->; [|by apply Hinv].
      rewrite Hdb'. cbn [runOp]. unfold deleteRating.
      erewrite (exec_bind_ok (docGet _ _)) by reflexivity.
      change (docs ratingsCol db) with (ratings db). by rewrite Hr.
Qed.


End AggregateFacts.
Module AggregateClaims.
Import JS RatingService Types Firestore RatingStore Aggregates AggregateFacts.
Import Examples.

(** C2, as stated, fails for updates.  From the database in which Ana's
    rating "r1" is the only rating of the café:
    - an update of "r1" that carries only a comment recomputes nothing: the
      places collection stays as it is, with the time of the last
      recomputation;
    - an update that carries [overallScore: 0] leaves the stored average at
      6.1 while the average of the current rating set is 0;
    - an update that carries [placeId: "bar"] leaves a rating referencing
      "bar" with no aggregate for "bar", and the aggregate of the café with
      no rating referencing the café;
    - an update that carries [placeId: "bar"] and categories stores for the
      café, which no rating references any more, a zeroed record. *)
Lemma update_leaves_aggregate_behind :
  aggregateInvariant oneRating ∧
  (let db' := exec (runOp false (UpdateRating "r1" (newComment "busy") "2024-02-01"))
                   oneRating in
   places db' = places oneRating ∧
   ∃ place,
     places db' !! "cafe" = Some place ∧
     PlaceStats.lastRatedAt (Place.stats place) = "2024-01-01" ∧
     PlaceStats.lastRatedAt
       (calculatePlaceStats "2024-02-01" (placeRatings db' "cafe")) = "2024-02-01") ∧
  (let db' := exec (runOp false (UpdateRating "r1" (newOverallScore 0) "2024-02-01"))
                   oneRating in
   ∃ r place,
     placeRatings db' "cafe" = [r] ∧ Rating.overallScore r = 0%Q ∧
     places db' !! "cafe" = Some place ∧
     PlaceStats.avgOverallScore (Place.stats place) = (61 # 10)%Q ∧
     (PlaceStats.avgOverallScore
        (calculatePlaceStats "2024-02-01" (placeRatings db' "cafe")) == 0)%Q ∧
     ∀ now, Place.stats place ≠ calculatePlaceStats now (placeRatings db' "cafe")) ∧
  (let db' := exec (runOp false (UpdateRating "r1" (newPlace "bar") "2024-02-01"))
                   oneRating in
   placeRatings db' "bar" ≠ [] ∧ places db' !! "bar" = None ∧
   placeRatings db' "cafe" = [] ∧ is_Some (places db' !! "cafe") ∧
   ¬ aggregateInvariant db') ∧
  (let db' := exec (runOp false
                      (UpdateRating "r1"
                         (newPlaceAndCategories "bar" scenarioCategories)
                         "2024-02-01")) oneRating in
   placeRatings db' "cafe" = [] ∧
   ∃ place,
     places db' !! "cafe" = Some place ∧
     Place.stats place = calculatePlaceStats "2024-02-01" [] ∧
     PlaceStats.totalRatings (Place.stats place) = 0%Z).
Proof.
  split; [by vm_compute|]. split; [|split; [|split]]; cbv zeta.
  - split; [by vm_compute|]. eexists. split; [by vm_compute|].
    split; by vm_compute.
  - eexists _, _. split; [by vm_compute|]. split; [by vm_compute|].
    split; [by vm_compute|]. split; [by vm_compute|]. split; [by vm_compute|].
    intros now H. apply (f_equal PlaceStats.avgOverallScore) in H.
    vm_compute in H. discriminate H.
  - split; [by vm_compute|]. split; [by vm_compute|].
    split; [by vm_compute|]. split; [vm_compute; eauto|].
    intros H. apply (f_equal (λ s, bool_decide ("bar" ∈ s))) in H.
    vm_compute in H. discriminate H.
  - split; [by vm_compute|]. eexists. split; [by vm_compute|].
    split; by vm_compute.
Qed.

(** C2, amended.  Starting from a database in which a place aggregate is
    stored exactly for the places that ratings reference, every create and
    delete of a rating, and every update that leaves the rating at its
    place, leaves a database with the same property: an aggregate exists for
    a place iff its rating set is non-empty.  A create stores for the rated
    place the aggregate calculated from the full rating set that is current
    after the write; so does an update that carries categories or an overall
    score other than 0, for the place of the rating; a delete does so while
    ratings of the place remain, and removes the aggregate document of the
    place with the last rating. *)
Theorem place_aggregate_iff_rated (algolia : bool) (db : Db) (op : RatingOp) :
  aggregateInvariant db → freshId db op → keepsPlace db op →
  let db' := exec (runOp algolia op) db in
  aggregateInvariant db' ∧
  (∀ p, is_Some (places db' !! p) ↔ placeRatings db' p ≠ []) ∧
  match op with
  | CreateRating _ _ p _ _ _ _ _ _ _ now =>
      ∃ place, places db' !! p = Some place ∧
               Place.stats place = calculatePlaceStats now (placeRatings db' p)
  | UpdateRating ratingId updates now =>
      ∀ r, ratings db !! ratingId = Some r →
           is_Some (u_categories updates) ∨
           (∃ s, u_overallScore updates = Some s ∧ ¬ (s == 0)%Q) →
           ∃ place,
             places db' !! Rating.placeId r = Some place ∧
             Place.stats place =
               calculatePlaceStats now (placeRatings db' (Rating.placeId r))
  | DeleteRating ratingId now =>
      ∀ r, ratings db !! ratingId = Some r →
           match placeRatings db' (Rating.placeId r) with
           | [] => places db' !! Rating.placeId r = None
           | _ => ∃ place,
                    places db' !! Rating.placeId r = Some place ∧
                    Place.stats place =
                      calculatePlaceStats now
                        (placeRatings db' (Rating.placeId r))
           end
  end.
Proof.
  intros Hinv Hfresh Hkeeps db'.
  assert (Hinv' : aggregateInvariant db')
    by by apply ratingOp_preserves_invariant.
  assert (Hiff : ∀ p, is_Some (places db' !! p) ↔ placeRatings db' p ≠ []).
  { intros p. rewrite placeRatings_nonempty, <- Hinv'. by rewrite elem_of_dom. }
  split; [done|]. split; [done|].
  assert (Hdb' : db' = exec (runOp algolia op) db) by done. clearbody db'.
  destruct op as [newId uid p0 pn pa loc c cm af pt now0 | id u now0 | id now0].
  - apply (createRating_effect algolia) in Hdb'
      as (r & place & _ & _ & Hps & Hstats).
    exists place. split; [|done]. by rewrite Hps, lookup_insert_eq.
  - intros r Hr Hcarries.
    apply (updateRating_effect algolia) in Hdb'. rewrite Hr in Hdb'.
    destruct Hdb' as (r' & _ & _ & Hps).
    assert (Haff : statsAffected u = true).
    { unfold statsAffected.
      destruct Hcarries as [[c Hc] | (s & Hs & Hnz)]; [by rewrite Hc|].
      rewrite Hs. destruct (u_categories u); [done|].
      unfold truthy. apply negb_true_iff, not_true_iff_false.
      intros Hz. by apply Hnz, Qeq_bool_iff. }
    rewrite Haff in Hps. destruct Hps as (place & Hps & Hstats).
    exists place. split; [|done]. by rewrite Hps, lookup_insert_eq.
  - intros r Hr.
    destruct (deleteRating_effect algolia id now0 r db db' Hdb' Hr) as [_ Hps].
    pose proof (Hiff (Rating.placeId r)) as Hp.
    destruct (placeRatings db' (Rating.placeId r)) as [|r0 l] eqn:Hl.
    + by rewrite Hps, lookup_delete_eq.
    + destruct (places db !! Rating.placeId r) as [pl|] eqn:Hpl.
      * eexists. rewrite Hps, lookup_insert_eq. split; [done|]. done.
      * exfalso. rewrite Hps in Hp. destruct (proj2 Hp) as [x Hx]; [done|].
        rewrite Hpl in Hx. congruence.
Qed.

Lemma place_aggregate_iff_rated_witness :
  aggregateInvariant oneRating ∧
  freshId oneRating (DeleteRating "r1" "2024-02-01") ∧
  keepsPlace oneRating (DeleteRating "r1" "2024-02-01") ∧
  places oneRating !! "cafe" ≠ None ∧
  places (exec (runOp false (DeleteRating "r1" "2024-02-01")) oneRating) !! "cafe"
    = None.
Proof.
  assert (Hinv : aggregateInvariant oneRating) by (by vm_compute).
  assert (Hfresh : freshId oneRating (DeleteRating "r1" "2024-02-01")) by exact I.
  assert (Hkeeps : keepsPlace oneRating (DeleteRating "r1" "2024-02-01"))
    by exact I.
  split; [exact Hinv|]. split; [exact Hfresh|]. split; [exact Hkeeps|].
  split; [by vm_compute|].
  pose proof (place_aggregate_iff_rated false oneRating
                (DeleteRating "r1" "2024-02-01") Hinv Hfresh Hkeeps)
    as (_ & _ & H).
  exact (H (default (Rating.Build_t "" 0 "" "cafe" "" "" downtown
                       scenarioCategories 0 "" "" "")
                    (ratings oneRating !! "r1")) eq_refl).
Defined.

End AggregateClaims.

(** ** Group service: votes and status *)

Module GroupFacts.
Import JS Types Firestore JSArray GroupService AggregateFacts.

Lemma outcome_bind_ok {A B} (m : M A) (f : A → M B) (db db1 : Db) (a : A) :
  m db = (db1, Ok a) → (m ≫= f) db = f a db1.
Proof. unfold mbind, M_bind. by intros ->. Qed.

Lemma outcome_bind_throw {A B} (m : M A) (f : A → M B) (db db1 : Db) (e : string) :
  m db = (db1, Throw e) → (m ≫= f) db = (db1, Throw e).
Proof. unfold mbind, M_bind. by intros ->. Qed.

(** Resolving a user id reads the database and leaves it as it is. *)
Lemma getUser_run (userId : string) (db : Db) :
  getUserByIdOrDiscordId userId db =
    (db, outcome (getUserByIdOrDiscordId userId) db).
Proof.
  unfold outcome, getUserByIdOrDiscordId.
  erewrite (outcome_bind_ok (docGet _ _)) by reflexivity.
  destruct (docs usersCol db !! userId); [done|].
  erewrite (outcome_bind_ok (docQuery _ _)) by reflexivity.
  by destruct (List.filter _ _).
Qed.

Lemma updateUserGroupStats_run (userId : string) (inc : Z) (db : Db) :
  ∃ db', updateUserGroupStats userId inc db = (db', Ok tt) ∧
         groups db' = groups db.
Proof.
  unfold updateUserGroupStats.
  erewrite (outcome_bind_ok (docGet _ _)) by reflexivity.
  destruct (docs usersCol db !! userId) as [u|] eqn:E.
  - unfold docUpdate. rewrite E. by eexists.
  - by eexists.
Qed.

Lemma forEach_updateStats_run (ids : list string) (inc : Z) (db : Db) :
  ∃ db', forEachM (λ id, updateUserGroupStats id inc) ids db = (db', Ok tt) ∧
         groups db' = groups db.
Proof.
  revert db. induction ids as [|id ids IH]; intros db; [by eexists|].
  destruct (updateUserGroupStats_run id inc db) as (db1 & Hrun & Hg).
  destruct (IH db1) as (db2 & Hrun2 & Hg2).
  exists db2. simpl. erewrite outcome_bind_ok by exact Hrun.
  split; [done|]. congruence.
Qed.

Lemma finalizeSelection_run
    (groupId placeId placeName : string) (location : option LatLng)
    (now : string) (g : Group.t) (db : Db) :
  groups db !! groupId = Some g →
  ∃ db', finalizeSelection groupId placeId placeName location now db = (db', Ok tt) ∧
         groups db' =
           <[groupId := withFinalPlace placeId placeName location now g]> (groups db).
Proof.
  intros Hg. unfold finalizeSelection.
  erewrite (outcome_bind_ok (docGet _ _)) by reflexivity.
  change (docs groupsCol db) with (groups db). rewrite Hg.
  erewrite (outcome_bind_ok (docUpdate _ _ _));
    [|unfold docUpdate; change (docs groupsCol db) with (groups db);
      by rewrite Hg].
  destruct (forEach_updateStats_run (Group.members g) 0
              (withDocs groupsCol
                 (<[groupId := withFinalPlace placeId placeName location now g]>
                    (groups db)) db)) as (db' & Hrun & Hgr).
  exists db'. by rewrite Hrun.
Qed.

Lemma castVotes_run (groupId userId : string) (ranked : list string)
    (g : Group.t) (db : Db) :
  groups db !! groupId = Some g →
  castVotes groupId userId ranked db =
    if (length ranked =? 0) || (3 <? length ranked)
    then (db, Throw "Must vote for 1-3 places")
    else match outcome (getUserByIdOrDiscordId userId) db with
         | Throw e => (db, Throw e)
         | Ok userData =>
             if bool_decide (userData.1 ∈ Group.members g)
             then (withDocs groupsCol
                     (<[groupId := withVote userData.1 ranked g]> (groups db)) db,
                   Ok tt)
             else (db, Throw "User not in group")
         end.
Proof.
  intros Hg. unfold castVotes.
  destruct ((length ranked =? 0) || (3 <? length ranked)); [done|].
  erewrite (outcome_bind_ok (docGet _ _)) by reflexivity.
  change (docs groupsCol db) with (groups db). rewrite Hg.
  pose proof (getUser_run userId db) as Hu.
  destruct (outcome (getUserByIdOrDiscordId userId) db) as [ud|e].
  - erewrite outcome_bind_ok by exact Hu. cbn zeta.
    destruct (bool_decide _); [|done].
    unfold docUpdate. change (docs groupsCol db) with (groups db).
    by rewrite Hg.
  - by erewrite outcome_bind_throw by exact Hu.
Qed.

End GroupFacts.

Module GroupClaims.
Import JS Types Firestore JSArray GroupService GroupFacts GroupExamples.

(** C6. [castVotes] rejects a ranked list of length 0 or above 3 before it
    reads anything; for an existing group it rejects a caller who is not a
    current member; and when it succeeds the member's stored list is the new
    ranked list, whatever was stored for that member before, while every
    other member's list, the members and the status stay as they were. *)
Theorem castVotes_contract (db : Db) (groupId userId : string)
    (rankedPlaceIds : list string) :
  (length rankedPlaceIds = 0 ∨ 3 < length rankedPlaceIds →
   ∃ msg, castVotes groupId userId rankedPlaceIds db = (db, Throw msg)) ∧
  (∀ g, groups db !! groupId = Some g →
        (¬ ∃ firebaseId, votesAsMember db g userId firebaseId) →
        ∃ msg, castVotes groupId userId rankedPlaceIds db = (db, Throw msg)) ∧
  (∀ g firebaseId,
     groups db !! groupId = Some g →
     1 ≤ length rankedPlaceIds ≤ 3 →
     votesAsMember db g userId firebaseId →
     outcome (castVotes groupId userId rankedPlaceIds) db = Ok tt ∧
     ∃ g', groups (exec (castVotes groupId userId rankedPlaceIds) db) !! groupId
             = Some g' ∧
           Group.votes g' !! firebaseId = Some rankedPlaceIds ∧
           (∀ other, other ≠ firebaseId →
                     Group.votes g' !! other = Group.votes g !! other) ∧
           Group.members g' = Group.members g ∧
           Group.status g' = Group.status g).
Proof.
  split; [|split].
  - intros Hlen. exists "Must vote for 1-3 places". unfold castVotes.
    destruct Hlen as [-> | Hlen]; [done|].
    apply Nat.ltb_lt in Hlen. rewrite Hlen. by rewrite orb_true_r.
  - intros g Hg Hnot. rewrite (castVotes_run _ _ _ g db Hg).
    destruct (_ || _); [by eexists|].
    destruct (outcome (getUserByIdOrDiscordId userId) db) as [[fid u]|e] eqn:Hu;
      [|by eexists].
    simpl. case_bool_decide as Hin; [|by eexists].
    exfalso. apply Hnot. exists fid. split; [by exists u|done].
  - intros g fid Hg [Hlo Hhi] [[u Hu] Hin].
    unfold outcome, exec. rewrite (castVotes_run _ _ _ g db Hg).
    replace ((length rankedPlaceIds =? 0) || (3 <? length rankedPlaceIds))
      with false.
    2:{ symmetry. apply orb_false_iff. split.
        - apply Nat.eqb_neq. lia.
        - apply Nat.ltb_ge. lia. }
    rewrite Hu. simpl. rewrite bool_decide_eq_true_2 by done. simpl.
    split; [done|]. exists (withVote fid rankedPlaceIds g).
    rewrite lookup_insert_eq. split; [done|]. simpl.
    rewrite lookup_insert_eq. split; [done|]. split; [|done].
    intros other Hne. by rewrite lookup_insert_ne.
Qed.

Lemma castVotes_contract_witness :
  votesAsMember groupsDb (outing active None) "d-ana" "ana" ∧
  Group.votes (outing active None) !! "ana" = Some ["A"; "B"; "C"] ∧
  ∃ g', groups (exec (castVotes "g-active" "d-ana" ["B"; "A"]) groupsDb)
          !! "g-active" = Some g' ∧
        Group.votes g' !! "ana" = Some ["B"; "A"].
Proof.
  assert (Hm : votesAsMember groupsDb (outing active None) "d-ana" "ana").
  { split; [by eexists; vm_compute | by vm_compute; set_solver]. }
  split; [exact Hm|]. split; [by vm_compute|].
  destruct (castVotes_contract groupsDb "g-active" "d-ana" ["B"; "A"])
    as (_ & _ & H).
  destruct (H (outing active None) "ana") as (_ & g' & Hg' & Hv & _).
  - by vm_compute.
  - simpl. lia.
  - exact Hm.
  - exists g'. split; [exact Hg' | exact Hv].
Defined.

(** C3, as stated, fails. The archived group of the example is finalized
    without an error and ends up [place_selected] with a final place; a
    member's vote against it is accepted and stored; and the group that was
    already [place_selected] is finalized again, to another place. *)
Lemma status_guards_absent :
  Group.status <$> groups groupsDb !! "g-archived" = Some archived ∧
  outcome (finalizeSelection "g-archived" "B" "Bar B" None "2024-03-01") groupsDb
    = Ok tt ∧
  Group.status <$>
    groups (exec (finalizeSelection "g-archived" "B" "Bar B" None "2024-03-01")
              groupsDb) !! "g-archived" = Some place_selected ∧
  outcome (castVotes "g-archived" "bo" ["B"]) groupsDb = Ok tt ∧
  (groups (exec (castVotes "g-archived" "bo" ["B"]) groupsDb) !! "g-archived"
     ≫= λ g, Group.votes g !! "bo") = Some ["B"] ∧
  Group.finalPlace <$> groups groupsDb !! "g-selected" = Some (Some chosenA) ∧
  (groups (exec (finalizeSelection "g-selected" "B" "Bar B" None "2024-03-01")
             groupsDb) !! "g-selected"
     ≫= Group.finalPlace) ≠ Some chosenA.
Proof. by vm_compute. Qed.

(** C3, amended. Neither [finalizeSelection] nor [castVotes] reads the
    group's status. For an existing group in any status, [finalizeSelection]
    succeeds, stores the given final place and sets the status to
    [place_selected]; [castVotes] with 1 to 3 places from a member succeeds
    and stores the list, leaving the status as it is; and [archiveGroup]
    succeeds and sets the status to [archived]. So [place_selected] and
    [archived] both admit further writes and transitions into each other;
    none of these operations makes a group [active]. *)
Theorem status_is_not_checked (db : Db) (groupId : string) (g : Group.t) :
  groups db !! groupId = Some g →
  (∀ placeId placeName location now,
     let m := finalizeSelection groupId placeId placeName location now in
     outcome m db = Ok tt ∧
     ∃ g', groups (exec m db) !! groupId = Some g' ∧
           Group.status g' = place_selected ∧
           (fp_placeId <$> Group.finalPlace g') = Some placeId ∧
           (fp_placeName <$> Group.finalPlace g') = Some placeName) ∧
  (∀ userId firebaseId rankedPlaceIds,
     1 ≤ length rankedPlaceIds ≤ 3 →
     votesAsMember db g userId firebaseId →
     let m := castVotes groupId userId rankedPlaceIds in
     outcome m db = Ok tt ∧
     ∃ g', groups (exec m db) !! groupId = Some g' ∧
           Group.status g' = Group.status g ∧
           Group.votes g' !! firebaseId = Some rankedPlaceIds) ∧
  (∀ now,
     let m := archiveGroup groupId now in
     outcome m db = Ok tt ∧
     ∃ g', groups (exec m db) !! groupId = Some g' ∧
           Group.status g' = archived).
Proof.
  intros Hg. split; [|split].
  - intros placeId placeName location now m.
    destruct (finalizeSelection_run groupId placeId placeName location now g db Hg)
      as (db' & Hrun & Hgroups).
    unfold outcome, exec, m. rewrite Hrun. simpl. split; [done|].
    exists (withFinalPlace placeId placeName location now g).
    by rewrite Hgroups, lookup_insert_eq.
  - intros userId fid ranked [Hlo Hhi] [[u Hu] Hin] m.
    unfold outcome, exec, m. rewrite (castVotes_run _ _ _ g db Hg).
    replace ((length ranked =? 0) || (3 <? length ranked)) with false.
    2:{ symmetry. apply orb_false_iff. split.
        - apply Nat.eqb_neq. lia.
        - apply Nat.ltb_ge. lia. }
    rewrite Hu. simpl. rewrite bool_decide_eq_true_2 by done. simpl.
    split; [done|]. exists (withVote fid ranked g).
    rewrite lookup_insert_eq. split; [done|]. split; [done|]. simpl.
    by rewrite lookup_insert_eq.
  - intros now m. unfold outcome, exec, m, archiveGroup, docUpdate.
    change (docs groupsCol db) with (groups db). rewrite Hg. simpl.
    split; [done|]. exists (withArchived now g).
    by rewrite lookup_insert_eq.
Qed.

Lemma status_is_not_checked_witness :
  groups groupsDb !! "g-selected" = Some (outing place_selected (Some chosenA)) ∧
  outcome (archiveGroup "g-selected" "2024-03-01") groupsDb = Ok tt ∧
  ∃ g', groups (exec (archiveGroup "g-selected" "2024-03-01") groupsDb)
          !! "g-selected" = Some g' ∧
        Group.status g' = archived.
Proof.
  assert (Hg : groups groupsDb !! "g-selected"
               = Some (outing place_selected (Some chosenA))) by (by vm_compute).
  split; [exact Hg|].
  destruct (status_is_not_checked groupsDb "g-selected" _ Hg) as (_ & _ & H).
  exact (H "2024-03-01").
Defined.

End GroupClaims.

(** ** Sorting and the ranked-choice tally *)

Module SortFacts.
Import JSArray.

Section Sort.
Context {A T : Type} `{Signed T} (compareFn : A → A → T).

(** [a] may stand before [b]: the comparator does not ask to swap them. *)
Hypothesis total : ∀ a b, isPositive (compareFn a b) = true → (mayPrecede compareFn) b a.
Hypothesis trans : ∀ a b c, (mayPrecede compareFn) a b → (mayPrecede compareFn) b c → (mayPrecede compareFn) a c.

Lemma sortInsert_perm (x : A) (l : list A) : sortInsert compareFn x l ≡ₚ x :: l.
Proof.
  induction l as [|y l IH]; simpl; [done|].
  destruct (isPositive _); [|done]. rewrite IH. apply Permutation_swap.
Qed.

Lemma Array_sort_perm (l : list A) : Array_sort compareFn l ≡ₚ l.
Proof.
  induction l as [|x l IH]; simpl; [done|].
  by rewrite sortInsert_perm, IH.
Qed.

Lemma sortInsert_sorted (x : A) (l : list A) :
  StronglySorted (mayPrecede compareFn) l →
  StronglySorted (mayPrecede compareFn) (sortInsert compareFn x l).
Proof.
  induction 1 as [|y l Hl IH Hy]; simpl.
  - by repeat constructor.
  - destruct (isPositive (compareFn x y)) eqn:E.
    + constructor; [done|]. rewrite sortInsert_perm.
      constructor; [by apply total | done].
    + constructor; [by constructor|]. constructor; [done|].
      eapply Forall_impl; [exact Hy|]. intros z Hz. by eapply trans.
Qed.

Lemma Array_sort_sorted (l : list A) :
  StronglySorted (mayPrecede compareFn) (Array_sort compareFn l).
Proof.
  induction l as [|x l IH]; simpl; [constructor|].
  by apply sortInsert_sorted.
Qed.

(** In a sorted array an earlier element may precede every later one. *)
Lemma sorted_lookup (l : list A) (i j : nat) (a b : A) :
  StronglySorted (mayPrecede compareFn) l → i < j → l !! i = Some a → l !! j = Some b →
  (mayPrecede compareFn) a b.
Proof.
  intros Hl. revert i j. induction Hl as [|x l Hl IH Hx]; intros i j Hij Hi Hj.
  - by rewrite lookup_nil in Hi.
  - destruct j as [|j]; [lia|]. simpl in Hj. destruct i as [|i].
    + injection Hi as ->. rewrite Forall_forall in Hx. apply Hx.
      by eapply list_elem_of_lookup_2.
    + apply (IH i j); [lia|done..].
Qed.

Lemma sorted_take (l : list A) (n : nat) :
  StronglySorted (mayPrecede compareFn) l → StronglySorted (mayPrecede compareFn) (take n l).
Proof.
  intros Hl. revert n. induction Hl as [|x l Hl IH Hx]; intros [|n]; simpl;
    try constructor; [by apply IH|].
  eapply Forall_forall. intros y Hy. rewrite Forall_forall in Hx. apply Hx.
  by eapply subseteq_take.
Qed.

End Sort.
End SortFacts.

Module TallyFacts.
Import JSArray GroupService Bot RankedChoice SortFacts.

Lemma points_rank (index : nat) : points index = rankPoints (S index).
Proof. by destruct index as [|[|[|index]]]. Qed.




(** *** The service's results object *)





(** *** The bot's [scores] map *)

Lemma Map_get_set {V} (m : JSMap V) (k k' : string) (v : V) :
  Map_get (Map_set m k v) k' = if String.eqb k k' then Some v else Map_get m k'.
Proof.
  induction m as [|[k0 v0] m IH]; simpl.
  - done.
  - destruct (String.eqb_spec k0 k) as [->|Hne]; simpl.
    + by destruct (String.eqb k k').
    + rewrite IH. destruct (String.eqb_spec k0 k') as [->|Hne']; [|done].
      destruct (String.eqb_spec k k'); [congruence|done].
Qed.




Lemma recordVote_score (userId : string) (t : Tally) (q : string)
    (index : nat) (p : string) :
  scoreIn (scores (recordVote userId t q index)) p =
  (scoreIn (scores t) p + if String.eqb q p then rankPoints (S index) else 0)%Z.
Proof.
  unfold scoreIn, recordVote. simpl. rewrite Map_get_set.
  destruct (String.eqb_spec q p) as [->|Hne]; simpl; [|lia].
  by rewrite points_rank.
Qed.

Lemma forEach_recordVote_score (userId : string) (ranked : list string)
    (index : nat) (t : Tally) (p : string) :
  scoreIn (scores (forEachIndexed (recordVote userId) ranked index t)) p =
  (scoreIn (scores t) p + ballotPoints p ranked (S index))%Z.
Proof.
  revert index t. induction ranked as [|q ranked IH]; intros index t;
    cbn [forEachIndexed ballotPoints]; [lia|].
  rewrite IH, recordVote_score. lia.
Qed.

Lemma tally_from (votes : JSMap (list string)) (t : Tally) (p : string) :
  scoreIn (scores (fold_left (λ t entry,
                      forEachIndexed (recordVote entry.1) entry.2 0 t) votes t)) p =
  (scoreIn (scores t) p + expectedScore votes.*2 p)%Z.
Proof.
  revert t. induction votes as [|[u ranked] votes IH]; intros t;
    cbn [fold_left fmap list_fmap expectedScore foldr snd fst]; [lia|].
  rewrite IH, forEach_recordVote_score. fold (expectedScore votes.*2 p). lia.
Qed.

Lemma tally_score (votes : JSMap (list string)) (p : string) :
  scoreIn (scores (tally votes)) p = expectedScore votes.*2 p.
Proof. unfold tally. by rewrite tally_from. Qed.







End TallyFacts.

Module TallyClaims.
Import Types Firestore JSArray GroupService Bot RankedChoice SortFacts TallyFacts.
Import TallyExamples.







End TallyClaims.

(** ** The feed: scores and order *)

Module ExploreFacts.
Import JS RatingService Types Firestore JSArray RatingStore Aggregates Explore.
Import SortFacts AggregateFacts GroupFacts.

Lemma sum_by_fmap {A B} (f : B → number) (g : A → B) (l : list A) :
  sum_by f (g <$> l) = sum_by (λ x, f (g x)) l.
Proof.
  unfold sum_by. generalize 0%Q.
  induction l as [|x l IH]; intros acc; simpl; [done|]. apply IH.
Qed.

Lemma len_fmap {A B} (g : A → B) (l : list A) : len (g <$> l) = len l.
Proof. unfold len. by rewrite length_fmap. Qed.

Lemma scoreAll_run (userAF : number) (nearby : list NearbyPlace) (db : Db) :
  mapM (λ place,
          ratings ← getPlaceRatings (np_id place);
          mret (scorePlace userAF place ratings)) nearby db =
  (db, Ok ((λ place, scorePlace userAF place (placeRatings db (np_id place)))
           <$> nearby)).
Proof.
  induction nearby as [|place nearby IH]; [done|].
  cbn [mapM]. erewrite outcome_bind_ok; [|reflexivity].
  erewrite outcome_bind_ok by exact IH. reflexivity.
Qed.

(** What the handler answers for a user who has a last rated location. *)
Lemma explorePlaces_run (userId : string) (limit : Z)
    (nearby : list NearbyPlace) (db : Db) (userData : User.t) (loc : LatLng) :
  users db !! userId = Some userData →
  User.lastRatedPlaceLocation userData = Some loc →
  ∃ count rated unrated,
    outcome (explorePlaces userId limit nearby) db =
      Ok (Success
            (Array_slice0 limit
               (Array_sort compareRecommendations
                  ((λ place, scorePlace (viewerFactor userData) place
                               (placeRatings db (np_id place))) <$> nearby)))
            count rated unrated None).
Proof.
  intros Hu Hloc. unfold outcome, explorePlaces.
  erewrite (outcome_bind_ok (docGet _ _)) by reflexivity.
  change (docs usersCol db) with (users db). rewrite Hu, Hloc.
  erewrite outcome_bind_ok by apply scoreAll_run.
  by eexists _, _, _.
Qed.

(** Any successful answer carries a prefix of the sorted scored places. *)
Lemma explorePlaces_data (userId : string) (limit : Z)
    (nearby : list NearbyPlace) (db : Db) (data : list Recommendation)
    (count rated unrated : nat) (message : option string) :
  outcome (explorePlaces userId limit nearby) db =
    Ok (Success data count rated unrated message) →
  data = [] ∨
  ∃ userData,
    users db !! userId = Some userData ∧
    data = Array_slice0 limit
             (Array_sort compareRecommendations
                ((λ place, scorePlace (viewerFactor userData) place
                             (placeRatings db (np_id place))) <$> nearby)).
Proof.
  destruct (users db !! userId) as [userData|] eqn:Hu.
  - destruct (User.lastRatedPlaceLocation userData) as [loc|] eqn:Hloc.
    + destruct (explorePlaces_run userId limit nearby db userData loc Hu Hloc)
        as (c & r & u & ->).
      intros [= <- _ _ _ _]. right. by exists userData.
    + unfold outcome, explorePlaces.
      erewrite (outcome_bind_ok (docGet _ _)) by reflexivity.
      change (docs usersCol db) with (users db). rewrite Hu, Hloc.
      intros [= <- _ _ _ _]. by left.
  - unfold outcome, explorePlaces.
    erewrite (outcome_bind_ok (docGet _ _)) by reflexivity.
    change (docs usersCol db) with (users db). by rewrite Hu.
Qed.

Lemma scorePlace_unrated (userAF : number) (place : NearbyPlace)
    (ratings : list Rating.t) :
  isUnrated (scorePlace userAF place ratings) = true ↔ ratings = [].
Proof. by destruct ratings. Qed.

Lemma scorePlace_id (userAF : number) (place : NearbyPlace)
    (ratings : list Rating.t) :
  id (scorePlace userAF place ratings) = np_id place.
Proof. by destruct ratings. Qed.

(** The comparator is a total preorder: unrated entries last, rated entries
    by falling ranking key. *)
Lemma mayPrecede_spec (a b : Recommendation) :
  mayPrecede compareRecommendations a b ↔
  (isUnrated a = true → isUnrated b = true) ∧
  (isUnrated a = false → isUnrated b = false →
   (rankingKey b <= rankingKey a)%Q).
Proof.
  unfold mayPrecede, isPositive, Signed_number, compareRecommendations,
    rankingKey.
  rewrite negb_false_iff, Qle_bool_iff.
  destruct (isUnrated a), (isUnrated b); simpl; split;
    try (intros; split; intros; (done || lra));
    try (intros [H1 H2]; (lra || (specialize (H1 eq_refl); done)
                          || (specialize (H2 eq_refl eq_refl); lra))).
Qed.

Lemma compare_total (a b : Recommendation) :
  isPositive (compareRecommendations a b) = true →
  mayPrecede compareRecommendations b a.
Proof.
  intros Hpos. apply mayPrecede_spec.
  assert (Hnot : ¬ mayPrecede compareRecommendations a b)
    by (unfold mayPrecede; congruence).
  rewrite mayPrecede_spec in Hnot.
  destruct (isUnrated a), (isUnrated b);
    first [ by exfalso; apply Hnot; split; intros; congruence
          | split; intros; try congruence ].
  apply Qnot_lt_le. intros Hlt. apply Hnot. split; [congruence|].
  intros _ _. by apply Qlt_le_weak.
Qed.

Lemma compare_trans (a b c : Recommendation) :
  mayPrecede compareRecommendations a b →
  mayPrecede compareRecommendations b c →
  mayPrecede compareRecommendations a c.
Proof.
  rewrite !mayPrecede_spec. intros [H1 H2] [H3 H4].
  destruct (isUnrated a), (isUnrated b), (isUnrated c); split; intros;
    try congruence;
    try (specialize (H1 eq_refl); congruence);
    try (specialize (H3 eq_refl); congruence).
  eapply Qle_trans; [by apply H4 | by apply H2].
Qed.

Lemma feed_sorted (userAF : number) (limit : Z) (db : Db)
    (nearby : list NearbyPlace) :
  StronglySorted (mayPrecede compareRecommendations)
    (Array_slice0 limit
       (Array_sort compareRecommendations
          ((λ place, scorePlace userAF place (placeRatings db (np_id place)))
           <$> nearby))).
Proof.
  apply sorted_take, Array_sort_sorted; [apply compare_total|apply compare_trans].
Qed.

Lemma feed_entry (userAF : number) (limit : Z) (db : Db)
    (nearby : list NearbyPlace) (e : Recommendation) :
  e ∈ Array_slice0 limit
        (Array_sort compareRecommendations
           ((λ place, scorePlace userAF place (placeRatings db (np_id place)))
            <$> nearby)) →
  ∃ place, place ∈ nearby ∧
           e = scorePlace userAF place (placeRatings db (np_id place)).
Proof.
  intros He. apply subseteq_take in He.
  rewrite Array_sort_perm in He. apply list_elem_of_fmap in He as (place & -> & Hin).
  by exists place.
Qed.

End ExploreFacts.

Module ExploreClaims.
Import JS RatingService Types Firestore JSArray RatingStore Aggregates Explore.
Import SortFacts ExploreFacts ExploreExamples.

(** C9. In the feed returned to the viewer, an entry is unrated exactly when
    its place has no rating; every unrated entry comes after every rated
    one; and the rated entries are in falling order of
    [predictedScore * (confidence / 100)]. *)
Theorem feed_order (db : Db) (userId : string) (limit : Z)
    (nearby : list NearbyPlace) (data : list Recommendation)
    (count rated unrated : nat) (message : option string) :
  outcome (explorePlaces userId limit nearby) db =
    Ok (Success data count rated unrated message) →
  (∀ e, e ∈ data →
        ∃ place, place ∈ nearby ∧ id e = np_id place ∧
                 (isUnrated e = true ↔ placeRatings db (np_id place) = [])) ∧
  (∀ i j a b, i < j → data !! i = Some a → data !! j = Some b →
     (isUnrated a = true → isUnrated b = true) ∧
     (isUnrated a = false → isUnrated b = false →
      (predictedScore b * (confidence b / 100) <=
       predictedScore a * (confidence a / 100))%Q)).
Proof.
  intros Hout.
  apply explorePlaces_data in Hout as [-> | (userData & Hu & ->)].
  { split; [intros e He; by apply elem_of_nil in He|].
    intros i j a b _ Hi. by rewrite lookup_nil in Hi. }
  split.
  - intros e He. apply feed_entry in He as (place & Hin & ->).
    exists place. split; [done|]. split; [apply scorePlace_id|].
    apply scorePlace_unrated.
  - intros i j a b Hij Hi Hj. apply mayPrecede_spec.
    by eapply sorted_lookup; [apply feed_sorted|..].
Qed.

Lemma feed_order_witness :
  ∃ a b,
    outcome (explorePlaces "ana" 20 [park; cafe]) threeRatings
      = Ok (Success [a; b] 2 1 1 None) ∧
    id a = "cafe" ∧ id b = "park" ∧
    (isUnrated a = true → isUnrated b = true).
Proof.
  assert (Hout : ∃ a b, outcome (explorePlaces "ana" 20 [park; cafe]) threeRatings
                        = Ok (Success [a; b] 2 1 1 None) ∧
                        id a = "cafe" ∧ id b = "park")
    by (eexists _, _; split; [|split]; by vm_compute).
  destruct Hout as (a & b & Hout & Ha & Hb).
  exists a, b. split; [exact Hout|]. split; [exact Ha|]. split; [exact Hb|].
  destruct (feed_order threeRatings "ana" 20 [park; cafe] [a; b] 2 1 1 None Hout)
    as [_ Hord].
  destruct (Hord 0 1 a b) as [H _]; [lia|reflexivity..|exact H].
Defined.

End ExploreClaims.

(** ** The scenarios on binary64 *)

Module B64Facts.
Import B64.

#[local] Set Warnings "-inexact-float".

(** Scenarios A and B evaluate on doubles to the values found in exact
    arithmetic: 6.8, and 6.1 for the introvert rater. *)
Remark scenario_scores_binary64 :
  calculateOverallScore scenarioCategories 0%float = 6.8%float ∧
  calculateOverallScore scenarioCategories (-0.5)%float = 6.1%float ∧
  calculateAdjustedScoreForViewer scenarioCategories (-0.5)%float (-0.5)%float
    = 6.8%float.
Proof. repeat split; vm_compute; reflexivity. Qed.

(** On the scores of the 1-10 scale the inversion [11 - v] is exact on
    doubles, so inverting twice returns the score. *)
Remark invert_twice_binary64 :
  Forall (λ v, (11 - (11 - v))%float = v) scale.
Proof. repeat constructor. Qed.

Lemma invert_twice64 (v : number) : v ∈ scale → (11 - (11 - v))%float = v.
Proof.
  intros Hv. pose proof invert_twice_binary64 as Hall.
  rewrite Forall_forall in Hall. by apply Hall.
Qed.

Lemma invertSensitive_twice (c : RatingCategory) :
  sensitiveOnScale c → invertSensitive (invertSensitive c) = c.
Proof.
  intros (H1 & H2 & H3). destruct c as [cs nl se sv at']. unfold invertSensitive.
  cbn [crowdSize noiseLevel socialEnergy service atmosphere] in *.
  by rewrite (invert_twice64 cs H1), (invert_twice64 nl H2), (invert_twice64 se H3).
Qed.

(** With one factor on both sides the record comes back when nothing is
    inverted, or when what is inverted is on the scale. *)
Lemma roundtrip_same_factor64 (c : RatingCategory) (af : number) :
  sensitiveOnScale c ∨ (af <=? -0.2)%float = false →
  adjustCategoriesForViewer (normalizeCategoriesToObjective c af) af = c.
Proof.
  unfold adjustCategoriesForViewer, adjustCategoriesForPersonality,
    normalizeCategoriesToObjective.
  destruct (af <=? -0.2)%float; intros [H|H]; try done.
  by apply invertSensitive_twice.
Qed.

(** Two closed doubles are told apart by evaluating [==] on them. *)
Ltac floats_differ :=
  let H := fresh in
  intros H;
  match type of H with
  | ?a = ?b => apply (f_equal (λ x, PrimFloat.eqb x b)) in H
  end;
  vm_compute in H; discriminate H.

End B64Facts.

(** ** The round trip and the rater's own view, on doubles *)

Module AdjusterClaims64.
Import B64 B64Facts.

#[local] Set Warnings "-inexact-float".
#[local] Open Scope float_scope.

(** C1, as stated, fails on the doubles the service computes with: for an
    introvert factor a crowd size of 1.1, which lies in [1,10], comes back
    from the two inversions as 1.0999999999999996. *)
Lemma roundtrip_inexact :
  crowdSize (adjustCategoriesForViewer
               (normalizeCategoriesToObjective offScale (-0.5)) (-0.5))
    = 1.0999999999999996%float ∧
  adjustCategoriesForViewer
    (normalizeCategoriesToObjective offScale (-0.5)) (-0.5) ≠ offScale.
Proof.
  split; [by vm_compute|]. intros H.
  apply (f_equal (λ c, (crowdSize c =? 1.1)%float)) in H.
  vm_compute in H. discriminate H.
Qed.

(** C1, amended. Normalising a record with a factor and adjusting the result
    for a viewer with the same factor returns the record itself, field for
    field, when the factor is above -0.2 (nothing is inverted, whatever the
    values), and for every factor when crowd size, noise level and social
    energy are whole scores from 1 to 10, on which [11 - v] is exact. *)
Theorem roundtrip_on_doubles (c : RatingCategory) (af : number) :
  sensitiveOnScale c ∨ (af <=? -0.2)%float = false →
  adjustCategoriesForViewer (normalizeCategoriesToObjective c af) af = c.
Proof. apply roundtrip_same_factor64. Qed.

Lemma roundtrip_on_doubles_witness :
  adjustCategoriesForViewer
    (normalizeCategoriesToObjective scenarioCategories (-0.5)) (-0.5)
  = scenarioCategories ∧
  adjustCategoriesForViewer (normalizeCategoriesToObjective offScale 0.3) 0.3
  = offScale.
Proof.
  split.
  - apply (roundtrip_on_doubles scenarioCategories (-0.5)%float). left.
    repeat split; apply list_elem_of_In; cbn; tauto.
  - apply (roundtrip_on_doubles offScale 0.3%float). right. reflexivity.
Defined.

(** C10, as stated, fails on doubles: for the introvert factor -0.5 and the
    record with crowd size 1.2, noise level 3.8, social energy 1.2, service 7
    and atmosphere 8, the rater's own view of the rating is 4.4 and the
    neutral score is 4.5. *)
Lemma own_rating_differs :
  calculateAdjustedScoreForViewer offScaleScores (-0.5) (-0.5) = 4.4%float ∧
  calculateOverallScore offScaleScores 0 = 4.5%float ∧
  calculateAdjustedScoreForViewer offScaleScores (-0.5) (-0.5)
    ≠ calculateOverallScore offScaleScores 0.
Proof.
  split; [by vm_compute|]. split; [by vm_compute|].
  floats_differ.
Qed.

(** C10, amended. A rater viewing their own rating gets the neutral score,
    [calculateAdjustedScoreForViewer c a a = calculateOverallScore c 0], for
    every factor above -0.2, and for every factor when crowd size, noise
    level and social energy are whole scores from 1 to 10; and for an
    introvert rater this need not be the stored
    [overallScore = calculateOverallScore c a]. *)
Theorem own_rating_on_doubles :
  (∀ (c : RatingCategory) (a : number),
     sensitiveOnScale c ∨ (a <=? -0.2)%float = false →
     calculateAdjustedScoreForViewer c a a = calculateOverallScore c 0) ∧
  (∃ (c : RatingCategory) (a : number),
     sensitiveOnScale c ∧ (a <=? -0.2)%float = true ∧
     calculateAdjustedScoreForViewer c a a ≠ calculateOverallScore c a).
Proof.
  split.
  - intros c a H. unfold calculateAdjustedScoreForViewer.
    by rewrite (roundtrip_same_factor64 c a H).
  - exists scenarioCategories, (-0.5)%float.
    split; [repeat split; apply list_elem_of_In; cbn; tauto|].
    split; [reflexivity|]. floats_differ.
Qed.

(** X3. On doubles, for a record whose crowd size, noise level and social
    energy are whole scores from 1 to 10, the score of a rating for a viewer
    depends on the two factors only through the sides of the threshold -0.2
    they are on: on the same side it is the neutral score of the categories
    as submitted, on opposite sides the neutral score of the categories with
    the three sensitive values inverted. *)
Theorem adjusted_score_by_side (c : RatingCategory) (rater viewer : number) :
  sensitiveOnScale c →
  calculateAdjustedScoreForViewer c rater viewer =
    if Bool.eqb (rater <=? -0.2)%float (viewer <=? -0.2)%float
    then calculateOverallScore c 0
    else calculateOverallScore (invertSensitive c) 0.
Proof.
  intros Hc.
  unfold calculateAdjustedScoreForViewer, adjustCategoriesForViewer,
    adjustCategoriesForPersonality at 1, normalizeCategoriesToObjective.
  destruct (rater <=? -0.2)%float, (viewer <=? -0.2)%float; cbn [Bool.eqb];
    try reflexivity.
  by rewrite (invertSensitive_twice c Hc).
Qed.

Lemma adjusted_score_by_side_witness :
  calculateAdjustedScoreForViewer scenarioCategories (-0.5) 0.4
  = calculateOverallScore (invertSensitive scenarioCategories) 0.
Proof.
  apply (adjusted_score_by_side scenarioCategories (-0.5)%float 0.4%float).
  repeat split; apply list_elem_of_In; cbn; tauto.
Defined.

End AdjusterClaims64.

(** ** The places feed on binary64 *)

Module FeedFacts64.
Import B64 B64Facts JSArray B64Feed SortFacts.

#[local] Set Warnings "-inexact-float".
#[local] Open Scope float_scope.



Lemma slice0_subseteq {A} (end_ : Z) (l : list A) (x : A) :
  x ∈ Array_slice0 end_ l → x ∈ l.
Proof. unfold Array_slice0. apply subseteq_take. Qed.

Lemma elem_of_placeRatings64 (db : Db) (p : string) (r : Rating) :
  r ∈ getPlaceRatings db p ↔ ∃ k, ratings db !! k = Some r ∧ placeId r = p.
Proof.
  unfold getPlaceRatings. rewrite list_elem_of_fmap. split.
  - intros ([k r'] & -> & Hin).
    apply list_elem_of_In, filter_In in Hin as [Hin Hp]. cbn [snd] in *.
    apply String.eqb_eq in Hp.
    apply list_elem_of_In, elem_of_map_to_list in Hin. by exists k.
  - intros (k & Hk & Hp). exists (k, r). split; [done|].
    apply list_elem_of_In, filter_In. split.
    + by apply list_elem_of_In, elem_of_map_to_list.
    + cbn [snd]. by apply String.eqb_eq.
Qed.


(** With ratings whose adjusted scores are 1.2 and 1.9 the handler answers
    1.5: the sum of the two doubles is 3.0999999999999996, and the mean
    times ten, 15.499999999999998, rounds to 15. *)
Remark feed_rounds_the_double_mean :
  adjustedScores twoRatings "cafe" 0 = [1.2; 1.9] ∧
  mean (adjustedScores twoRatings "cafe" 0) = 1.5499999999999998 ∧
  predictedScore <$> match explorePlaces twoRatings "cy" 20 [cafe] with
                     | Feed data _ _ _ => data
                     | _ => []
                     end = [1.5].
Proof. repeat split; by vm_compute. Qed.

End FeedFacts64.

Module FeedClaims64.
Import B64 B64Facts JSArray B64Feed SortFacts FeedFacts64.

#[local] Set Warnings "-inexact-float".
#[local] Open Scope float_scope.




End FeedClaims64.

(** ** The people feed on binary64 *)

Module PeopleFacts.
Import B64 B64Facts JSArray B64Feed SortFacts FeedFacts64.

#[local] Set Warnings "-inexact-float".
#[local] Open Scope float_scope.

Lemma omap_length_le {A B} (f : A → option B) (l : list A) :
  (length (omap f l) ≤ length l)%nat.
Proof.
  induction l as [|x l IH]; [done|]. cbn [omap list_omap length].
  destruct (f x); cbn [length]; lia.
Qed.

(** A similarity that passes the test [>= 0.3] is the difference itself:
    [Math.max] returned neither its 0 nor [NaN]. *)
Lemma Math_max_0 (x : number) :
  (0.3 <=? Math_max 0 x) = true → Math_max 0 x = x.
Proof.
  unfold Math_max. change (is_nan 0) with false. cbn [orb].
  destruct (is_nan x); [by vm_compute|].
  destruct (0 <? x); [done|].
  destruct (x <? 0); [by vm_compute|].
  change (get_sign 0) with false. cbn iota. by vm_compute.
Qed.

Section Distance.
Variable haversineDistance : number → number → number → number → number.

Lemma scorePerson_spec (userId : string) (userAF : number)
    (userLocation : LatLng) (maxDistance : number) (doc : string * User)
    (e : PersonRecommendation) :
  scorePerson haversineDistance userId userAF userLocation maxDistance doc
    = Some e →
  let otherAF := or_default (default 0 (adjustmentFactor doc.2)) 0 in
  let raw :=
    haversineDistance (lat userLocation) (lng userLocation)
      (lat (pr_lastRatedPlaceLocation e)) (lng (pr_lastRatedPlaceLocation e)) in
  pr_id e = doc.1 ∧ doc.1 ≠ userId ∧
  pr_displayName e = displayName doc.2 ∧
  pr_personalityType e = personalityType doc.2 ∧
  pr_adjustmentFactor e = otherAF ∧
  pr_totalRatingsCount e = default 0%Z (totalRatingsCount doc.2) ∧
  lastRatedPlaceLocation doc.2 = Some (pr_lastRatedPlaceLocation e) ∧
  similarity e = 1 - Math_abs (userAF - otherAF) ∧
  (0.3 <=? similarity e) = true ∧
  (raw <=? maxDistance) = true ∧
  distance e = round1 raw.
Proof.
  unfold scorePerson.
  destruct (String.eqb_spec doc.1 userId) as [|Hne]; [done|].
  destruct (lastRatedPlaceLocation doc.2) as [otherLocation|]; [|done].
  cbn zeta.
  destruct (haversineDistance _ _ _ _ <=? maxDistance) eqn:Hd; [|done].
  destruct (0.3 <=? Math_max 0 _) eqn:Hs; [|done].
  cbn [andb]. intros He. apply (inj Some) in He. subst e.
  cbn [pr_id pr_displayName pr_personalityType pr_adjustmentFactor
       pr_totalRatingsCount pr_lastRatedPlaceLocation similarity distance].
  pose proof (Math_max_0 _ Hs) as Emax. rewrite Emax in Hs |- *.
  repeat split; first [exact Hs | exact Hd | exact Hne | reflexivity].
Qed.

End Distance.

End PeopleFacts.

Module PeopleProps.
Import B64 B64Facts JSArray B64Feed SortFacts FeedFacts64 PeopleFacts.

#[local] Set Warnings "-inexact-float".
#[local] Open Scope float_scope.

(** X26. The people handler, on doubles, always answers: "User not found"
    for an unknown user, the message to rate a place first for a user
    without a last rated location. Otherwise every entry is another user's
    document, never the viewer's own, that has a personality type and a last
    rated location; its similarity is [1 - |viewerAF - otherAF|] as the
    doubles give it, and that double passed the test [>= 0.3]; the distance
    to the place it last rated passed the test [<= maxDistance] and is
    reported rounded to one decimal. The answer is [slice(0, limit)] of the
    entries: at most [limit] of them for a limit of 0 or more, all but the
    last [-limit] for a negative one; [count] tells how many qualified, at
    most 200. *)
Theorem people_feed
    (haversineDistance : number → number → number → number → number)
    (db : Db) (userId : string) (limit : Z) (maxDistance : number) :
  let answer := explorePeople haversineDistance db userId limit maxDistance in
  match users db !! userId with
  | None => answer = PeopleNotFound "User not found"
  | Some userData =>
      match lastRatedPlaceLocation userData with
      | None =>
          answer = PeopleNoLocation
                     "Rate a place first to get personalized recommendations"
      | Some userLocation =>
          ∃ data count,
            answer = People data count ∧
            length data =
              Z.to_nat (if (limit <? 0)%Z then Z.of_nat count + limit
                        else Z.min limit (Z.of_nat count)) ∧
            (count ≤ 200)%nat ∧
            ∀ e, e ∈ data →
              pr_id e ≠ userId ∧
              ∃ other,
                users db !! pr_id e = Some other ∧
                is_Some (personalityType other) ∧
                pr_personalityType e = personalityType other ∧
                pr_displayName e = displayName other ∧
                lastRatedPlaceLocation other
                  = Some (pr_lastRatedPlaceLocation e) ∧
                similarity e =
                  1 - Math_abs (viewerFactor userData - viewerFactor other) ∧
                (0.3 <=? similarity e) = true ∧
                (haversineDistance (lat userLocation) (lng userLocation)
                   (lat (pr_lastRatedPlaceLocation e))
                   (lng (pr_lastRatedPlaceLocation e)) <=? maxDistance) = true ∧
                distance e =
                  round1 (haversineDistance (lat userLocation) (lng userLocation)
                            (lat (pr_lastRatedPlaceLocation e))
                            (lng (pr_lastRatedPlaceLocation e)))
      end
  end.
Proof.
  intros answer. unfold answer, explorePeople.
  destruct (users db !! userId) as [userData|]; [|reflexivity].
  destruct (lastRatedPlaceLocation userData) as [userLocation|];
    [|reflexivity].
  cbn zeta.
  set (snapshot := take 200 (List.filter _ (map_to_list (users db)))).
  set (scored := omap _ snapshot).
  pose proof (Array_sort_perm comparePeople scored) as Hperm.
  assert (Hcount : (length (Array_sort comparePeople scored) ≤ 200)%nat).
  { rewrite Hperm. etrans; [apply omap_length_le|].
    unfold snapshot. rewrite length_take. lia. }
  eexists _, _. split; [reflexivity|]. split; [|split; [exact Hcount|]].
  - unfold Array_slice0. rewrite length_take.
    destruct (limit <? 0)%Z eqn:E; lia.
  - intros e He. apply slice0_subseteq in He. rewrite Hperm in He.
    apply list_elem_of_omap in He as ([k other] & Hin & Hscore).
    apply scorePerson_spec in Hscore
      as (Hid & Hne & Hname & Htype & _ & _ & Hloc & Hsim & Hpass & Hdist & Hround).
    cbn [fst snd] in *. rewrite Hid. split; [exact Hne|].
    exists other.
    assert (Hin' : (k, other) ∈
              List.filter (λ kv : string * User,
                 bool_decide (is_Some (personalityType kv.2)))
                (map_to_list (users db))).
    { unfold snapshot in Hin. by apply subseteq_take in Hin. }
    apply list_elem_of_In, filter_In in Hin' as [Hdoc Hp].
    apply list_elem_of_In, elem_of_map_to_list in Hdoc.
    apply bool_decide_eq_true in Hp. cbn [snd] in Hp.
    split; [exact Hdoc|]. split; [exact Hp|].
    split; [exact Htype|]. split; [exact Hname|]. split; [exact Hloc|].
    split; [exact Hsim|]. split; [exact Hpass|]. split; [exact Hdist|].
    exact Hround.
Qed.

(** X27. The comparator of the people feed is not an order on the entries
    the handler builds. It ranks by similarity only when two similarities
    differ by more than 0.05 and by distance otherwise. For a viewer with
    factor 0 and three users with factors 0.5, 0.53 and 0.56 the handler
    computes the similarities 0.5, 0.47 and 0.43999999999999995; when the
    three are within the maximal distance and their reported distances are
    5, 3 and 1 the comparator puts the first behind the second, the second
    behind the third and the third behind the first, so no arrangement of
    the three satisfies it. *)
Theorem people_order_cycle
    (haversineDistance : number → number → number → number → number)
    (viewerAt la lb lc : LatLng) (maxDistance : number) :
  let raw l :=
    haversineDistance (lat viewerAt) (lng viewerAt) (lat l) (lng l) in
  (raw la <=? maxDistance) = true →
  (raw lb <=? maxDistance) = true →
  (raw lc <=? maxDistance) = true →
  round1 (raw la) = 5 → round1 (raw lb) = 3 → round1 (raw lc) = 1 →
  let entry name af l :=
    scorePerson haversineDistance "viewer" 0 viewerAt maxDistance
      (name, personAt name af l) in
  ∃ a b c,
    entry "a" 0.5 la = Some a ∧ entry "b" 0.53 lb = Some b ∧
    entry "c" 0.56 lc = Some c ∧
    similarity <$> [a; b; c] = [0.5; 0.47; 0.43999999999999995] ∧
    distance <$> [a; b; c] = [5; 3; 1] ∧
    isPositive (comparePeople a b) = true ∧
    isPositive (comparePeople b c) = true ∧
    isPositive (comparePeople c a) = true.
Proof.
  intros raw Ha Hb Hc Da Db Dc entry. unfold entry, scorePerson.
  unfold raw, round1 in *.
  cbn [fst snd String.eqb Ascii.eqb Bool.eqb personAt lastRatedPlaceLocation
       adjustmentFactor displayName personalityType totalRatingsCount].
  rewrite Ha, Hb, Hc, Da, Db, Dc.
  set (entryOf name af l sim dist :=
         {| pr_id := name; pr_displayName := name;
            pr_personalityType := Some "Unknown"; pr_adjustmentFactor := af;
            pr_totalRatingsCount := 0%Z;
            pr_lastRatedPlaceLocation := l;
            similarity := sim; distance := dist |}).
  exists (entryOf "a" 0.5 la 0.5 5), (entryOf "b" 0.53 lb 0.47 3),
         (entryOf "c" 0.56 lc 0.43999999999999995 1).
  repeat split; vm_compute; reflexivity.
Qed.

Lemma people_order_cycle_witness :
  ∃ a b,
    scorePerson alongEquator "viewer" 0 {| lat := 0; lng := 0 |} 50
      ("a", personAt "a" 0.5 {| lat := 0; lng := 0.045 |}) = Some a ∧
    scorePerson alongEquator "viewer" 0 {| lat := 0; lng := 0 |} 50
      ("b", personAt "b" 0.53 {| lat := 0; lng := 0.027 |}) = Some b ∧
    isPositive (comparePeople a b) = true.
Proof.
  destruct (people_order_cycle alongEquator {| lat := 0; lng := 0 |}
              {| lat := 0; lng := 0.045 |} {| lat := 0; lng := 0.027 |}
              {| lat := 0; lng := 0.009 |} 50)
    as (a & b & c & Ha & Hb & _ & _ & _ & Hab & _);
    [vm_compute; reflexivity ..|].
  exists a, b. split; [exact Ha|]. split; [exact Hb | exact Hab].
Defined.

End PeopleProps.

(** ** Viewer-adjusted statistics on binary64 *)

Module ViewProps.
Import B64 JSArray B64Feed B64Views B64Facts.

#[local] Set Warnings "-inexact-float".
#[local] Open Scope float_scope.

Lemma same_side_roundtrip (viewer : number) (r : Rating) :
  readsAsStored viewer r →
  adjustCategoriesForViewer
    (normalizeCategoriesToObjective (categories r) (userAdjustmentFactor r))
    viewer = categories r.
Proof.
  unfold readsAsStored, adjustCategoriesForViewer, adjustCategoriesForPersonality,
    normalizeCategoriesToObjective.
  intros [-> Hscale]. destruct (viewer <=? -0.2); [|done].
  by apply invertSensitive_twice, Hscale.
Qed.

Lemma accumulateAdjusted_fold (viewer : number) (l : list Rating)
    (acc : RatingCategory) :
  Forall (readsAsStored viewer) l →
  fold_left (accumulateAdjusted viewer) l acc =
  {| crowdSize :=
       fold_left (λ s r, s + getKey KCrowdSize (categories r)) l (crowdSize acc);
     noiseLevel :=
       fold_left (λ s r, s + getKey KNoiseLevel (categories r)) l (noiseLevel acc);
     socialEnergy :=
       fold_left (λ s r, s + getKey KSocialEnergy (categories r)) l
                 (socialEnergy acc);
     service :=
       fold_left (λ s r, s + getKey KService (categories r)) l (service acc);
     atmosphere :=
       fold_left (λ s r, s + getKey KAtmosphere (categories r)) l
                 (atmosphere acc) |}.
Proof.
  intros Hl. revert acc. induction Hl as [|r l Hr Hl IH]; intros acc.
  - by destruct acc.
  - cbn [fold_left]. rewrite IH. unfold accumulateAdjusted.
    by rewrite (same_side_roundtrip _ _ Hr).
Qed.

(** With a crowd size of 1.1 from an introvert rater the inversion is not
    undone exactly: for an introvert viewer the crowd size average of the
    ratings 1 and 1.1 comes out as 1 (the sum is 2.0999999999999996, the
    mean times ten 10.499999999999998), where the stored average is 1.1. *)
Remark viewer_stats_off_scale :
  avgCategories <$> getPlaceStatsForUser {[ "cafe" := cafeStats ]}
                      offScaleRatings "cafe" (-0.5)
    = Some (mkCategories 1 5 5 5 5) ∧
  storedAvgCategories (getPlaceRatings offScaleRatings "cafe")
    = mkCategories 1.1 5 5 5 5.
Proof. split; vm_compute; reflexivity. Qed.

(** X7. On doubles, [getPlaceStatsForUser] answers [null] for a place
    without a document, and the stored statistics for a place without
    ratings. When every rater of the place is on the viewer's side of the
    threshold -0.2 and, where that is the introvert side, the crowd size,
    noise level and social energy of every rating are whole scores from 1 to
    10, the adjusted category averages are the averages that
    [calculatePlaceStats] computes from the same ratings; the counts,
    [byPersonality] and [lastRatedAt] are those of the stored statistics;
    and the overall score is [calculateOverallScore] of the returned
    averages for the viewer's factor. *)
Theorem viewer_stats_same_side (places : gmap string PlaceStats) (db : Db)
    (placeId : string) (viewer : number) :
  (places !! placeId = None →
   getPlaceStatsForUser places db placeId viewer = None) ∧
  (∀ baseStats,
     places !! placeId = Some baseStats →
     (getPlaceRatings db placeId = [] →
      getPlaceStatsForUser places db placeId viewer = Some baseStats) ∧
     (getPlaceRatings db placeId ≠ [] →
      Forall (readsAsStored viewer) (getPlaceRatings db placeId) →
      ∃ stats,
        getPlaceStatsForUser places db placeId viewer = Some stats ∧
        avgCategories stats = storedAvgCategories (getPlaceRatings db placeId) ∧
        avgOverallScore stats = calculateOverallScore (avgCategories stats) viewer ∧
        totalRatings stats = totalRatings baseStats ∧
        byPersonality stats = byPersonality baseStats ∧
        lastRatedAt stats = lastRatedAt baseStats)).
Proof.
  unfold getPlaceStatsForUser. split; [by intros ->|].
  intros baseStats ->. split; [by intros ->|].
  intros Hne Hside.
  destruct (getPlaceRatings db placeId) as [|r l] eqn:E; [done|].
  set (rs := r :: l) in *. eexists. split; [reflexivity|].
  cbn [avgCategories avgOverallScore totalRatings byPersonality lastRatedAt].
  split; [|done].
  rewrite (accumulateAdjusted_fold viewer rs zeroCategories Hside).
  reflexivity.
Qed.

Lemma viewer_stats_same_side_witness :
  ∃ stats,
    getPlaceStatsForUser {[ "cafe" := cafeStats ]} introvertRatings "cafe" (-0.5)
      = Some stats ∧
    avgCategories stats
      = storedAvgCategories (getPlaceRatings introvertRatings "cafe") ∧
    avgCategories stats = mkCategories 2.5 3 3 6.5 8.5.
Proof.
  destruct (viewer_stats_same_side {[ "cafe" := cafeStats ]} introvertRatings
              "cafe" (-0.5)) as [_ H].
  destruct (H cafeStats) as [_ H']; [by vm_compute|].
  destruct H' as (stats & Hout & Havg & _).
  - by vm_compute.
  - match goal with |- Forall _ ?l =>
      let l' := eval vm_compute in l in change (Forall (readsAsStored (-0.5)) l')
    end.
    repeat first [apply Forall_nil_2 | apply Forall_cons_2];
      (split; [vm_compute; reflexivity|]);
      intros _; repeat split; apply list_elem_of_In; cbn; tauto.
  - exists stats. split; [exact Hout|]. split; [exact Havg|].
    rewrite Havg. vm_compute. reflexivity.
Defined.

End ViewProps.

(** ** More on the scoring functions *)

Module ScoreProps.
Import JS RatingService Types Firestore RatingStore RatingViews RatingFacts.

Lemma weighted_mono (c c' : RatingCategory) :
  categoriesLe c c' → (weighted c <= weighted c')%Q.
Proof.
  intros H.
  pose proof (H KCrowdSize) as H1. pose proof (H KNoiseLevel) as H2.
  pose proof (H KSocialEnergy) as H3. pose proof (H KService) as H4.
  pose proof (H KAtmosphere) as H5.
  destruct c, c'; unfold weighted; simpl in *. lra.
Qed.

Lemma round1_mono (x y : number) : (x <= y)%Q → (round1 x <= round1 y)%Q.
Proof.
  intros H. unfold round1.
  assert (Hr : (Math_round (x * 10) <= Math_round (y * 10))%Q)
    by (apply Math_round_mono; lra).
  set (a := Math_round (x * 10)%Q) in *. set (b := Math_round (y * 10)%Q) in *.
  apply Qle_shift_div_l; [lra|].
  assert (Heq : (a / 10 * 10 == a)%Q) by (field).
  lra.
Qed.

(** X2. A better rating never scores lower. For a rater who is not an
    introvert the overall score is monotone in all five dimensions. For an
    introvert rater it is monotone in service and atmosphere and antitone in
    crowd size, noise level and social energy. *)
Theorem overall_score_monotone (c c' : RatingCategory) (af : number) :
  (service c <= service c')%Q → (atmosphere c <= atmosphere c')%Q →
  (if isIntrovert af
   then (crowdSize c' <= crowdSize c)%Q ∧ (noiseLevel c' <= noiseLevel c)%Q ∧
        (socialEnergy c' <= socialEnergy c)%Q
   else (crowdSize c <= crowdSize c')%Q ∧ (noiseLevel c <= noiseLevel c')%Q ∧
        (socialEnergy c <= socialEnergy c')%Q) →
  (calculateOverallScore c af <= calculateOverallScore c' af)%Q.
Proof.
  intros Hsv Hat Hsens. unfold calculateOverallScore.
  apply (round1_mono (weighted _) (weighted _)), weighted_mono.
  unfold adjustCategoriesForPersonality, isIntrovert in *.
  destruct (Qle_bool af _); destruct Hsens as (H1 & H2 & H3);
    destruct c, c'; intros []; unfold invertSensitive; simpl in *; lra.
Qed.

Lemma overall_score_monotone_witness :
  (calculateOverallScore scenarioCategories (-(5#10))
   <= calculateOverallScore
        {| crowdSize := 2; noiseLevel := 5; socialEnergy := 7;
           service := 9; atmosphere := 8 |} (-(5#10)))%Q.
Proof.
  apply overall_score_monotone; [by vm_compute..|].
  change (isIntrovert (-(5#10))) with true. repeat split; by vm_compute.
Defined.

(** X4. [getPersonalityBucket] splits the factors at -0.2 and 0.2, both
    borders going to the outer buckets: introvert up to -0.2, extrovert from
    0.2 on, ambivert strictly between. The scoring functions invert the
    sensitive categories for exactly the factors of the introvert bucket, so
    ambiverts and extroverts are scored alike. *)
Theorem personality_buckets (af : number) (c : RatingCategory) :
  (getPersonalityBucket af = introvert ↔ (af <= -(2#10))%Q) ∧
  (getPersonalityBucket af = extrovert ↔ (2#10 <= af)%Q) ∧
  (getPersonalityBucket af = ambivert ↔ (-(2#10) < af ∧ af < 2#10)%Q) ∧
  adjustCategoriesForPersonality c af =
    match getPersonalityBucket af with
    | introvert => invertSensitive c
    | ambivert | extrovert => c
    end ∧
  normalizeCategoriesToObjective c af = adjustCategoriesForPersonality c af.
Proof.
  unfold getPersonalityBucket, adjustCategoriesForPersonality,
    normalizeCategoriesToObjective.
  destruct (Qle_bool af (-(2#10))) eqn:E1.
  - apply Qle_bool_iff in E1.
    repeat split; try done; try (intros; lra).
  - assert (H1 : ¬ (af <= -(2#10))%Q)
      by (intros H; apply Qle_bool_iff in H; congruence).
    destruct (Qle_bool (2#10) af) eqn:E2.
    + apply Qle_bool_iff in E2.
      repeat split; try done; try (intros; lra).
    + assert (H2 : ¬ (2#10 <= af)%Q)
        by (intros H; apply Qle_bool_iff in H; congruence).
      repeat split; try done; try (intros; lra).
Qed.

End ScoreProps.

(** ** The place aggregate *)

Module StatsProps.
Import JS RatingService Types Firestore RatingStore RatingViews StatsSpec.
Import Aggregates RatingFacts AggregateFacts GroupFacts ScoreProps.

Lemma len_cons {A} (x : A) (l : list A) : (len (x :: l) == len l + 1)%Q.
Proof.
  unfold len. cbn [length]. rewrite Nat2Z.inj_succ, <- Z.add_1_r.
  by rewrite inject_Z_plus.
Qed.

Lemma len_nonneg {A} (l : list A) : (0 <= len l)%Q.
Proof. unfold len. change 0%Q with (inject_Z 0). rewrite <- Zle_Qle. lia. Qed.

Lemma len_pos {A} (l : list A) : l ≠ [] → (0 < len l)%Q.
Proof.
  destruct l as [|x l]; [done|]. intros _.
  rewrite len_cons. pose proof (len_nonneg l). lra.
Qed.

Lemma sum_by_from {A} (f : A → number) (l : list A) (acc : number) :
  (fold_left (λ sum r, sum + f r) l acc == acc + sum_by f l)%Q.
Proof.
  unfold sum_by. revert acc. induction l as [|x l IH]; intros acc; simpl.
  - lra.
  - rewrite IH, (IH (0 + f x)%Q). lra.
Qed.

Lemma sum_by_bounds {A} (f : A → number) (l : list A) (lo hi : number) :
  (∀ x, x ∈ l → (lo <= f x <= hi)%Q) →
  (len l * lo <= sum_by f l <= len l * hi)%Q.
Proof.
  induction l as [|x l IH]; intros Hall.
  - unfold sum_by, len. cbn [fold_left length].
    change (inject_Z (Z.of_nat 0)) with 0%Q. lra.
  - unfold sum_by. cbn [fold_left]. rewrite sum_by_from, len_cons.
    destruct IH as [IH1 IH2]; [intros y Hy; apply Hall; by right|].
    destruct (Hall x) as [Hx1 Hx2]; [left|].
    assert (E1 : ((len l + 1) * lo == len l * lo + lo)%Q) by ring.
    assert (E2 : ((len l + 1) * hi == len l * hi + hi)%Q) by ring.
    rewrite E1, E2. split; [|clear E1 E2]; lra.
Qed.

(** The mean of values between 1 and 10 is between 1 and 10. *)
Lemma mean_on_scale {A} (f : A → number) (l : list A) :
  l ≠ [] → (∀ x, x ∈ l → (1 <= f x <= 10)%Q) →
  (1 <= sum_by f l / len l <= 10)%Q.
Proof.
  intros Hne Hall. pose proof (len_pos l Hne) as Hpos.
  destruct (sum_by_bounds f l 1 10 Hall) as [H1 H2]. split.
  - apply Qle_shift_div_l; [done|]. lra.
  - apply Qle_shift_div_r; [done|]. lra.
Qed.

Lemma round1_on_scale (x : number) : (1 <= x <= 10)%Q → (1 <= round1 x <= 10)%Q.
Proof. apply round1_inRange. Qed.

(** A record filled key by key holds, under each key, the value computed
    for that key. *)
Lemma perKey_fold (f : CategoryKey → number) :
  fold_left (λ avg key, setKey key (f key) avg) categoryKeys zeroCategories =
  {| crowdSize := f KCrowdSize; noiseLevel := f KNoiseLevel;
     socialEnergy := f KSocialEnergy; service := f KService;
     atmosphere := f KAtmosphere |}.
Proof. reflexivity. Qed.

Lemma bucketCount_cons (b : Bucket) (r : Rating.t) (l : list Rating.t) :
  bucketCount b (r :: l) =
  ((if bool_decide (getPersonalityBucket (Rating.userAdjustmentFactor r) = b)
    then 1 else 0) + bucketCount b l)%Z.
Proof.
  unfold bucketCount. cbn [List.filter].
  destruct (bool_decide _); cbn [length]; lia.
Qed.

Lemma bucketCount_total (l : list Rating.t) :
  (bucketCount introvert l + bucketCount ambivert l + bucketCount extrovert l)%Z
  = Z.of_nat (length l).
Proof.
  induction l as [|r l IH]; [done|].
  rewrite !bucketCount_cons. cbn [length]. rewrite Nat2Z.inj_succ, <- IH.
  destruct (getPersonalityBucket _); simpl; lia.
Qed.

Lemma accumulate_counts (l : list Rating.t) (bp : ByPersonality) :
  let bp' := fold_left accumulate l bp in
  count (ofIntrovert bp') = (count (ofIntrovert bp) + bucketCount introvert l)%Z ∧
  count (ofAmbivert bp') = (count (ofAmbivert bp) + bucketCount ambivert l)%Z ∧
  count (ofExtrovert bp') = (count (ofExtrovert bp) + bucketCount extrovert l)%Z.
Proof.
  revert bp. induction l as [|r l IH]; intros bp; cbn zeta.
  - unfold bucketCount; simpl. lia.
  - cbn [fold_left]. destruct (IH (accumulate bp r)) as (H1 & H2 & H3).
    rewrite H1, H2, H3, !bucketCount_cons. unfold accumulate.
    destruct (getPersonalityBucket _); simpl; lia.
Qed.

Lemma finishBucket_count (b : BucketStats) : count (finishBucket b) = count b.
Proof. unfold finishBucket. by destruct (0 <? count b)%Z. Qed.

(** X5. The aggregate counts every rating once: [totalRatings] is the number
    of ratings, the three [byPersonality] counts are the numbers of ratings
    whose rater's factor is at most -0.2, strictly between -0.2 and 0.2, and
    at least 0.2, and the three counts add up to [totalRatings]. *)
Theorem place_stats_counts (now : string) (ratings : list Rating.t) :
  let stats := calculatePlaceStats now ratings in
  let by_ := PlaceStats.byPersonality stats in
  (∀ af, (getPersonalityBucket af = introvert ↔ (af <= -(2#10))%Q) ∧
         (getPersonalityBucket af = extrovert ↔ ((2#10) <= af)%Q) ∧
         (getPersonalityBucket af = ambivert ↔
            (-(2#10) < af)%Q ∧ (af < 2#10)%Q)) ∧
  PlaceStats.totalRatings stats = Z.of_nat (length ratings) ∧
  count (ofIntrovert by_) = bucketCount introvert ratings ∧
  count (ofAmbivert by_) = bucketCount ambivert ratings ∧
  count (ofExtrovert by_) = bucketCount extrovert ratings ∧
  (count (ofIntrovert by_) + count (ofAmbivert by_) + count (ofExtrovert by_))%Z
    = PlaceStats.totalRatings stats.
Proof.
  cbn zeta. split.
  { intros af. unfold getPersonalityBucket.
    destruct (Qle_bool af (-(2#10))) eqn:E1; destruct (Qle_bool (2#10) af) eqn:E2;
      try (apply Qle_bool_iff in E1); try (apply Qle_bool_iff in E2);
      try (assert (¬ (af <= -(2#10))%Q)
             by (rewrite <- Qle_bool_iff; congruence));
      try (assert (¬ ((2#10) <= af)%Q)
             by (rewrite <- Qle_bool_iff; congruence));
      repeat split; intros; try done; try lra;
      try (by apply Qnot_le_lt). }
  assert (Hc : PlaceStats.totalRatings (calculatePlaceStats now ratings)
               = Z.of_nat (length ratings) ∧
          count (ofIntrovert (PlaceStats.byPersonality
                   (calculatePlaceStats now ratings)))
            = bucketCount introvert ratings ∧
          count (ofAmbivert (PlaceStats.byPersonality
                   (calculatePlaceStats now ratings)))
            = bucketCount ambivert ratings ∧
          count (ofExtrovert (PlaceStats.byPersonality
                   (calculatePlaceStats now ratings)))
            = bucketCount extrovert ratings).
  { destruct ratings as [|r l]; [done|].
    unfold calculatePlaceStats. cbn [PlaceStats.totalRatings
      PlaceStats.byPersonality ofIntrovert ofAmbivert ofExtrovert].
    rewrite !finishBucket_count.
    destruct (accumulate_counts (r :: l)
                {| ofIntrovert := emptyBucket; ofAmbivert := emptyBucket;
                   ofExtrovert := emptyBucket |}) as (H1 & H2 & H3).
    rewrite H1, H2, H3. simpl. done. }
  destruct Hc as (H0 & H1 & H2 & H3). repeat split; try done.
  rewrite H0, H1, H2, H3. apply bucketCount_total.
Qed.

Lemma bucketSum_empty : bucketSum emptyBucket.
Proof. repeat split; simpl; (lia || lra || done). Qed.

Lemma bucketSum_add (b : BucketStats) (score : number) :
  bucketSum b → (1 <= score <= 10)%Q → bucketSum (addToBucket b score).
Proof.
  intros (Hc & [Hlo Hhi] & _) [Hs1 Hs2]. unfold addToBucket, bucketSum.
  cbn [count avgScore]. split; [lia|]. split; [|lia].
  rewrite inject_Z_plus. change (inject_Z 1) with 1%Q. lra.
Qed.

Lemma accumulate_bucketSum (l : list Rating.t) (bp : ByPersonality) :
  Forall onScale l →
  bucketSum (ofIntrovert bp) → bucketSum (ofAmbivert bp) →
  bucketSum (ofExtrovert bp) →
  let bp' := fold_left accumulate l bp in
  bucketSum (ofIntrovert bp') ∧ bucketSum (ofAmbivert bp') ∧
  bucketSum (ofExtrovert bp').
Proof.
  intros Hl. revert bp. induction Hl as [|r l [_ Hr] Hl IH]; intros bp H1 H2 H3.
  - done.
  - cbn [fold_left]. apply IH; unfold accumulate;
      destruct (getPersonalityBucket _); simpl; try done;
      by apply bucketSum_add.
Qed.

Lemma finishBucket_on_scale (b : BucketStats) :
  bucketSum b → bucketOnScale (finishBucket b).
Proof.
  intros (Hc & [Hlo Hhi] & Hzero). unfold bucketOnScale.
  rewrite finishBucket_count. unfold finishBucket.
  destruct (0 <? count b)%Z eqn:E; simpl.
  - apply Z.ltb_lt in E. apply round1_on_scale.
    assert (Hpos : (0 < inject_Z (count b))%Q)
      by (change 0%Q with (inject_Z 0); by rewrite <- Zlt_Qlt).
    split.
    + apply Qle_shift_div_l; [done|]. lra.
    + apply Qle_shift_div_r; [done|]. lra.
  - apply Z.ltb_ge in E. assert (count b = 0%Z) as H0 by lia.
    by rewrite (Hzero H0).
Qed.

(** X6. When every rating of a non-empty set has its categories and its
    overall score on the 1-10 scale, so has the aggregate: the average
    overall score and the five average categories lie in [[1,10]], and each
    personality bucket either is empty with average 0 or has an average in
    [[1,10]]. *)
Theorem place_stats_on_scale (now : string) (ratings : list Rating.t) :
  ratings ≠ [] → Forall onScale ratings →
  let stats := calculatePlaceStats now ratings in
  (1 <= PlaceStats.avgOverallScore stats <= 10)%Q ∧
  inRange (PlaceStats.avgCategories stats) = true ∧
  bucketOnScale (ofIntrovert (PlaceStats.byPersonality stats)) ∧
  bucketOnScale (ofAmbivert (PlaceStats.byPersonality stats)) ∧
  bucketOnScale (ofExtrovert (PlaceStats.byPersonality stats)).
Proof.
  intros Hne Hall. destruct ratings as [|r l]; [done|]. cbn zeta.
  set (rs := r :: l) in *. rewrite Forall_forall in Hall.
  unfold calculatePlaceStats. fold rs.
  cbn [PlaceStats.avgOverallScore PlaceStats.avgCategories
       PlaceStats.byPersonality ofIntrovert ofAmbivert ofExtrovert].
  split; [|split].
  - apply round1_on_scale, mean_on_scale; [done|].
    intros x Hx. by apply Hall.
  - apply inRange_spec. intros key.
    assert (Hk : ∀ k, (1 <= round1 (sum_by (λ r0, getKey k (Rating.categories r0)) rs
                                    / len rs) <= 10)%Q).
    { intros k. apply round1_on_scale, mean_on_scale; [done|].
      intros x Hx. destruct (Hall x Hx) as [Hin _].
      rewrite inRange_spec in Hin. apply Hin. }
    rewrite (perKey_fold (λ k, round1 (sum_by (λ r0, getKey k (Rating.categories r0)) rs
                                       / len rs))).
    destruct key; cbn [getKey crowdSize noiseLevel socialEnergy service
                       atmosphere].
    + exact (Hk KCrowdSize).
    + exact (Hk KNoiseLevel).
    + exact (Hk KSocialEnergy).
    + exact (Hk KService).
    + exact (Hk KAtmosphere).
  - destruct (accumulate_bucketSum rs
                {| ofIntrovert := emptyBucket; ofAmbivert := emptyBucket;
                   ofExtrovert := emptyBucket |}) as (H1 & H2 & H3);
      [by apply Forall_forall | apply bucketSum_empty..|].
    repeat split; by apply finishBucket_on_scale.
Qed.

Lemma place_stats_on_scale_witness :
  let r := {| Rating.userId := "ana"; Rating.userAdjustmentFactor := -(5#10);
              Rating.userPersonalityType := ""; Rating.placeId := "cafe";
              Rating.placeName := ""; Rating.placeAddress := "";
              Rating.location := {| lat := 0; lng := 0 |};
              Rating.categories := scenarioCategories;
              Rating.overallScore := 61#10; Rating.comment := "";
              Rating.createdAt := ""; Rating.updatedAt := "" |} in
  (1 <= PlaceStats.avgOverallScore (calculatePlaceStats "t" [r]) <= 10)%Q.
Proof.
  intros r. apply (place_stats_on_scale "t" [r]); [done|].
  constructor; [|constructor]. split; [reflexivity | by vm_compute].
Defined.

End StatsProps.

(** ** Ratings: errors, Algolia, round trip *)

Module StoreProps.
Import JS RatingService Types Firestore RatingStore RatingViews StatsSpec.
Import Aggregates RatingFacts AggregateFacts GroupFacts.

(** X8. An id that names no rating document is rejected by [updateRating] and
    by [deleteRating] with "Rating not found", nothing is written, and
    [getRatingById] answers [null]. *)
Theorem unknown_rating_rejected (algolia : bool) (db : Db) (ratingId : string)
    (updates : RatingUpdates) (now : string) :
  ratings db !! ratingId = None →
  updateRating ratingId updates now db = (db, Throw "Rating not found") ∧
  deleteRating algolia ratingId now db = (db, Throw "Rating not found") ∧
  getRatingById ratingId db = (db, Ok None).
Proof.
  intros Hnone.
  assert (Hget : docGet ratingsCol ratingId db = (db, Ok None)).
  { unfold docGet. change (docs ratingsCol db) with (ratings db).
    by rewrite Hnone. }
  unfold updateRating, deleteRating, getRatingById.
  split; [|split]; [| |exact Hget]; by erewrite outcome_bind_ok by exact Hget.
Qed.

Lemma unknown_rating_rejected_witness :
  deleteRating true "r9" "t" Examples.oneRating
    = (Examples.oneRating, Throw "Rating not found").
Proof.
  apply (unknown_rating_rejected true Examples.oneRating "r9"
           Examples.noUpdates "t").
  by vm_compute.
Defined.

(** What [createRating] leaves in the database and what it answers. *)
Lemma createRating_run (algolia : bool)
    (newId userId p pn pa : string) (loc : LatLng) (c : RatingCategory)
    (comment : string) (af : number) (pt now : string) (db : Db) :
  let r := {| Rating.userId := userId; Rating.userAdjustmentFactor := af;
              Rating.userPersonalityType := pt; Rating.placeId := p;
              Rating.placeName := pn; Rating.placeAddress := pa;
              Rating.location := loc; Rating.categories := c;
              Rating.overallScore := calculateOverallScore c af;
              Rating.comment := comment; Rating.createdAt := now;
              Rating.updatedAt := now |} in
  ∃ place,
    let db2 := withDocs placesCol (<[p := place]> (places db))
                 (withDocs ratingsCol (<[newId := r]> (ratings db)) db) in
    createRating algolia newId userId p pn pa loc c comment af pt now db =
      if algolia
      then match updateUserRatingStats userId loc db2 with
           | (db3, Ok _) => (db3, Ok (newId, r))
           | (db3, Throw e) => (db3, Throw e)
           end
      else (db2, Throw "Algolia credentials missing").
Proof.
  intros r. unfold createRating. fold r.
  set (db1 := withDocs ratingsCol (<[newId := r]> (ratings db)) db).
  destruct (updatePlaceStats_run p pn pa loc (calculateOverallScore c af) c af
              pt now db1) as (place & _ & Hrun).
  exists place. cbn zeta. fold db1.
  set (db2 := withDocs placesCol (<[p := place]> (places db)) db1).
  change (places db1) with (places db) in Hrun. fold db2 in Hrun.
  erewrite (outcome_bind_ok (docSet _ _ _)) by reflexivity. fold db1.
  erewrite outcome_bind_ok by exact Hrun.
  erewrite (outcome_bind_ok (docGet _ _)) by reflexivity.
  replace (docs placesCol db2 !! p) with (Some place)
    by (symmetry; apply lookup_insert_eq).
  unfold syncPlaceToAlgolia. destruct algolia.
  - erewrite (outcome_bind_ok (mret tt)) by reflexivity.
    unfold mbind, M_bind.
    by destruct (updateUserRatingStats userId loc db2) as [db3 [[]|e]].
  - by erewrite (outcome_bind_throw (throw _)) by reflexivity.
Qed.

Lemma updateUserRatingStats_run (userId : string) (loc : LatLng) (db : Db) :
  updateUserRatingStats userId loc db =
    match users db !! userId with
    | Some u =>
        (withDocs usersCol
           (<[userId :=
                {| User.displayName := User.displayName u;
                   User.discordId := User.discordId u;
                   User.adjustmentFactor := User.adjustmentFactor u;
                   User.personalityType := User.personalityType u;
                   User.lastRatedPlaceLocation := Some loc;
                   User.totalRatingsCount :=
                     Some (default 0 (User.totalRatingsCount u) + 1)%Z;
                   User.totalGroupsJoined := User.totalGroupsJoined u |}]>
              (users db)) db, Ok tt)
    | None => (db, Ok tt)
    end.
Proof.
  unfold updateUserRatingStats.
  erewrite (outcome_bind_ok (docGet _ _)) by reflexivity.
  change (docs usersCol db) with (users db).
  destruct (users db !! userId) as [u|] eqn:E; [|done].
  unfold docUpdate. change (docs usersCol db) with (users db). by rewrite E.
Qed.

(** X9. [createRating] stores the rating, with
    [overallScore = calculateOverallScore(categories, userAdjustmentFactor)],
    and the place document before it talks to Algolia. Without Algolia
    credentials it then rejects with "Algolia credentials missing": the rating
    and the place stay stored and no user document is touched. With Algolia
    it resolves with the rating, and a rater who has a user document gets
    [lastRatedPlaceLocation] set and [totalRatingsCount] raised by one
    (counted from 0 when the field is missing). *)
Theorem create_rating_and_algolia (algolia : bool)
    (newId userId p pn pa : string) (loc : LatLng) (c : RatingCategory)
    (comment : string) (af : number) (pt now : string) (db : Db) :
  let m := createRating algolia newId userId p pn pa loc c comment af pt now in
  let r := {| Rating.userId := userId; Rating.userAdjustmentFactor := af;
              Rating.userPersonalityType := pt; Rating.placeId := p;
              Rating.placeName := pn; Rating.placeAddress := pa;
              Rating.location := loc; Rating.categories := c;
              Rating.overallScore := calculateOverallScore c af;
              Rating.comment := comment; Rating.createdAt := now;
              Rating.updatedAt := now |} in
  ratings (exec m db) !! newId = Some r ∧
  is_Some (places (exec m db) !! p) ∧
  (algolia = false →
   outcome m db = Throw "Algolia credentials missing" ∧
   users (exec m db) = users db) ∧
  (algolia = true →
   outcome m db = Ok (newId, r) ∧
   match users db !! userId with
   | Some u =>
       ∃ u', users (exec m db) !! userId = Some u' ∧
             User.lastRatedPlaceLocation u' = Some loc ∧
             User.totalRatingsCount u' =
               Some (default 0 (User.totalRatingsCount u) + 1)%Z
   | None => users (exec m db) = users db
   end).
Proof.
  intros m r.
  destruct (createRating_run algolia newId userId p pn pa loc c comment af pt
              now db) as (place & Hrun).
  cbn zeta in Hrun. fold r in Hrun. unfold exec, outcome, m. rewrite Hrun.
  clear Hrun. destruct algolia.
  - rewrite updateUserRatingStats_run.
    change (users (withDocs placesCol _ _)) with (users db).
    destruct (users db !! userId) as [u|] eqn:Hu;
      cbn [fst snd places ratings users withDocs placesCol ratingsCol usersCol];
      rewrite !lookup_insert_eq.
    + split; [done|]. split; [done|]. split; [done|]. intros _. split; [done|].
      eexists. split; [reflexivity|]. done.
    + split; [done|]. split; [done|]. split; [done|]. intros _. by split.
  - cbn [fst snd places ratings users withDocs placesCol ratingsCol usersCol].
    rewrite !lookup_insert_eq.
    split; [done|]. split; [done|]. split; [|done]. intros _. by split.
Qed.

Lemma create_rating_and_algolia_witness :
  outcome (createRating false "r1" "ana" "cafe" "Brew & Co" "123 Main St"
             Examples.downtown scenarioCategories "quiet" (-(5#10)) "Introvert"
             "2024-01-01") Examples.usersOnly
    = Throw "Algolia credentials missing" ∧
  users (exec (createRating false "r1" "ana" "cafe" "Brew & Co" "123 Main St"
                 Examples.downtown scenarioCategories "quiet" (-(5#10))
                 "Introvert" "2024-01-01") Examples.usersOnly)
    = users Examples.usersOnly.
Proof.
  destruct (create_rating_and_algolia false "r1" "ana" "cafe" "Brew & Co"
              "123 Main St" Examples.downtown scenarioCategories "quiet"
              (-(5#10)) "Introvert" "2024-01-01" Examples.usersOnly)
    as (_ & _ & H & _).
  exact (H eq_refl).
Defined.

(** X10. Creating a rating under a fresh id and deleting it again restores
    the ratings collection and the set of place documents. If the place had
    no rating before, the places collection is restored as a whole; if it
    had, its aggregate is the one recomputed from the original ratings. *)
Theorem create_then_delete (a1 a2 : bool)
    (newId userId p pn pa : string) (loc : LatLng) (c : RatingCategory)
    (comment : string) (af : number) (pt now now' : string) (db : Db) :
  aggregateInvariant db → ratings db !! newId = None →
  let db1 := exec (runOp a1 (CreateRating newId userId p pn pa loc c comment
                               af pt now)) db in
  let db2 := exec (runOp a2 (DeleteRating newId now')) db1 in
  ratings db2 = ratings db ∧
  dom (places db2) = dom (places db) ∧
  (placeRatings db p = [] → places db2 = places db) ∧
  (∀ place, places db2 !! p = Some place →
            Place.stats place = calculatePlaceStats now' (placeRatings db p)).
Proof.
  intros Hinv Hfresh db1 db2.
  destruct (createRating_effect a1 newId userId p pn pa loc c comment af pt now
              db db1 eq_refl) as (r & place & Hp & Hr1 & Hp1 & _).
  assert (Hr : ratings db1 !! newId = Some r)
    by (rewrite Hr1; apply lookup_insert_eq).
  destruct (deleteRating_effect a2 newId now' r db1 db2 eq_refl Hr) as [Hr2 Hp2].
  rewrite Hp in Hp2.
  assert (Hrs : ratings db2 = ratings db)
    by (rewrite Hr2, Hr1; by apply delete_insert_id).
  rewrite (placeRatings_ext db2 db p Hrs) in Hp2.
  rewrite aggregateInvariant_spec in Hinv.
  assert (Hrated : placeRatings db p ≠ [] ↔ is_Some (places db !! p)).
  { rewrite placeRatings_nonempty, elem_of_ratedPlaces. symmetry. apply Hinv. }
  rewrite Hp1, lookup_insert_eq in Hp2.
  split; [done|]. destruct (placeRatings db p) as [|r0 l] eqn:E.
  - assert (Hnone : places db !! p = None).
    { destruct (places db !! p) eqn:E'; [|done].
      exfalso. by apply (proj2 Hrated). }
    assert (Hps : places db2 = places db)
      by (rewrite Hp2; by apply delete_insert_id).
    split; [by rewrite Hps|]. split; [done|].
    intros pl Hpl. rewrite Hps, Hnone in Hpl. done.
  - rewrite Hp2. split; [|split; [done|]].
    + rewrite insert_insert_eq, dom_insert_L.
      apply subseteq_union_1_L, singleton_subseteq_l, elem_of_dom, Hrated.
      done.
    + intros pl. rewrite lookup_insert_eq. by intros [= <-].
Qed.

Lemma create_then_delete_witness :
  ratings (exec (runOp false (DeleteRating "r1" "2024-02-01")) Examples.oneRating)
    = ratings Examples.usersOnly.
Proof.
  apply (create_then_delete false false "r1" "ana" "cafe" "Brew & Co"
           "123 Main St" Examples.downtown scenarioCategories "quiet"
           (-(5#10)) "Introvert" "2024-01-01" "2024-02-01" Examples.usersOnly).
  - by vm_compute.
  - by vm_compute.
Defined.

(** X11. [updateRating] of an existing rating resolves and touches no user.
    It writes every field the update carries (the place id, the rater, the
    rater's factor and the creation time among them) and keeps the others,
    except that [updatedAt] becomes the time of the write whatever the update
    carries. New categories replace the old ones and the overall score is
    then the one calculated from them with the factor the rating had before
    the update, whatever overall score or factor the update carries; without
    new categories the categories stay and a given overall score is written.
    Only the aggregate of the place the rating had before the update can
    change, and an update that carries neither categories nor an overall
    score other than 0 leaves the places collection as it is. *)
Theorem update_rating_fields (ratingId : string) (updates : RatingUpdates)
    (now : string) (r : Rating.t) (db : Db) :
  ratings db !! ratingId = Some r →
  let db' := exec (updateRating ratingId updates now) db in
  outcome (updateRating ratingId updates now) db = Ok tt ∧
  users db' = users db ∧
  (u_categories updates = None →
   (∀ s, u_overallScore updates = Some s → (s == 0)%Q) →
   places db' = places db) ∧
  (∀ p, p ≠ Rating.placeId r → places db' !! p = places db !! p) ∧
  ∃ r',
    ratings db' = <[ratingId := r']> (ratings db) ∧
    Rating.placeId r' = default (Rating.placeId r) (u_placeId updates) ∧
    Rating.placeName r' = default (Rating.placeName r) (u_placeName updates) ∧
    Rating.placeAddress r' =
      default (Rating.placeAddress r) (u_placeAddress updates) ∧
    Rating.location r' = default (Rating.location r) (u_location updates) ∧
    Rating.userId r' = default (Rating.userId r) (u_userId updates) ∧
    Rating.userAdjustmentFactor r' =
      default (Rating.userAdjustmentFactor r) (u_userAdjustmentFactor updates) ∧
    Rating.userPersonalityType r' =
      default (Rating.userPersonalityType r) (u_userPersonalityType updates) ∧
    Rating.createdAt r' = default (Rating.createdAt r) (u_createdAt updates) ∧
    Rating.updatedAt r' = now ∧
    Rating.comment r' = default (Rating.comment r) (u_comment updates) ∧
    match u_categories updates with
    | Some c =>
        Rating.categories r' = c ∧
        Rating.overallScore r' =
          calculateOverallScore c (Rating.userAdjustmentFactor r)
    | None =>
        Rating.categories r' = Rating.categories r ∧
        Rating.overallScore r' =
          default (Rating.overallScore r) (u_overallScore updates)
    end.
Proof.
  intros Hr db'. unfold db', exec, outcome, updateRating.
  erewrite (outcome_bind_ok (docGet _ _)) by reflexivity.
  change (docs ratingsCol db) with (ratings db). rewrite Hr.
  match goal with |- context [docUpdate ratingsCol ratingId ?g] =>
    set (f := g) end.
  assert (Hupd : docUpdate ratingsCol ratingId f db =
                 (withDocs ratingsCol (<[ratingId := f r]> (ratings db)) db, Ok tt)).
  { unfold docUpdate. change (docs ratingsCol db) with (ratings db).
    by rewrite Hr. }
  erewrite outcome_bind_ok by exact Hupd.
  set (db1 := withDocs ratingsCol _ db).
  assert (Hfields : ∃ r', <[ratingId := f r]> (ratings db)
                          = <[ratingId := r']> (ratings db) ∧
    Rating.placeId r' = default (Rating.placeId r) (u_placeId updates) ∧
    Rating.placeName r' = default (Rating.placeName r) (u_placeName updates) ∧
    Rating.placeAddress r' =
      default (Rating.placeAddress r) (u_placeAddress updates) ∧
    Rating.location r' = default (Rating.location r) (u_location updates) ∧
    Rating.userId r' = default (Rating.userId r) (u_userId updates) ∧
    Rating.userAdjustmentFactor r' =
      default (Rating.userAdjustmentFactor r) (u_userAdjustmentFactor updates) ∧
    Rating.userPersonalityType r' =
      default (Rating.userPersonalityType r) (u_userPersonalityType updates) ∧
    Rating.createdAt r' = default (Rating.createdAt r) (u_createdAt updates) ∧
    Rating.updatedAt r' = now ∧
    Rating.comment r' = default (Rating.comment r) (u_comment updates) ∧
    match u_categories updates with
    | Some c =>
        Rating.categories r' = c ∧
        Rating.overallScore r' =
          calculateOverallScore c (Rating.userAdjustmentFactor r)
    | None =>
        Rating.categories r' = Rating.categories r ∧
        Rating.overallScore r' =
          default (Rating.overallScore r) (u_overallScore updates)
    end).
  { exists (f r). do 11 (split; [reflexivity|]). unfold f.
    cbn [Rating.categories Rating.overallScore].
    by destruct (u_categories updates). }
  destruct (statsAffected updates) eqn:Haff.
  - match goal with |- context [updatePlaceStats ?a ?b ?c ?d ?e ?g ?h ?i ?j] =>
      destruct (updatePlaceStats_run a b c d e g h i j db1)
        as (place & _ & Hrun) end.
    rewrite Hrun. cbn [fst snd]. split; [done|]. split; [done|]. split.
    { intros Hc Hs. exfalso. unfold statsAffected in Haff. rewrite Hc in Haff.
      destruct (u_overallScore updates) as [s|]; [|done].
      unfold truthy in Haff. apply negb_true_iff, not_true_iff_false in Haff.
      by apply Haff, Qeq_bool_iff, Hs. }
    split; [|exact Hfields].
    intros p Hp. change (places (withDocs placesCol ?m _)) with m.
    by rewrite lookup_insert_ne.
  - cbn [fst snd mret M_ret]. split; [done|]. split; [done|]. split; [done|].
    split; [done|]. exact Hfields.
Qed.

Lemma update_rating_fields_witness :
  let updates := Examples.newCategories ExploreExamples.lively in
  ∃ r', ratings (exec (updateRating "r1" updates "2024-02-01") Examples.oneRating)
          = <["r1" := r']> (ratings Examples.oneRating) ∧
        Rating.overallScore r' =
          calculateOverallScore ExploreExamples.lively (-(5#10)).
Proof.
  intros updates.
  assert (Hr : ∃ r, ratings Examples.oneRating !! "r1" = Some r ∧
                    Rating.userAdjustmentFactor r = (-(5#10))%Q)
    by (eexists; split; by vm_compute).
  destruct Hr as (r & Hr & Haf).
  destruct (update_rating_fields "r1" updates "2024-02-01" r Examples.oneRating Hr)
    as (_ & _ & _ & _ & r' & Hrs & _ & _ & _ & _ & _ & _ & _ & _ & _ & _ & Hc).
  exists r'. split; [exact Hrs|]. cbn [u_categories updates Examples.newCategories] in Hc.
  rewrite <- Haf. exact (proj2 Hc).
Defined.

End StoreProps.

(** ** Group service: users, members and votes *)

Module MemberFacts.
Import JS Types Firestore JSArray GroupService GroupMembers.
Import AggregateFacts GroupFacts.

Lemma getUser_found (userId : string) (u : User.t) (db : Db) :
  users db !! userId = Some u →
  getUserByIdOrDiscordId userId db = (db, Ok (userId, u)).
Proof.
  intros Hu. unfold getUserByIdOrDiscordId.
  erewrite (outcome_bind_ok (docGet _ _)) by reflexivity.
  change (docs usersCol db) with (users db). by rewrite Hu.
Qed.

(** Whatever id is resolved names a user document. *)
Lemma getUser_resolved (userId firebaseId : string) (u : User.t) (db : Db) :
  outcome (getUserByIdOrDiscordId userId) db = Ok (firebaseId, u) →
  users db !! firebaseId = Some u ∧
  (firebaseId = userId ∨
   users db !! userId = None ∧ User.discordId u = Some userId).
Proof.
  unfold outcome, getUserByIdOrDiscordId.
  erewrite (outcome_bind_ok (docGet _ _)) by reflexivity.
  change (docs usersCol db) with (users db).
  destruct (users db !! userId) as [u0|] eqn:Hu.
  - intros [= <- <-]. split; [done|by left].
  - erewrite (outcome_bind_ok (docQuery _ _)) by reflexivity.
    destruct (List.filter _ _) as [|[k v] rest] eqn:E; [done|].
    intros [= -> ->].
    assert (Hin : In (firebaseId, u)
                    (List.filter (λ kv : string * User.t,
                       bool_decide (User.discordId kv.2 = Some userId))
                       (map_to_list (docs usersCol db))))
      by (rewrite E; left; done).
    apply filter_In in Hin as [Hin Hd].
    apply list_elem_of_In, elem_of_map_to_list in Hin.
    apply bool_decide_eq_true in Hd. split; [done|]. right. by split.
Qed.

Lemma getUser_missing (userId : string) (db : Db) :
  users db !! userId = None →
  (∀ k u, users db !! k = Some u → User.discordId u ≠ Some userId) →
  getUserByIdOrDiscordId userId db =
    (db, Throw ("User " +:+ userId +:+ " not found")).
Proof.
  intros Hu Hnone. unfold getUserByIdOrDiscordId.
  erewrite (outcome_bind_ok (docGet _ _)) by reflexivity.
  change (docs usersCol db) with (users db). rewrite Hu.
  erewrite (outcome_bind_ok (docQuery _ _)) by reflexivity.
  destruct (List.filter _ _) as [|[k v] rest] eqn:E; [done|]. exfalso.
  assert (Hin : In (k, v)
                  (List.filter (λ kv : string * User.t,
                     bool_decide (User.discordId kv.2 = Some userId))
                     (map_to_list (docs usersCol db))))
    by (rewrite E; left; done).
  apply filter_In in Hin as [Hin Hd].
  apply list_elem_of_In, elem_of_map_to_list in Hin.
  apply bool_decide_eq_true in Hd. by eapply Hnone.
Qed.

Lemma updateUserGroupStats_groups (userId : string) (inc : Z) (db : Db) :
  ∃ db', updateUserGroupStats userId inc db = (db', Ok tt) ∧
         groups db' = groups db ∧
         (users db !! userId = None → db' = db) ∧
         (∀ u, users db !! userId = Some u →
               ∃ u', users db' = <[userId := u']> (users db) ∧
                     User.totalGroupsJoined u' =
                       Some (default 0 (User.totalGroupsJoined u) + inc)%Z).
Proof.
  unfold updateUserGroupStats.
  erewrite (outcome_bind_ok (docGet _ _)) by reflexivity.
  change (docs usersCol db) with (users db).
  destruct (users db !! userId) as [u|] eqn:E.
  - unfold docUpdate. change (docs usersCol db) with (users db). rewrite E.
    eexists. split; [reflexivity|]. split; [done|]. split; [done|].
    intros u0 [= <-]. eexists. split; [reflexivity|]. done.
  - eexists. split; [reflexivity|]. by repeat split.
Qed.

Lemma removeMember_run (groupId userId : string) (g : Group.t) (db : Db) :
  groups db !! groupId = Some g →
  removeMember groupId userId db =
    match outcome (getUserByIdOrDiscordId userId) db with
    | Throw e => (db, Throw e)
    | Ok userData =>
        if bool_decide (Group.createdBy g = userData.1)
           && (1 <? length (Group.members g))
        then (db, Throw "Creator cannot leave group. Disband the group instead.")
        else (withDocs groupsCol
                (<[groupId := withVotes (delete userData.1 (Group.votes g))
                                (withoutMember userData.1 g)]> (groups db)) db,
              Ok tt)
    end.
Proof.
  intros Hg. unfold removeMember.
  erewrite (outcome_bind_ok (docGet _ _)) by reflexivity.
  change (docs groupsCol db) with (groups db). rewrite Hg.
  pose proof (getUser_run userId db) as Hu.
  destruct (outcome (getUserByIdOrDiscordId userId) db) as [ud|e].
  - erewrite outcome_bind_ok by exact Hu. cbn zeta.
    destruct (_ && _); [done|].
    erewrite (outcome_bind_ok (docUpdate _ _ _));
      [|unfold docUpdate; change (docs groupsCol db) with (groups db);
        by rewrite Hg].
    unfold docUpdate.
    cbn [docs withDocs groupsCol groups]. rewrite lookup_insert_eq.
    by rewrite insert_insert_eq.
  - by erewrite outcome_bind_throw by exact Hu.
Qed.

Lemma addMember_run (groupId userId : string) (g : Group.t) (db : Db) :
  groups db !! groupId = Some g →
  ∃ db', 
    addMember groupId userId db =
      match outcome (getUserByIdOrDiscordId userId) db with
      | Throw e => (db, Throw e)
      | Ok userData =>
          if bool_decide (userData.1 ∈ Group.members g)
          then (db, Throw "User already in group")
          else (db', Ok tt)
      end ∧
    ∀ userData,
      outcome (getUserByIdOrDiscordId userId) db = Ok userData →
      groups db' =
        <[groupId := withMember userData.1
                       (memberProfile userData.1 userData.2) g]> (groups db) ∧
      ∃ u', users db' = <[userData.1 := u']> (users db) ∧
            User.totalGroupsJoined u' =
              Some (default 0 (User.totalGroupsJoined userData.2) + 1)%Z.
Proof.
  intros Hg. unfold addMember.
  pose proof (getUser_run userId db) as Hu.
  destruct (outcome (getUserByIdOrDiscordId userId) db) as [[fid u]|e] eqn:Hout.
  - set (db1 := withDocs groupsCol
                  (<[groupId := withMember fid (memberProfile fid u) g]>
                     (groups db)) db).
    destruct (updateUserGroupStats_groups fid 1 db1)
      as (db' & Hrun & Hgroups & _ & Husers).
    exists db'. split.
    + erewrite (outcome_bind_ok (docGet _ _)) by reflexivity.
      change (docs groupsCol db) with (groups db). rewrite Hg.
      erewrite outcome_bind_ok by exact Hu. cbn zeta. cbn [fst snd].
      destruct (bool_decide _); [done|].
      erewrite (outcome_bind_ok (docUpdate _ _ _));
        [|unfold docUpdate; change (docs groupsCol db) with (groups db);
          by rewrite Hg].
      exact Hrun.
    + intros ud [= <-]. cbn [fst snd]. split; [by rewrite Hgroups|].
      apply getUser_resolved in Hout as [Hfid _].
      destruct (Husers u) as (u' & Hu' & Hcount); [exact Hfid|].
      by exists u'.
  - exists db. split.
    + erewrite (outcome_bind_ok (docGet _ _)) by reflexivity.
      change (docs groupsCol db) with (groups db). rewrite Hg.
      by erewrite outcome_bind_throw by exact Hu.
    + intros ud Hud. done.
Qed.

Lemma elem_of_arrayRemove (l : list string) (x y : string) :
  y ∈ arrayRemove l x ↔ y ∈ l ∧ y ≠ x.
Proof.
  unfold arrayRemove. rewrite !list_elem_of_In, filter_In, negb_true_iff.
  by rewrite String.eqb_neq.
Qed.

Lemma elem_of_arrayUnion (l : list string) (x y : string) :
  y ∈ arrayUnion l x ↔ y ∈ l ∨ y = x.
Proof.
  unfold arrayUnion. case_bool_decide as Hin.
  - split; [by left|]. intros [?| ->]; done.
  - rewrite elem_of_app, list_elem_of_singleton. done.
Qed.

Lemma attempt_getUser_run (userId : string) (db : Db) :
  attempt (getUserByIdOrDiscordId userId) db =
    (db, Ok match outcome (getUserByIdOrDiscordId userId) db with
            | Ok data => Some data
            | Throw _ => None
            end).
Proof.
  unfold attempt. rewrite getUser_run.
  by destruct (outcome (getUserByIdOrDiscordId userId) db).
Qed.

(** The ids [createGroup] collects: those the given ids resolve to. *)
Lemma resolveMembers_run (memberIds : list string) (db : Db) :
  ∃ resolved,
    resolveMembers memberIds db = (db, Ok resolved) ∧
    (∀ m, m ∈ resolved ↔
          ∃ memberId u, memberId ∈ memberIds ∧
            outcome (getUserByIdOrDiscordId memberId) db = Ok (m, u)).
Proof.
  induction memberIds as [|memberId rest (resolved & Hrun & Hres)].
  - exists []. split; [done|]. intros m. split.
    + intros H. by apply elem_of_nil in H.
    + intros (? & ? & H & _). by apply elem_of_nil in H.
  - cbn [resolveMembers].
    destruct (outcome (getUserByIdOrDiscordId memberId) db) as [[fid u]|e] eqn:E.
    + exists (fid :: resolved). split.
      * erewrite outcome_bind_ok by apply attempt_getUser_run.
        erewrite outcome_bind_ok by exact Hrun. by rewrite E.
      * intros m. rewrite elem_of_cons, Hres. split.
        -- intros [-> | (mid & u' & Hin & Hout)].
           ++ exists memberId, u. split; [left|done].
           ++ exists mid, u'. split; [by right|done].
        -- intros (mid & u' & Hin & Hout).
           apply elem_of_cons in Hin as [-> | Hin].
           ++ left. rewrite E in Hout. by injection Hout as -> _.
           ++ right. by exists mid, u'.
    + exists resolved. split.
      * erewrite outcome_bind_ok by apply attempt_getUser_run.
        erewrite outcome_bind_ok by exact Hrun. by rewrite E.
      * intros m. rewrite Hres. split.
        -- intros (mid & u' & Hin & Hout). exists mid, u'. split; [by right|done].
        -- intros (mid & u' & Hin & Hout).
           apply elem_of_cons in Hin as [-> | Hin]; [congruence|].
           by exists mid, u'.
Qed.

Lemma collectProfiles_run (ids : list string) (acc : gmap string GroupMember)
    (db : Db) :
  ∃ profiles,
    collectProfiles ids acc db = (db, Ok profiles) ∧
    (∀ m, is_Some (acc !! m) → is_Some (profiles !! m)) ∧
    (∀ m, m ∈ ids → is_Some (users db !! m) → is_Some (profiles !! m)).
Proof.
  revert acc. induction ids as [|fid rest IH]; intros acc.
  - exists acc. split; [done|]. split; [done|].
    intros m H. by apply elem_of_nil in H.
  - cbn [collectProfiles].
    erewrite (outcome_bind_ok (docGet _ _)) by reflexivity.
    change (docs usersCol db) with (users db).
    destruct (users db !! fid) as [u|] eqn:E.
    + destruct (IH (<[fid := memberProfile fid u]> acc))
        as (profiles & Hrun & Hacc & Hids).
      exists profiles. split; [done|]. split.
      * intros m Hm. apply Hacc. rewrite lookup_insert.
        case_decide; [by eexists|done].
      * intros m Hin Hm. apply elem_of_cons in Hin as [-> | Hin].
        -- apply Hacc. rewrite lookup_insert_eq. by eexists.
        -- by apply Hids.
    + destruct (IH acc) as (profiles & Hrun & Hacc & Hids).
      exists profiles. split; [done|]. split; [done|].
      intros m Hin Hm. apply elem_of_cons in Hin as [-> | Hin].
      * rewrite E in Hm. by destruct Hm.
      * by apply Hids.
Qed.

Lemma createGroup_run (newId createdBy : string) (memberIds : list string)
    (now : string) (db : Db) :
  match outcome (getUserByIdOrDiscordId createdBy) db with
  | Throw e => createGroup newId createdBy memberIds now db = (db, Throw e)
  | Ok creatorData =>
      ∃ g db',
        createGroup newId createdBy memberIds now db = (db', Ok (newId, g)) ∧
        groups db' = <[newId := g]> (groups db) ∧
        Group.createdBy g = creatorData.1 ∧
        Group.status g = active ∧ Group.votes g = ∅ ∧
        Group.finalPlace g = None ∧ Group.recommendedPlaces g = [] ∧
        creatorData.1 ∈ Group.members g ∧
        (∀ m, m ∈ Group.members g ↔
              m = creatorData.1 ∨
              ∃ memberId u, memberId ∈ memberIds ∧
                outcome (getUserByIdOrDiscordId memberId) db = Ok (m, u)) ∧
        (∀ m, m ∈ Group.members g → is_Some (Group.memberProfiles g !! m))
  end.
Proof.
  pose proof (getUser_run createdBy db) as Hu.
  destruct (outcome (getUserByIdOrDiscordId createdBy) db) as [[cid cu]|e] eqn:E.
  - destruct (resolveMembers_run memberIds db) as (resolved & Hres & Hmem).
    set (ids := if bool_decide (cid ∈ resolved) then resolved else cid :: resolved).
    destruct (collectProfiles_run ids ∅ db) as (profiles & Hprof & _ & Hpids).
    set (g := {| Group.createdBy := cid; Group.createdAt := now;
                 Group.members := ids; Group.memberProfiles := profiles;
                 Group.recommendedPlaces := []; Group.votes := ∅;
                 Group.finalPlace := None; Group.status := active;
                 Group.archivedAt := None |}).
    destruct (forEach_updateStats_run ids 1
                (withDocs groupsCol (<[newId := g]> (groups db)) db))
      as (db' & Hstats & Hgroups).
    assert (Hids : ∀ m, m ∈ ids ↔ m = cid ∨ m ∈ resolved).
    { intros m. unfold ids. case_bool_decide as Hin.
      - split; [by right|]. intros [-> | ?]; done.
      - by rewrite elem_of_cons. }
    exists g, db'. split.
    { unfold createGroup. erewrite outcome_bind_ok by exact Hu.
      cbn zeta. cbn [fst].
      erewrite outcome_bind_ok by exact Hres. fold ids.
      erewrite outcome_bind_ok by exact Hprof. fold g.
      erewrite (outcome_bind_ok (docSet _ _ _)) by reflexivity.
      erewrite outcome_bind_ok by exact Hstats. reflexivity. }
    split; [exact Hgroups|]. cbn [fst].
    split; [reflexivity|]. split; [reflexivity|]. split; [reflexivity|].
    split; [reflexivity|]. split; [reflexivity|].
    split; [apply Hids; by left|].
    split.
    + intros m. cbn [Group.members g]. by rewrite Hids, Hmem.
    + intros m Hin. cbn [Group.members Group.memberProfiles g] in *.
      apply Hpids; [exact Hin|]. apply Hids in Hin as [-> | Hin].
      * apply getUser_resolved in E as [E _]. rewrite E. by eexists.
      * apply Hmem in Hin as (mid & u & _ & Hout).
        apply getUser_resolved in Hout as [Hout _]. rewrite Hout. by eexists.
  - unfold createGroup. by erewrite outcome_bind_throw by exact Hu.
Qed.

Lemma disbandGroup_run (groupId userId now : string) (g : Group.t) (db : Db) :
  groups db !! groupId = Some g →
  disbandGroup groupId userId now db =
    match outcome (getUserByIdOrDiscordId userId) db with
    | Throw e => (db, Throw e)
    | Ok userData =>
        if bool_decide (Group.createdBy g ≠ userData.1)
        then (db, Throw "Only creator can disband group")
        else (withDocs groupsCol
                (<[groupId := withArchived now g]> (groups db)) db, Ok tt)
    end.
Proof.
  intros Hg. unfold disbandGroup.
  erewrite (outcome_bind_ok (docGet _ _)) by reflexivity.
  change (docs groupsCol db) with (groups db). rewrite Hg.
  pose proof (getUser_run userId db) as Hu.
  destruct (outcome (getUserByIdOrDiscordId userId) db) as [ud|e].
  - erewrite outcome_bind_ok by exact Hu. cbn zeta.
    destruct (bool_decide _); [done|].
    unfold docUpdate. change (docs groupsCol db) with (groups db).
    by rewrite Hg.
  - by erewrite outcome_bind_throw by exact Hu.
Qed.

End MemberFacts.

Module MemberProps.
Import JS Types Firestore JSArray GroupService GroupMembers.
Import AggregateFacts GroupFacts MemberFacts GroupExamples.

(** X12. [getUserByIdOrDiscordId] only reads. An id that names a user
    document resolves to that document, whatever Discord ids other users
    have. Any other successful resolution yields a user document whose
    [discordId] is the given id. When neither exists the call rejects with
    "User <id> not found". *)
Theorem user_resolution (db : Db) (userId : string) :
  exec (getUserByIdOrDiscordId userId) db = db ∧
  (∀ u, users db !! userId = Some u →
        outcome (getUserByIdOrDiscordId userId) db = Ok (userId, u)) ∧
  (∀ firebaseId u,
     outcome (getUserByIdOrDiscordId userId) db = Ok (firebaseId, u) →
     users db !! firebaseId = Some u ∧
     (firebaseId = userId ∨
      users db !! userId = None ∧ User.discordId u = Some userId)) ∧
  (users db !! userId = None →
   (∀ k u, users db !! k = Some u → User.discordId u ≠ Some userId) →
   outcome (getUserByIdOrDiscordId userId) db =
     Throw ("User " +:+ userId +:+ " not found")).
Proof.
  split; [|split; [|split]].
  - unfold exec. by rewrite getUser_run.
  - intros u Hu. unfold outcome. by rewrite (getUser_found _ _ _ Hu).
  - intros fid u. apply getUser_resolved.
  - intros Hu Hnone. unfold outcome. by rewrite getUser_missing.
Qed.

Lemma user_resolution_witness :
  outcome (getUserByIdOrDiscordId "d-bo") groupsDb = Ok ("bo", member "Bo" "d-bo") ∧
  users groupsDb !! "bo" = Some (member "Bo" "d-bo").
Proof.
  assert (H : outcome (getUserByIdOrDiscordId "d-bo") groupsDb
              = Ok ("bo", member "Bo" "d-bo")) by (by vm_compute).
  split; [exact H|].
  destruct (user_resolution groupsDb "d-bo") as (_ & _ & Hres & _).
  exact (proj1 (Hres "bo" (member "Bo" "d-bo") H)).
Defined.

(** X13. [removeMember] refuses to remove the creator while the group has
    more than one member, and then writes nothing. Otherwise it resolves:
    the user is no longer a member and has no stored vote; every other
    member and every other vote stay; status, final place and the profile
    snapshots, including the leaver's, stay as they were. A creator who is
    the only member can leave. *)
Theorem remove_member (db : Db) (groupId userId firebaseId : string)
    (g : Group.t) (u : User.t) :
  groups db !! groupId = Some g →
  outcome (getUserByIdOrDiscordId userId) db = Ok (firebaseId, u) →
  if bool_decide (Group.createdBy g = firebaseId ∧ 1 < length (Group.members g))
  then removeMember groupId userId db =
         (db, Throw "Creator cannot leave group. Disband the group instead.")
  else
    outcome (removeMember groupId userId) db = Ok tt ∧
    ∃ g', groups (exec (removeMember groupId userId) db)
            = <[groupId := g']> (groups db) ∧
          (firebaseId ∉ Group.members g') ∧
          Group.votes g' !! firebaseId = None ∧
          (∀ other, other ≠ firebaseId →
             (other ∈ Group.members g' ↔ other ∈ Group.members g) ∧
             Group.votes g' !! other = Group.votes g !! other) ∧
          Group.status g' = Group.status g ∧
          Group.finalPlace g' = Group.finalPlace g ∧
          Group.memberProfiles g' = Group.memberProfiles g.
Proof.
  intros Hg Hu. unfold outcome, exec. rewrite (removeMember_run _ _ g db Hg), Hu.
  cbn [fst].
  destruct (bool_decide (Group.createdBy g = firebaseId)) eqn:E1;
    destruct (1 <? length (Group.members g)) eqn:E2; cbn [andb].
  - rewrite bool_decide_eq_true_2; [done|].
    split; [by apply bool_decide_eq_true in E1 | by apply Nat.ltb_lt].
  - rewrite bool_decide_eq_false_2
      by (intros [_ H]; apply Nat.ltb_lt in H; congruence).
    cbn [fst snd]. split; [done|]. eexists. split; [reflexivity|].
    cbn [Group.members Group.votes Group.status Group.finalPlace
         Group.memberProfiles withVotes withoutMember].
    split; [rewrite elem_of_arrayRemove; by intros [_ ?]|].
    split; [apply lookup_delete_eq|]. split; [|done].
    intros other Hne. rewrite elem_of_arrayRemove, lookup_delete_ne by done.
    split; [|done]. split; [by intros [? _] | done].
  - rewrite bool_decide_eq_false_2
      by (intros [H _]; apply bool_decide_eq_false in E1; congruence).
    cbn [fst snd]. split; [done|]. eexists. split; [reflexivity|].
    cbn [Group.members Group.votes Group.status Group.finalPlace
         Group.memberProfiles withVotes withoutMember].
    split; [rewrite elem_of_arrayRemove; by intros [_ ?]|].
    split; [apply lookup_delete_eq|]. split; [|done].
    intros other Hne. rewrite elem_of_arrayRemove, lookup_delete_ne by done.
    split; [|done]. split; [by intros [? _] | done].
  - rewrite bool_decide_eq_false_2
      by (intros [H _]; apply bool_decide_eq_false in E1; congruence).
    cbn [fst snd]. split; [done|]. eexists. split; [reflexivity|].
    cbn [Group.members Group.votes Group.status Group.finalPlace
         Group.memberProfiles withVotes withoutMember].
    split; [rewrite elem_of_arrayRemove; by intros [_ ?]|].
    split; [apply lookup_delete_eq|]. split; [|done].
    intros other Hne. rewrite elem_of_arrayRemove, lookup_delete_ne by done.
    split; [|done]. split; [by intros [? _] | done].
Qed.

Lemma remove_member_witness :
  removeMember "g-active" "ana" groupsDb =
    (groupsDb, Throw "Creator cannot leave group. Disband the group instead.").
Proof.
  apply (remove_member groupsDb "g-active" "ana" "ana" (outing active None)
           (member "Ana" "d-ana")); by vm_compute.
Defined.

(** X14. [addMember] rejects a user who is already a member with "User
    already in group" and then writes nothing. Otherwise it resolves: the
    user is appended to the members, the other members keep their order, a
    profile snapshot of the user is stored, votes, status and final place are
    untouched, and the user's [totalGroupsJoined] goes up by one. *)
Theorem add_member (db : Db) (groupId userId firebaseId : string)
    (g : Group.t) (u : User.t) :
  groups db !! groupId = Some g →
  outcome (getUserByIdOrDiscordId userId) db = Ok (firebaseId, u) →
  if bool_decide (firebaseId ∈ Group.members g)
  then addMember groupId userId db = (db, Throw "User already in group")
  else
    outcome (addMember groupId userId) db = Ok tt ∧
    (∃ g', groups (exec (addMember groupId userId) db)
             = <[groupId := g']> (groups db) ∧
           Group.members g' = Group.members g ++ [firebaseId] ∧
           (Group.memberProfiles g' !! firebaseId
              = Some (memberProfile firebaseId u)) ∧
           Group.votes g' = Group.votes g ∧
           Group.status g' = Group.status g ∧
           Group.finalPlace g' = Group.finalPlace g) ∧
    (∃ u', users (exec (addMember groupId userId) db)
             = <[firebaseId := u']> (users db) ∧
           User.totalGroupsJoined u' =
             Some (default 0 (User.totalGroupsJoined u) + 1)%Z).
Proof.
  intros Hg Hu.
  destruct (addMember_run groupId userId g db Hg) as (db' & Hrun & Hpost).
  rewrite Hu in Hrun. cbn [fst] in Hrun.
  destruct (Hpost _ Hu) as (Hgroups & Husers). cbn [fst snd] in *.
  case_bool_decide as Hin; [exact Hrun|].
  unfold outcome, exec. rewrite Hrun. cbn [fst snd]. split; [done|].
  split; [|exact Husers].
  eexists. split; [exact Hgroups|].
  cbn [Group.members Group.memberProfiles Group.votes Group.status
       Group.finalPlace withMember].
  unfold arrayUnion. rewrite bool_decide_eq_false_2 by done.
  by rewrite lookup_insert_eq.
Qed.

Lemma add_member_witness :
  addMember "g-active" "d-bo" groupsDb = (groupsDb, Throw "User already in group").
Proof.
  apply (add_member groupsDb "g-active" "d-bo" "bo" (outing active None)
           (member "Bo" "d-bo")); by vm_compute.
Defined.

End MemberProps.

(** ** Group service: lifecycle of a group *)

Module LifecycleFacts.
Import JS Types Firestore JSArray GroupService GroupMembers.
Import AggregateFacts GroupFacts MemberFacts.

Lemma resolveMembers_resolved (memberIds : list string) (db : Db) :
  resolveMembers memberIds db = (db, Ok (resolvedIds memberIds db)).
Proof.
  induction memberIds as [|memberId rest IH]; [done|].
  cbn [resolveMembers].
  erewrite outcome_bind_ok by apply attempt_getUser_run.
  erewrite outcome_bind_ok by exact IH.
  unfold resolvedIds. cbn [omap list_omap].
  by destruct (outcome (getUserByIdOrDiscordId memberId) db).
Qed.

Lemma occurrences_cons (k x : string) (l : list string) :
  occurrences k (x :: l) =
    ((if bool_decide (k = x) then 1 else 0) + occurrences k l)%Z.
Proof.
  unfold occurrences. cbn [List.filter].
  case_bool_decide as E.
  - subst. rewrite String.eqb_refl. cbn [length]. lia.
  - apply String.eqb_neq in E. rewrite E. lia.
Qed.

Lemma occurrences_nonneg (k : string) (l : list string) :
  (0 ≤ occurrences k l)%Z.
Proof. unfold occurrences. lia. Qed.

Lemma occurrences_zero (k : string) (l : list string) :
  occurrences k l = 0%Z ↔ k ∉ l.
Proof.
  induction l as [|x l IH].
  - split; [intros _ H; by apply elem_of_nil in H|done].
  - rewrite occurrences_cons, not_elem_of_cons.
    pose proof (occurrences_nonneg k l). case_bool_decide as E.
    + split; [lia|]. by intros [? _].
    + rewrite <- IH. split; [intros; split; [done|lia]|intros [_ ?]; lia].
Qed.

Lemma updateUserGroupStats_users (userId : string) (inc : Z) (db : Db) :
  ∃ db', updateUserGroupStats userId inc db = (db', Ok tt) ∧
         groups db' = groups db ∧
         ∀ k, users db' !! k =
              (if bool_decide (k = userId) then statsBumped 1 inc else id)
                <$> users db !! k.
Proof.
  unfold updateUserGroupStats.
  erewrite (outcome_bind_ok (docGet _ _)) by reflexivity.
  change (docs usersCol db) with (users db).
  destruct (users db !! userId) as [u|] eqn:E.
  - unfold docUpdate. change (docs usersCol db) with (users db). rewrite E.
    eexists. split; [reflexivity|]. split; [reflexivity|].
    intros k. cbn [users withDocs usersCol].
    case_bool_decide as Hk.
    + subst k. rewrite lookup_insert_eq, E. cbn [fmap option_fmap option_map].
      unfold statsBumped, withGroupsJoined. cbn [Z.eqb].
      do 2 f_equal. f_equal. lia.
    + rewrite lookup_insert_ne by done. by destruct (users db !! k).
  - eexists. split; [reflexivity|]. split; [reflexivity|].
    intros k. case_bool_decide as Hk.
    + subst k. by rewrite E.
    + by destruct (users db !! k).
Qed.

Lemma statsBumped_step (k x : string) (n inc : Z) (u : User.t) :
  (0 ≤ n)%Z →
  statsBumped n inc
    ((if bool_decide (k = x) then statsBumped 1 inc else id) u) =
  statsBumped ((if bool_decide (k = x) then 1 else 0) + n) inc u.
Proof.
  intros Hn. case_bool_decide; [|done].
  unfold statsBumped. cbn [Z.eqb].
  destruct (n =? 0)%Z eqn:E0.
  - apply Z.eqb_eq in E0. subst n. cbn [Z.add Z.eqb Pos.eqb].
    reflexivity.
  - apply Z.eqb_neq in E0.
    destruct (1 + n =? 0)%Z eqn:E1; [apply Z.eqb_eq in E1; lia|].
    unfold withGroupsJoined.
    cbn [User.displayName User.discordId User.adjustmentFactor
         User.personalityType User.lastRatedPlaceLocation
         User.totalRatingsCount User.totalGroupsJoined default].
    f_equal. apply (f_equal Some). unfold id. lia.
Qed.

(** The loop over the members after a write: every user document is
    rewritten once per occurrence of its id. *)
Lemma forEach_updateStats_users (ids : list string) (inc : Z) (db : Db) :
  ∃ db', forEachM (λ id, updateUserGroupStats id inc) ids db = (db', Ok tt) ∧
         groups db' = groups db ∧
         ∀ k, users db' !! k =
              statsBumped (occurrences k ids) inc <$> users db !! k.
Proof.
  revert db. induction ids as [|x ids IH]; intros db.
  - exists db. split; [done|]. split; [done|]. intros k.
    by destruct (users db !! k).
  - destruct (updateUserGroupStats_users x inc db) as (db1 & Hrun & Hg & Hu).
    destruct (IH db1) as (db2 & Hrun2 & Hg2 & Hu2).
    exists db2. cbn [forEachM]. erewrite outcome_bind_ok by exact Hrun.
    split; [exact Hrun2|]. split; [congruence|].
    intros k. rewrite Hu2, Hu, occurrences_cons.
    destruct (users db !! k) as [u|]; [|done].
    cbn [fmap option_fmap option_map]. f_equal.
    apply statsBumped_step, occurrences_nonneg.
Qed.

Lemma collectProfiles_lookup (ids : list string)
    (acc : gmap string GroupMember) (db : Db) :
  ∃ profiles,
    collectProfiles ids acc db = (db, Ok profiles) ∧
    ∀ m, profiles !! m =
         match (if bool_decide (m ∈ ids) then users db !! m else None) with
         | Some u => Some (memberProfile m u)
         | None => acc !! m
         end.
Proof.
  revert acc. induction ids as [|fid rest IH]; intros acc.
  - exists acc. split; [done|]. intros m.
    rewrite bool_decide_eq_false_2; [done|]. intros H. by apply elem_of_nil in H.
  - cbn [collectProfiles].
    erewrite (outcome_bind_ok (docGet _ _)) by reflexivity.
    change (docs usersCol db) with (users db).
    destruct (users db !! fid) as [u|] eqn:E.
    + destruct (IH (<[fid := memberProfile fid u]> acc)) as (profiles & Hrun & Hl).
      exists profiles. split; [exact Hrun|]. intros m. rewrite Hl.
      destruct (decide (m = fid)) as [->|Hne].
      * rewrite (bool_decide_eq_true_2 (fid ∈ fid :: rest)) by left.
        rewrite E. case_bool_decide; [done|].
        by rewrite lookup_insert_eq.
      * rewrite lookup_insert_ne by done.
        case_bool_decide as H1; case_bool_decide as H2; try done.
        -- exfalso. apply H2. by right.
        -- exfalso. apply elem_of_cons in H2 as [?|?]; done.
    + destruct (IH acc) as (profiles & Hrun & Hl).
      exists profiles. split; [exact Hrun|]. intros m. rewrite Hl.
      destruct (decide (m = fid)) as [->|Hne].
      * rewrite (bool_decide_eq_true_2 (fid ∈ fid :: rest)) by left.
        rewrite E. by case_bool_decide.
      * case_bool_decide as H1; case_bool_decide as H2; try done.
        -- exfalso. apply H2. by right.
        -- exfalso. apply elem_of_cons in H2 as [?|?]; done.
Qed.

Lemma resolvedIds_users (memberIds : list string) (db : Db) (m : string) :
  m ∈ resolvedIds memberIds db → is_Some (users db !! m).
Proof.
  unfold resolvedIds. rewrite list_elem_of_omap. intros (memberId & _ & H).
  destruct (outcome (getUserByIdOrDiscordId memberId) db) as [[fid u]|] eqn:E;
    [|done].
  injection H as <-. apply getUser_resolved in E as [E _].
  cbn [fst]. rewrite E. by eexists.
Qed.

Lemma missing_group_rejected (op : GroupOp) (db : Db) :
  match op with
  | CreateGroup _ _ _ _ => True
  | AddMember groupId _ | RemoveMember groupId _ | CastVotes groupId _ _
  | FinalizeSelection groupId _ _ _ _ | ArchiveGroup groupId _
  | DisbandGroup groupId _ _ =>
      groups db !! groupId = None → exec (runGroupOp op) db = db
  end.
Proof.
  destruct op; [done|..]; intros Hg; unfold exec; cbn [runGroupOp].
  - unfold addMember. erewrite (outcome_bind_ok (docGet _ _)) by reflexivity.
    change (docs groupsCol db) with (groups db). by rewrite Hg.
  - unfold removeMember. erewrite (outcome_bind_ok (docGet _ _)) by reflexivity.
    change (docs groupsCol db) with (groups db). by rewrite Hg.
  - unfold castVotes. destruct (_ || _); [done|].
    erewrite (outcome_bind_ok (docGet _ _)) by reflexivity.
    change (docs groupsCol db) with (groups db). by rewrite Hg.
  - unfold finalizeSelection.
    erewrite (outcome_bind_ok (docGet _ _)) by reflexivity.
    change (docs groupsCol db) with (groups db). by rewrite Hg.
  - unfold archiveGroup, docUpdate.
    change (docs groupsCol db) with (groups db). by rewrite Hg.
  - unfold disbandGroup. erewrite (outcome_bind_ok (docGet _ _)) by reflexivity.
    change (docs groupsCol db) with (groups db). by rewrite Hg.
Qed.

Lemma votersAreMembers_same (db db' : Db) :
  groups db' = groups db → votersAreMembers db → votersAreMembers db'.
Proof. unfold votersAreMembers. intros ->. done. Qed.

Lemma votersAreMembers_insert (db db' : Db) (groupId : string) (g' : Group.t) :
  groups db' = <[groupId := g']> (groups db) →
  (∀ voter, is_Some (Group.votes g' !! voter) → voter ∈ Group.members g') →
  votersAreMembers db → votersAreMembers db'.
Proof.
  unfold votersAreMembers. intros -> Hg' Hinv gid g voter.
  destruct (decide (gid = groupId)) as [->|Hne].
  - rewrite lookup_insert_eq. intros [= <-]. apply Hg'.
  - rewrite lookup_insert_ne by done. apply Hinv.
Qed.

Lemma runGroupOp_keeps_voters (op : GroupOp) (db : Db) :
  votersAreMembers db → votersAreMembers (exec (runGroupOp op) db).
Proof.
  intros Hinv.
  assert (Hmissing := missing_group_rejected op db).
  destruct op as [newId createdBy memberIds now | groupId userId
    | groupId userId | groupId userId ranked
    | groupId placeId placeName location now | groupId now
    | groupId userId now]; cbn [runGroupOp] in *.
  - (* createGroup *)
    pose proof (createGroup_run newId createdBy memberIds now db) as Hrun.
    unfold exec.
    destruct (outcome (getUserByIdOrDiscordId createdBy) db) as [cd|e].
    + destruct Hrun as (g & db' & Hrun & Hgroups & _ & _ & Hvotes & _).
      erewrite outcome_bind_ok by exact Hrun. cbn [mret M_ret fst].
      eapply votersAreMembers_insert; [exact Hgroups| |exact Hinv].
      intros voter. rewrite Hvotes, lookup_empty. by intros [? ?].
    + erewrite outcome_bind_throw by exact Hrun. exact Hinv.
  - (* addMember *)
    destruct (groups db !! groupId) as [g|] eqn:Hg;
      [|by rewrite Hmissing].
    destruct (addMember_run groupId userId g db Hg) as (db' & Hrun & Hpost).
    unfold exec. rewrite Hrun.
    destruct (outcome (getUserByIdOrDiscordId userId) db) as [ud|e];
      [|exact Hinv].
    case_bool_decide; [exact Hinv|]. cbn [fst].
    destruct (Hpost ud eq_refl) as [Hgroups _].
    eapply votersAreMembers_insert; [exact Hgroups| |exact Hinv].
    intros voter Hv. cbn [withMember Group.members Group.votes] in *.
    apply elem_of_arrayUnion. left. by eapply Hinv.
  - (* removeMember *)
    destruct (groups db !! groupId) as [g|] eqn:Hg;
      [|by rewrite Hmissing].
    unfold exec. rewrite (removeMember_run groupId userId g db Hg).
    destruct (outcome (getUserByIdOrDiscordId userId) db) as [ud|e];
      [|exact Hinv].
    destruct (_ && _); [exact Hinv|]. cbn [fst].
    eapply votersAreMembers_insert; [reflexivity| |exact Hinv].
    intros voter. cbn [withVotes withoutMember Group.members Group.votes].
    rewrite elem_of_arrayRemove.
    destruct (decide (voter = ud.1)) as [->|Hne].
    + rewrite lookup_delete_eq. by intros [? ?].
    + rewrite lookup_delete_ne by done. intros Hv. split; [|done].
      by eapply Hinv.
  - (* castVotes *)
    destruct (groups db !! groupId) as [g|] eqn:Hg;
      [|by rewrite Hmissing].
    unfold exec. rewrite (castVotes_run groupId userId ranked g db Hg).
    destruct (_ || _); [exact Hinv|].
    destruct (outcome (getUserByIdOrDiscordId userId) db) as [ud|e];
      [|exact Hinv].
    case_bool_decide as Hin; [|exact Hinv]. cbn [fst].
    eapply votersAreMembers_insert; [reflexivity| |exact Hinv].
    intros voter. cbn [withVote Group.members Group.votes].
    destruct (decide (voter = ud.1)) as [->|Hne]; [done|].
    rewrite lookup_insert_ne by done. intros Hv. by eapply Hinv.
  - (* finalizeSelection *)
    destruct (groups db !! groupId) as [g|] eqn:Hg;
      [|by rewrite Hmissing].
    destruct (finalizeSelection_run groupId placeId placeName location now g db Hg)
      as (db' & Hrun & Hgroups).
    unfold exec. rewrite Hrun. cbn [fst].
    eapply votersAreMembers_insert; [exact Hgroups| |exact Hinv].
    intros voter Hv. cbn [withFinalPlace Group.members Group.votes] in *.
    by eapply Hinv.
  - (* archiveGroup *)
    destruct (groups db !! groupId) as [g|] eqn:Hg;
      [|by rewrite Hmissing].
    unfold exec, archiveGroup, docUpdate.
    change (docs groupsCol db) with (groups db). rewrite Hg. cbn [fst].
    eapply votersAreMembers_insert; [reflexivity| |exact Hinv].
    intros voter Hv. cbn [withArchived Group.members Group.votes] in *.
    by eapply Hinv.
  - (* disbandGroup *)
    destruct (groups db !! groupId) as [g|] eqn:Hg;
      [|by rewrite Hmissing].
    unfold exec. rewrite (disbandGroup_run groupId userId now g db Hg).
    destruct (outcome (getUserByIdOrDiscordId userId) db) as [ud|e];
      [|exact Hinv].
    case_bool_decide; [exact Hinv|]. cbn [fst].
    eapply votersAreMembers_insert; [reflexivity| |exact Hinv].
    intros voter Hv. cbn [withArchived Group.members Group.votes] in *.
    by eapply Hinv.
Qed.

End LifecycleFacts.

Module LifecycleProps.
Import JS Types Firestore JSArray GroupService GroupMembers.
Import AggregateFacts GroupFacts MemberFacts LifecycleFacts GroupExamples.

(** X15. When the creator's id resolves, [createGroup] resolves and stores
    one new group under the generated id. Its members are the ids that the
    given member ids resolve to, in the order given, ids that do not resolve
    being skipped, with the creator put in front unless already among them;
    an id is stored once for every given id that resolves to it. Every
    member is a user document and has a profile snapshot of it, and nobody
    else has one. The group starts active, without votes or final place.
    Every user's [totalGroupsJoined] goes up by one for each occurrence of
    the user among the members. *)
Theorem create_group (db : Db) (newId createdBy now : string)
    (memberIds : list string) (creatorId : string) (creator : User.t) :
  outcome (getUserByIdOrDiscordId createdBy) db = Ok (creatorId, creator) →
  let resolved := resolvedIds memberIds db in
  let members :=
    if bool_decide (creatorId ∈ resolved) then resolved
    else creatorId :: resolved in
  let m := createGroup newId createdBy memberIds now in
  ∃ g, outcome m db = Ok (newId, g) ∧
       groups (exec m db) = <[newId := g]> (groups db) ∧
       Group.createdBy g = creatorId ∧
       Group.members g = members ∧
       creatorId ∈ members ∧
       (∀ member, member ∈ members →
          ∃ u, users db !! member = Some u ∧
               Group.memberProfiles g !! member = Some (memberProfile member u)) ∧
       (∀ k, is_Some (Group.memberProfiles g !! k) → k ∈ members) ∧
       Group.votes g = ∅ ∧ Group.status g = active ∧
       Group.finalPlace g = None ∧
       ∀ k, users (exec m db) !! k =
            statsBumped (occurrences k members) 1 <$> users db !! k.
Proof.
  intros Hcreator resolved members m.
  assert (Hu : getUserByIdOrDiscordId createdBy db = (db, Ok (creatorId, creator))).
  { rewrite getUser_run. by rewrite Hcreator. }
  destruct (collectProfiles_lookup members ∅ db) as (profiles & Hprof & Hlook).
  set (g := {| Group.createdBy := creatorId; Group.createdAt := now;
               Group.members := members; Group.memberProfiles := profiles;
               Group.recommendedPlaces := []; Group.votes := ∅;
               Group.finalPlace := None; Group.status := active;
               Group.archivedAt := None |}).
  destruct (forEach_updateStats_users members 1
              (withDocs groupsCol (<[newId := g]> (groups db)) db))
    as (db' & Hstats & Hgroups & Husers).
  assert (Hrun : m db = (db', Ok (newId, g))).
  { unfold m, createGroup. erewrite outcome_bind_ok by exact Hu.
    cbn zeta. cbn [fst].
    erewrite outcome_bind_ok by apply resolveMembers_resolved.
    fold resolved. fold members.
    erewrite outcome_bind_ok by exact Hprof. fold g.
    erewrite (outcome_bind_ok (docSet _ _ _)) by reflexivity.
    erewrite outcome_bind_ok by exact Hstats. reflexivity. }
  assert (Hcin : creatorId ∈ members).
  { unfold members. case_bool_decide as Hin; [exact Hin|left]. }
  assert (Hdoc : ∀ member, member ∈ members → is_Some (users db !! member)).
  { intros member. unfold members. case_bool_decide as Hin.
    - apply resolvedIds_users.
    - intros [->|H]%elem_of_cons; [|by eapply resolvedIds_users].
      apply getUser_resolved in Hcreator as [E _]. rewrite E. by eexists. }
  exists g. unfold outcome, exec. rewrite Hrun. cbn [fst snd].
  split; [reflexivity|]. split; [exact Hgroups|].
  split; [reflexivity|]. split; [reflexivity|]. split; [exact Hcin|].
  split; [|split; [|split; [reflexivity|split; [reflexivity|split;
    [reflexivity|exact Husers]]]]].
  - intros member Hin. destruct (Hdoc member Hin) as [u E].
    exists u. split; [exact E|]. cbn [Group.memberProfiles g].
    by rewrite Hlook, bool_decide_eq_true_2, E.
  - intros k. cbn [Group.memberProfiles g]. rewrite Hlook.
    case_bool_decide as Hin; [done|]. rewrite lookup_empty. by intros [? ?].
Qed.

Lemma create_group_witness :
  ∃ g, outcome (createGroup "g-new" "d-ana" ["bo"; "zed"; "d-bo"] "2024-02-01")
         groupsDb = Ok ("g-new", g) ∧
       Group.members g = ["ana"; "bo"; "bo"].
Proof.
  destruct (create_group groupsDb "g-new" "d-ana" "2024-02-01"
              ["bo"; "zed"; "d-bo"] "ana" (member "Ana" "d-ana"))
    as (g & Hout & _ & _ & Hmembers & _); [by vm_compute|].
  exists g. split; [exact Hout|]. rewrite Hmembers. by vm_compute.
Defined.

(** X16. When the creator's id does not resolve, [createGroup] rejects with
    the error of the lookup and writes nothing, whatever the member ids. *)
Theorem create_group_unknown_creator (db : Db) (newId createdBy now : string)
    (memberIds : list string) (e : string) :
  outcome (getUserByIdOrDiscordId createdBy) db = Throw e →
  createGroup newId createdBy memberIds now db = (db, Throw e).
Proof.
  intros Hcreator. unfold createGroup.
  erewrite outcome_bind_throw; [reflexivity|].
  rewrite getUser_run. by rewrite Hcreator.
Qed.

Lemma create_group_unknown_creator_witness :
  createGroup "g-new" "zed" ["ana"; "bo"] "2024-02-01" groupsDb =
    (groupsDb, Throw "User zed not found").
Proof.
  apply (create_group_unknown_creator groupsDb "g-new" "zed" "2024-02-01"
           ["ana"; "bo"] "User zed not found").
  by vm_compute.
Defined.

(** X17. Every stored vote belongs to a current member of its group, and
    no sequence of writes of the group service breaks this, whether the
    writes resolve or reject: [createGroup], [addMember], [removeMember],
    [castVotes], [finalizeSelection], [archiveGroup], [disbandGroup]. *)
Theorem votes_belong_to_members (ops : list GroupOp) (db : Db) :
  votersAreMembers db → votersAreMembers (runGroupOps ops db).
Proof.
  unfold runGroupOps. revert db.
  induction ops as [|op ops IH]; intros db Hinv; [exact Hinv|].
  cbn [foldl]. apply IH. by apply runGroupOp_keeps_voters.
Qed.

Lemma votes_belong_to_members_witness :
  votersAreMembers
    (runGroupOps [CreateGroup "g1" "ana" ["bo"] "2024-02-01";
                  CastVotes "g1" "d-bo" ["A"; "B"];
                  RemoveMember "g1" "bo";
                  DisbandGroup "g1" "bo" "2024-02-02"]
       (withDocs groupsCol ∅ groupsDb)).
Proof.
  apply votes_belong_to_members.
  intros groupId g voter Hg.
  change (groups (withDocs groupsCol ∅ groupsDb))
    with (∅ : gmap string Group.t) in Hg.
  by rewrite lookup_empty in Hg.
Defined.

(** X18. [finalizeSelection] on an id without group document rejects with
    "Group not found" and writes nothing. On a stored group it rewrites that
    group only: creator, members, votes and profiles are kept; the stored
    location of the final place is replaced when a location is given and
    kept when it is not. Its loop over the members adds zero to their
    counters: a member's [totalGroupsJoined] keeps its value, a missing
    counter being written as 0, and no other user document changes. *)
Theorem finalize_selection_frame (db : Db) (groupId placeId placeName : string)
    (location : option LatLng) (now : string) :
  let m := finalizeSelection groupId placeId placeName location now in
  match groups db !! groupId with
  | None => m db = (db, Throw "Group not found")
  | Some g =>
      (∃ g', groups (exec m db) = <[groupId := g']> (groups db) ∧
             Group.createdBy g' = Group.createdBy g ∧
             Group.members g' = Group.members g ∧
             Group.votes g' = Group.votes g ∧
             Group.memberProfiles g' = Group.memberProfiles g ∧
             (Group.finalPlace g' ≫= fp_location) =
               match location with
               | Some l => Some l
               | None => Group.finalPlace g ≫= fp_location
               end) ∧
      ∀ k, users (exec m db) !! k =
           (λ u, if bool_decide (k ∈ Group.members g)
                 then withGroupsJoined (default 0%Z (User.totalGroupsJoined u)) u
                 else u) <$> users db !! k
  end.
Proof.
  intros m. destruct (groups db !! groupId) as [g|] eqn:Hg.
  - destruct (forEach_updateStats_users (Group.members g) 0
                (withDocs groupsCol
                   (<[groupId := withFinalPlace placeId placeName location now g]>
                      (groups db)) db)) as (db' & Hstats & Hgroups & Husers).
    assert (Hrun : m db = (db', Ok tt)).
    { unfold m, finalizeSelection.
      erewrite (outcome_bind_ok (docGet _ _)) by reflexivity.
      change (docs groupsCol db) with (groups db). rewrite Hg.
      erewrite (outcome_bind_ok (docUpdate _ _ _));
        [exact Hstats|].
      unfold docUpdate. change (docs groupsCol db) with (groups db).
      by rewrite Hg. }
    unfold exec. rewrite Hrun. cbn [fst]. split.
    + eexists. split; [exact Hgroups|].
      cbn [withFinalPlace Group.createdBy Group.members Group.votes
           Group.memberProfiles Group.finalPlace mbind option_bind fp_location].
      by destruct location.
    + intros k. rewrite Husers. cbn [users withDocs groupsCol].
      destruct (users db !! k) as [u|]; [|done].
      cbn [fmap option_fmap option_map]. f_equal. unfold statsBumped.
      case_bool_decide as Hin.
      * destruct (occurrences k (Group.members g) =? 0)%Z eqn:E.
        -- apply Z.eqb_eq, occurrences_zero in E. done.
        -- f_equal. lia.
      * apply occurrences_zero in Hin as ->. reflexivity.
  - unfold m, finalizeSelection.
    erewrite (outcome_bind_ok (docGet _ _)) by reflexivity.
    change (docs groupsCol db) with (groups db). by rewrite Hg.
Qed.

(** X19. [disbandGroup] is for the creator only: any other user is rejected
    with "Only creator can disband group" and nothing is written. For the
    creator it resolves whatever the status of the group: the group document
    stays, is marked archived with the time of the call, and keeps members,
    votes and final place; no user document changes, so the counters that
    [createGroup] raised are not lowered. *)
Theorem disband_group (db : Db) (groupId userId firebaseId now : string)
    (g : Group.t) (u : User.t) :
  groups db !! groupId = Some g →
  outcome (getUserByIdOrDiscordId userId) db = Ok (firebaseId, u) →
  let m := disbandGroup groupId userId now in
  if bool_decide (Group.createdBy g = firebaseId)
  then outcome m db = Ok tt ∧
       users (exec m db) = users db ∧
       ∃ g', groups (exec m db) = <[groupId := g']> (groups db) ∧
             Group.status g' = archived ∧
             Group.archivedAt g' = Some now ∧
             Group.members g' = Group.members g ∧
             Group.votes g' = Group.votes g ∧
             Group.finalPlace g' = Group.finalPlace g
  else m db = (db, Throw "Only creator can disband group").
Proof.
  intros Hg Hu m. unfold outcome, exec, m.
  rewrite (disbandGroup_run groupId userId now g db Hg), Hu. cbn [fst].
  case_bool_decide as Hc.
  - rewrite bool_decide_eq_false_2 by (intros H; by apply H).
    cbn [fst snd]. split; [reflexivity|]. split; [reflexivity|].
    eexists. split; [reflexivity|]. by cbn.
  - by rewrite bool_decide_eq_true_2.
Qed.

Lemma disband_group_witness :
  disbandGroup "g-archived" "d-bo" "2024-03-01" groupsDb =
    (groupsDb, Throw "Only creator can disband group").
Proof.
  apply (disband_group groupsDb "g-archived" "d-bo" "bo" "2024-03-01"
           (outing archived None) (member "Bo" "d-bo")); by vm_compute.
Defined.

(** X20. [getUserActiveGroups] only reads and never rejects. It looks for
    the resolved id of the user, or for the given id itself when that does
    not resolve, and returns exactly the stored groups that have this id
    among their members, each once: the status of a group plays no part, so
    groups with a place selected and archived groups are returned too. *)
Theorem user_groups_query (db : Db) (userId : string) :
  let firebaseId :=
    match outcome (getUserByIdOrDiscordId userId) db with
    | Ok data => data.1
    | Throw _ => userId
    end in
  ∃ found,
    getUserActiveGroups userId db = (db, Ok found) ∧
    NoDup found ∧
    ∀ groupId g,
      (groupId, g) ∈ found ↔
      groups db !! groupId = Some g ∧ firebaseId ∈ Group.members g.
Proof.
  intros firebaseId. eexists. split; [|split].
  - unfold getUserActiveGroups.
    erewrite outcome_bind_ok by apply attempt_getUser_run.
    unfold docQuery. reflexivity.
  - apply NoDup_ListNoDup, List.NoDup_filter, NoDup_ListNoDup,
      NoDup_map_to_list.
  - intros groupId g. rewrite list_elem_of_In, filter_In.
    rewrite <- list_elem_of_In, elem_of_map_to_list.
    change (docs groupsCol db) with (groups db). cbn [fst snd].
    rewrite bool_decide_eq_true. subst firebaseId.
    by destruct (outcome (getUserByIdOrDiscordId userId) db).
Qed.

End LifecycleProps.

(** ** The feed: size, counts and value ranges *)

Module FeedFacts.
Import JS RatingService Types Firestore JSArray RatingStore Aggregates Explore.
Import FeedSpec SortFacts RatingFacts AggregateFacts GroupFacts ExploreFacts.
Import StatsProps.

Lemma filter_length_perm {A} (f : A → bool) (l l' : list A) :
  l ≡ₚ l' → length (List.filter f l) = length (List.filter f l').
Proof.
  induction 1 as [|x l l' _ IH|x y l|l1 l2 l3 _ IH1 _ IH2]; cbn [List.filter].
  - done.
  - destruct (f x); cbn [length]; by rewrite IH.
  - by destruct (f x), (f y).
  - by rewrite IH1.
Qed.

Lemma filter_length_split {A} (f : A → bool) (l : list A) :
  length (List.filter f l) + length (List.filter (λ x, negb (f x)) l) = length l.
Proof.
  induction l as [|x l IH]; [done|]. cbn [List.filter].
  destruct (f x); cbn [negb length]; lia.
Qed.

Lemma scored_rated_count (userAF : number) (db : Db) (nearby : list NearbyPlace) :
  length (List.filter (λ r, negb (isUnrated r))
            ((λ place, scorePlace userAF place (placeRatings db (np_id place)))
             <$> nearby)) =
  length (List.filter (hasRatings db) nearby).
Proof.
  induction nearby as [|place nearby IH]; [done|].
  cbn [fmap list_fmap List.filter]. unfold hasRatings at 1.
  destruct (placeRatings db (np_id place)); cbn [scorePlace isUnrated negb length];
    by rewrite <- IH.
Qed.

(** The handler reads and answers; it writes nothing. *)
Lemma explorePlaces_full_run (userId : string) (limit : Z)
    (nearby : list NearbyPlace) (db : Db) :
  explorePlaces userId limit nearby db =
    (db, Ok match users db !! userId with
            | None => NotFound "User not found"
            | Some userData =>
                match User.lastRatedPlaceLocation userData with
                | None =>
                    Success [] 0 0 0
                      (Some "Rate a place first to get personalized recommendations")
                | Some _ =>
                    let sorted :=
                      Array_sort compareRecommendations
                        ((λ place, scorePlace (viewerFactor userData) place
                                     (placeRatings db (np_id place))) <$> nearby) in
                    Success (Array_slice0 limit sorted) (length sorted)
                      (length (List.filter (λ r, negb (isUnrated r)) sorted))
                      (length (List.filter isUnrated sorted)) None
                end
            end).
Proof.
  unfold explorePlaces.
  erewrite (outcome_bind_ok (docGet _ _)) by reflexivity.
  change (docs usersCol db) with (users db).
  destruct (users db !! userId) as [userData|]; [|done].
  destruct (User.lastRatedPlaceLocation userData); [|done].
  erewrite outcome_bind_ok by apply scoreAll_run. reflexivity.
Qed.

Lemma Math_round_proper (x y : number) : (x == y)%Q → Math_round x = Math_round y.
Proof.
  intros E. unfold Math_round. f_equal. apply Qfloor_comp. by rewrite E.
Qed.

(** [Math.round(Math.min(n / 10, 1) * 100)] for a count [n]. *)
Lemma confidence_percent (k : Z) :
  (0 ≤ k)%Z →
  Math_round (Math_min (inject_Z k / 10) 1 * 100) = inject_Z (Z.min (10 * k) 100).
Proof.
  intros Hk. unfold Math_min.
  destruct (Qle_bool (inject_Z k / 10) 1) eqn:E.
  - apply Qle_bool_iff in E.
    assert (Hle : (inject_Z k <= inject_Z 10)%Q).
    { change (inject_Z 10) with 10%Q. unfold Qdiv in E.
      change (/ 10)%Q with (1#10)%Q in E. lra. }
    rewrite <- Zle_Qle in Hle. rewrite Z.min_l by lia.
    rewrite <- (Math_round_Z (10 * k)). apply Math_round_proper.
    rewrite inject_Z_mult. change (inject_Z 10) with 10%Q. field.
  - assert (Hgt : ¬ (inject_Z k <= inject_Z 10)%Q).
    { intros Hle. apply not_true_iff_false in E. apply E, Qle_bool_iff.
      change (inject_Z 10) with 10%Q in Hle. unfold Qdiv.
      change (/ 10)%Q with (1#10)%Q. lra. }
    rewrite <- Zle_Qle in Hgt. rewrite Z.min_r by lia.
    by vm_compute.
Qed.

Lemma adjustedScore_on_scale (c : RatingCategory) (rater viewer : number) :
  inRange c = true →
  (1 <= calculateAdjustedScoreForViewer c rater viewer <= 10)%Q.
Proof.
  intros Hc. unfold calculateAdjustedScoreForViewer, calculateOverallScore,
    adjustCategoriesForViewer.
  apply round1_inRange, weighted_inRange, adjust_inRange, adjust_inRange.
  unfold normalizeCategoriesToObjective.
  destruct (Qle_bool rater _); [by apply invertSensitive_inRange|done].
Qed.

End FeedFacts.

Module FeedProps.
Import JS RatingService Types Firestore JSArray RatingStore Aggregates Explore.
Import FeedSpec SortFacts RatingFacts AggregateFacts GroupFacts ExploreFacts.
Import StatsProps FeedFacts ExploreExamples.

(** X21. The places handler only reads and always answers. An unknown user
    gets "User not found". A user without a last rated location gets an
    empty list with the message to rate a place first. Any other user gets
    [slice(0, limit)] of the sorted entries: the first [limit] of them, or
    all when there are fewer, for a limit of 0 or more, and all but the last
    [-limit] for a negative limit, which the query parsing lets through.
    The parsing caps the limit at 50, so a limit of 0 or more leaves at most
    50 entries; a negative one can leave more.
    [count] is the number of nearby places whatever the limit, [rated] the
    number of them that have at least one rating, and [unrated] the rest. *)
Theorem feed_shape (db : Db) (userId : string) (limit : Z)
    (nearby : list NearbyPlace) :
  let m := explorePlaces userId limit nearby in
  exec m db = db ∧
  match users db !! userId with
  | None => outcome m db = Ok (NotFound "User not found")
  | Some userData =>
      match User.lastRatedPlaceLocation userData with
      | None =>
          outcome m db =
            Ok (Success [] 0 0 0
                  (Some "Rate a place first to get personalized recommendations"))
      | Some _ =>
          let rated := length (List.filter (hasRatings db) nearby) in
          ∃ data,
            outcome m db =
              Ok (Success data (length nearby) rated (length nearby - rated) None) ∧
            length data =
              Z.to_nat (if (limit <? 0)%Z
                        then Z.of_nat (length nearby) + limit
                        else Z.min limit (Z.of_nat (length nearby))) ∧
            ((0 ≤ limit ≤ 50)%Z → length data ≤ 50) ∧
            (∀ parsed, (queryLimit parsed ≤ 50)%Z)
      end
  end.
Proof.
  intros m. unfold exec, outcome, m. rewrite explorePlaces_full_run.
  cbn [fst snd]. split; [reflexivity|].
  destruct (users db !! userId) as [userData|]; [|reflexivity].
  destruct (User.lastRatedPlaceLocation userData); [|reflexivity].
  cbn zeta.
  set (scored := (λ place, scorePlace (viewerFactor userData) place
                             (placeRatings db (np_id place))) <$> nearby).
  pose proof (Array_sort_perm compareRecommendations scored) as Hperm.
  assert (Hlen : length (Array_sort compareRecommendations scored) = length nearby).
  { rewrite Hperm. unfold scored. apply length_fmap. }
  assert (Hrated :
    length (List.filter (λ r, negb (isUnrated r))
              (Array_sort compareRecommendations scored)) =
    length (List.filter (hasRatings db) nearby)).
  { rewrite (filter_length_perm _ _ _ Hperm). apply scored_rated_count. }
  pose proof (filter_length_split isUnrated
                (Array_sort compareRecommendations scored)) as Hsplit.
  eexists. split.
  - do 2 f_equal.
    + exact Hlen.
    + exact Hrated.
    + lia.
  - assert (Hdata : length (Array_slice0 limit
                              (Array_sort compareRecommendations scored)) =
              Z.to_nat (if (limit <? 0)%Z
                        then Z.of_nat (length nearby) + limit
                        else Z.min limit (Z.of_nat (length nearby)))).
    { unfold Array_slice0. rewrite length_take, Hlen.
      destruct (limit <? 0)%Z eqn:E; lia. }
    split; [exact Hdata|]. split.
    + intros Hcap. rewrite Hdata. destruct (limit <? 0)%Z eqn:E; lia.
    + intros parsed. unfold queryLimit. lia.
Qed.

(** X22. Every entry of the feed is one of the nearby places, with its name,
    address and location. It reports the number of stored ratings of that
    place twice, as [totalRatings] and as [similarRatings]; its confidence is
    ten points per rating, capped at 100. A place without ratings is marked
    unrated with the fixed score 5 and confidence 0. For a place all of whose
    ratings have their categories on the scale, the predicted score is
    between 1 and 10, whatever the raters' and the viewer's factors. *)
Theorem feed_entry_values (db : Db) (userId : string) (limit : Z)
    (nearby : list NearbyPlace) (data : list Recommendation)
    (count rated unrated : nat) (message : option string) :
  outcome (explorePlaces userId limit nearby) db =
    Ok (Success data count rated unrated message) →
  ∀ e, e ∈ data →
    ∃ place,
      place ∈ nearby ∧
      id e = np_id place ∧ name e = np_name place ∧
      address e = np_address place ∧ location e = np_location place ∧
      let n := Z.of_nat (length (placeRatings db (np_id place))) in
      totalRatings e = inject_Z n ∧
      similarRatings e = inject_Z n ∧
      confidence e = inject_Z (Z.min (10 * n) 100) ∧
      (n = 0%Z → isUnrated e = true ∧ predictedScore e = 5%Q) ∧
      ((0 < n)%Z → isUnrated e = false ∧
         (ratedOnScale db (np_id place) → (1 <= predictedScore e <= 10)%Q)).
Proof.
  intros Hout e He.
  apply explorePlaces_data in Hout as [-> | (userData & _ & ->)];
    [by apply elem_of_nil in He|].
  apply feed_entry in He as (place & Hin & ->).
  exists place. split; [exact Hin|].
  unfold ratedOnScale.
  destruct (placeRatings db (np_id place)) as [|r rs] eqn:Hrs.
  - cbn [scorePlace id name address location totalRatings similarRatings
         confidence isUnrated predictedScore length].
    repeat (split; [reflexivity|]). split; [done|]. intros H; lia.
  - set (l := r :: rs) in *. 
    assert (Hn : (0 ≤ Z.of_nat (length l))%Z) by lia.
    unfold scorePlace. fold l.
    cbn [id name address location totalRatings similarRatings confidence
         isUnrated predictedScore].
    replace (match l with [] => _ | _ :: _ => _ end) with
      ({| id := np_id place; name := np_name place; address := np_address place;
          location := np_location place;
          predictedScore :=
            (Math_round
               (sum_by adjustedOverallScore
                  ((λ r0, {| rating := r0;
                             adjustedOverallScore :=
                               calculateAdjustedScoreForViewer (Rating.categories r0)
                                 (Rating.userAdjustmentFactor r0)
                                 (viewerFactor userData);
                             personalityDistance :=
                               Math_abs (Rating.userAdjustmentFactor r0
                                         - viewerFactor userData) |}) <$> l)
                / len ((λ r0, {| rating := r0;
                             adjustedOverallScore :=
                               calculateAdjustedScoreForViewer (Rating.categories r0)
                                 (Rating.userAdjustmentFactor r0)
                                 (viewerFactor userData);
                             personalityDistance :=
                               Math_abs (Rating.userAdjustmentFactor r0
                                         - viewerFactor userData) |}) <$> l) * 10)
             / 10)%Q;
          confidence := Math_round (Math_min (len l / 10) 1 * 100);
          totalRatings := len l;
          similarRatings :=
            len ((λ r0, {| rating := r0;
                           adjustedOverallScore :=
                             calculateAdjustedScoreForViewer (Rating.categories r0)
                               (Rating.userAdjustmentFactor r0)
                               (viewerFactor userData);
                           personalityDistance :=
                             Math_abs (Rating.userAdjustmentFactor r0
                                       - viewerFactor userData) |}) <$> l);
          isUnrated := false |}) by reflexivity.
    cbn [id name address location totalRatings similarRatings confidence
         isUnrated predictedScore].
    rewrite !len_fmap, sum_by_fmap.
    cbn [adjustedOverallScore].
    repeat (split; [reflexivity|]).
    split; [apply (confidence_percent _ Hn)|].
    split; [intros H0; unfold l in H0; cbn [length] in H0; lia|].
    intros _. split; [reflexivity|]. intros Hscale.
    apply round1_inRange, mean_on_scale; [done|].
    intros x Hx. apply adjustedScore_on_scale, Hscale, Hx.
Qed.

Lemma feed_entry_values_witness :
  ∃ a b,
    outcome (explorePlaces "ana" 20 [park; cafe]) threeRatings
      = Ok (Success [a; b] 2 1 1 None) ∧
    ∃ place, place ∈ [park; cafe] ∧ id a = np_id place ∧
             name a = np_name place.
Proof.
  assert (Hout : ∃ a b, outcome (explorePlaces "ana" 20 [park; cafe]) threeRatings
                        = Ok (Success [a; b] 2 1 1 None))
    by (eexists _, _; by vm_compute).
  destruct Hout as (a & b & Hout).
  exists a, b. split; [exact Hout|].
  destruct (feed_entry_values threeRatings "ana" 20 [park; cafe] [a; b] 2 1 1
              None Hout a) as (place & Hin & Hid & Hname & _); [left|].
  exists place. split; [exact Hin|]. split; [exact Hid|exact Hname].
Defined.

End FeedProps.

(** ** The bot's vote menus *)

Module VotingFacts.
Import JS Types JSArray GroupService Bot RankedChoice BotVoting.
Import SortFacts TallyFacts.

Lemma ballotPoints_app (p : string) (l1 l2 : list string) (rank : nat) :
  ballotPoints p (l1 ++ l2) rank =
  (ballotPoints p l1 rank + ballotPoints p l2 (length l1 + rank))%Z.
Proof.
  revert rank. induction l1 as [|q l1 IH]; intros rank;
    cbn [app ballotPoints length]; [by rewrite Nat.add_0_l|].
  rewrite IH. replace (length l1 + S rank) with (S (length l1) + rank) by lia.
  lia.
Qed.

(** Replacing a member's list in the votes map replaces what it awards. *)
Lemma expectedScore_Map_set (m : JSMap (list string)) (k : string)
    (v : list string) (p : string) :
  expectedScore (Map_set m k v).*2 p =
  (expectedScore m.*2 p - ballotPoints p (default [] (Map_get m k)) 1
   + ballotPoints p v 1)%Z.
Proof.
  induction m as [|[k0 v0] m IH].
  - cbn [Map_set Map_get fmap list_fmap expectedScore foldr snd default
         from_option ballotPoints]. lia.
  - cbn [Map_set Map_get].
    destruct (String.eqb k0 k).
    + cbn [fmap list_fmap expectedScore foldr snd default from_option id].
      fold (expectedScore m.*2 p). lia.
    + cbn [fmap list_fmap expectedScore foldr snd].
      fold (expectedScore m.*2 p). fold (expectedScore (Map_set m k v).*2 p).
      rewrite IH. lia.
Qed.

(** The votes map after a selection. *)
Lemma handleVoteSelect_votes (userId placeId : string) (currentStep : nat)
    (session : GroupSession) :
  sessionVotes (handleVoteSelect userId placeId currentStep session).1 =
  Map_set
    (match Map_get (sessionVotes session) userId with
     | Some _ => sessionVotes session
     | None => Map_set (sessionVotes session) userId []
     end) userId
    (default [] (Map_get (sessionVotes session) userId) ++ [placeId]).
Proof.
  unfold handleVoteSelect. cbn zeta.
  destruct (Map_get (sessionVotes session) userId) as [l|] eqn:E.
  - rewrite E. by destruct (currentStep <? 3).
  - rewrite Map_get_set, String.eqb_refl. by destruct (currentStep <? 3).
Qed.

Lemma handleVoteSelect_get (userId placeId : string) (currentStep : nat)
    (session : GroupSession) :
  Map_get (sessionVotes (handleVoteSelect userId placeId currentStep session).1)
    userId =
  Some (default [] (Map_get (sessionVotes session) userId) ++ [placeId]).
Proof.
  rewrite handleVoteSelect_votes, Map_get_set. by rewrite String.eqb_refl.
Qed.

Lemma handleVoteSelect_reply (userId placeId : string) (currentStep : nat)
    (session : GroupSession) :
  (handleVoteSelect userId placeId currentStep session).2 =
  let userVotes :=
    default [] (Map_get (sessionVotes session) userId) ++ [placeId] in
  if currentStep <? 3
  then NextChoice (currentStep + 1)
         ((λ rec, {| label := rp_placeName rec; value := rp_placeId rec |}) <$>
          List.filter (λ rec, negb (bool_decide (rp_placeId rec ∈ userVotes)))
            (take 3 (recommendations session)))
  else Recorded
         (length (sessionVotes
                    (handleVoteSelect userId placeId currentStep session).1).*1
          =? length (members session)).
Proof.
  assert (Hprev :
    default [] (Map_get
      match Map_get (sessionVotes session) userId with
      | Some _ => sessionVotes session
      | None => Map_set (sessionVotes session) userId []
      end userId) = default [] (Map_get (sessionVotes session) userId)).
  { destruct (Map_get (sessionVotes session) userId) as [l|] eqn:E.
    - by rewrite E.
    - by rewrite Map_get_set, String.eqb_refl. }
  unfold handleVoteSelect. cbn zeta. rewrite Hprev.
  destruct (currentStep <? 3); cbn [fst snd sessionVotes withSessionVotes];
    [done|]. by rewrite length_fmap.
Qed.

Lemma offered_values (chosen : list string) (recs : list RecommendedPlace)
    (p : string) :
  p ∈ value <$>
        ((λ rec, {| label := rp_placeName rec; value := rp_placeId rec |}) <$>
         List.filter (λ rec, negb (bool_decide (rp_placeId rec ∈ chosen))) recs)
  ↔ p ∈ rp_placeId <$> recs ∧ p ∉ chosen.
Proof.
  rewrite <- list_fmap_compose. rewrite !list_elem_of_fmap. split.
  - intros (rec & -> & Hin). apply list_elem_of_In, filter_In in Hin as [Hin Hf].
    apply negb_true_iff, bool_decide_eq_false in Hf.
    split; [|exact Hf]. exists rec. split; [done|]. by apply list_elem_of_In.
  - intros [(rec & -> & Hin) Hf]. exists rec. split; [done|].
    apply list_elem_of_In, filter_In. split; [by apply list_elem_of_In|].
    by apply negb_true_iff, bool_decide_eq_false.
Qed.

Lemma handleVoteSelect_tally (userId placeId : string) (currentStep : nat)
    (session : GroupSession) (p : string) :
  scoreIn (scores (tally (sessionVotes
     (handleVoteSelect userId placeId currentStep session).1))) p =
  (scoreIn (scores (tally (sessionVotes session))) p +
   if String.eqb placeId p
   then rankPoints (length (default [] (Map_get (sessionVotes session) userId)) + 1)
   else 0)%Z.
Proof.
  rewrite !tally_score, handleVoteSelect_votes, expectedScore_Map_set.
  destruct (Map_get (sessionVotes session) userId) as [l|] eqn:E.
  - rewrite E. cbn [default from_option id].
    rewrite ballotPoints_app. cbn [ballotPoints]. lia.
  - rewrite Map_get_set, String.eqb_refl, expectedScore_Map_set, E.
    cbn [default from_option id app length ballotPoints Nat.add]. lia.
Qed.

End VotingFacts.

Module VotingProps.
Import JS Types JSArray GroupService Bot RankedChoice BotVoting.
Import SortFacts TallyFacts VotingFacts TallyExamples.

(** X23. [handleVoteSelect] appends the selected place to the list of the
    selecting user, creating the list when the user has none, and leaves
    every other user's list, the members and the recommendations as they
    were; it does not ask whether the user is a member or whether the place
    was on offer. Before the third step it answers with the menu of the next
    step, which offers exactly those of the first three recommendations that
    are not on the user's list. From the third step on it offers nothing and
    calls for the final tally exactly when the votes map has as many entries
    as the session has members. *)
Theorem vote_select_records (userId placeId : string) (currentStep : nat)
    (session : GroupSession) :
  let previous := default [] (Map_get (sessionVotes session) userId) in
  let result := handleVoteSelect userId placeId currentStep session in
  Map_get (sessionVotes result.1) userId = Some (previous ++ [placeId]) ∧
  (∀ other, other ≠ userId →
     Map_get (sessionVotes result.1) other = Map_get (sessionVotes session) other) ∧
  members result.1 = members session ∧
  recommendations result.1 = recommendations session ∧
  groupId result.1 = groupId session ∧
  if currentStep <? 3
  then ∃ options,
         result.2 = NextChoice (currentStep + 1) options ∧
         ∀ p, p ∈ value <$> options ↔
              p ∈ rp_placeId <$> take 3 (recommendations session) ∧
              p ∉ previous ++ [placeId]
  else result.2 =
         Recorded (length (sessionVotes result.1).*1 =? length (members session)).
Proof.
  intros previous result.
  split; [|split; [|split; [|split; [|split]]]].
  - unfold result. rewrite handleVoteSelect_votes, Map_get_set.
    by rewrite String.eqb_refl.
  - intros other Hne. unfold result.
    rewrite handleVoteSelect_votes, Map_get_set.
    apply not_eq_sym, String.eqb_neq in Hne. rewrite Hne.
    destruct (Map_get (sessionVotes session) userId); [done|].
    by rewrite Map_get_set, Hne.
  - unfold result, handleVoteSelect. cbn zeta. by destruct (currentStep <? 3).
  - unfold result, handleVoteSelect. cbn zeta. by destruct (currentStep <? 3).
  - unfold result, handleVoteSelect. cbn zeta. by destruct (currentStep <? 3).
  - unfold result. rewrite handleVoteSelect_reply. cbn zeta.
    destruct (currentStep <? 3); [|reflexivity].
    eexists. split; [reflexivity|]. intros p. apply offered_values.
Qed.

(** X24. A selection changes the tally of the selected place only, by the
    points of the position it takes on the user's list: 3, 2 or 1 for the
    first, second or third entry and nothing for any later one. So a user
    who goes through the menus again adds entries that count for nothing,
    and the earlier choices keep their points. *)
Theorem vote_select_score (userId placeId : string) (currentStep : nat)
    (session : GroupSession) (p : string) :
  let previous := default [] (Map_get (sessionVotes session) userId) in
  let session' := (handleVoteSelect userId placeId currentStep session).1 in
  scoreIn (scores (tally (sessionVotes session'))) p =
  (scoreIn (scores (tally (sessionVotes session))) p +
   if String.eqb placeId p then rankPoints (length previous + 1) else 0)%Z.
Proof.
  intros previous session'. apply handleVoteSelect_tally.
Qed.

(** X25. A user without a list who picks the second and the third choice
    from the menus the handler offered ends the third step with a list of
    three different places, the last two among the first three
    recommendations. The third step closes the vote for this user, and the
    round has given the three places 3, 2 and 1 points and no other place
    anything. *)
Theorem three_menu_choices (userId p1 p2 p3 : string)
    (session s1 s2 : GroupSession) (n1 n2 : nat) (o1 o2 : list MenuOption) :
  Map_get (sessionVotes session) userId = None →
  handleVoteSelect userId p1 1 session = (s1, NextChoice n1 o1) →
  p2 ∈ value <$> o1 →
  handleVoteSelect userId p2 2 s1 = (s2, NextChoice n2 o2) →
  p3 ∈ value <$> o2 →
  let result := handleVoteSelect userId p3 3 s2 in
  Map_get (sessionVotes result.1) userId = Some [p1; p2; p3] ∧
  NoDup [p1; p2; p3] ∧
  p2 ∈ rp_placeId <$> take 3 (recommendations session) ∧
  p3 ∈ rp_placeId <$> take 3 (recommendations session) ∧
  (∃ allVoted, result.2 = Recorded allVoted) ∧
  ∀ p, scoreIn (scores (tally (sessionVotes result.1))) p =
       (scoreIn (scores (tally (sessionVotes session))) p +
        ballotPoints p [p1; p2; p3] 1)%Z.
Proof.
  intros Hnew H1 Hp2 H2 Hp3 result.
  pose proof (handleVoteSelect_get userId p1 1 session) as G1.
  pose proof (handleVoteSelect_reply userId p1 1 session) as R1.
  pose proof (handleVoteSelect_tally userId p1 1 session) as T1.
  assert (Hrec1 : recommendations s1 = recommendations session).
  { rewrite <- (f_equal fst H1 : _ = s1). unfold handleVoteSelect. by cbn. }
  rewrite H1, Hnew in G1, R1, T1. cbn [fst snd default from_option id app] in *.
  injection R1 as _ ->.
  apply offered_values in Hp2 as [Hp2 Hn2].
  pose proof (handleVoteSelect_get userId p2 2 s1) as G2.
  pose proof (handleVoteSelect_reply userId p2 2 s1) as R2.
  pose proof (handleVoteSelect_tally userId p2 2 s1) as T2.
  rewrite H2, G1 in G2, R2, T2. cbn [fst snd default from_option id app] in *.
  injection R2 as _ ->.
  apply offered_values in Hp3 as [Hp3 Hn3].
  pose proof (handleVoteSelect_get userId p3 3 s2) as G3.
  pose proof (handleVoteSelect_reply userId p3 3 s2) as R3.
  pose proof (handleVoteSelect_tally userId p3 3 s2) as T3.
  rewrite G2 in G3, R3, T3. cbn [fst snd default from_option id app] in *.
  rewrite Hrec1 in Hp3.
  split; [exact G3|]. split; [|split; [exact Hp2|split; [exact Hp3|split]]].
  - apply not_elem_of_cons in Hn2 as [Hn2 _].
    apply not_elem_of_cons in Hn3 as [Hn31 Hn3].
    apply not_elem_of_cons in Hn3 as [Hn32 _].
    apply NoDup_cons. split.
    + intros [?|[?|H]%elem_of_cons]%elem_of_cons; [congruence..|].
      by apply elem_of_nil in H.
    + apply NoDup_cons. split; [|apply NoDup_singleton].
      intros [?|H]%elem_of_cons; [congruence|]. by apply elem_of_nil in H.
  - eexists. unfold result. exact R3.
  - intros p. unfold result. rewrite T3, T2, T1.
    cbn [length Nat.add rankPoints ballotPoints].
    destruct (String.eqb p1 p), (String.eqb p2 p), (String.eqb p3 p); lia.
Qed.

Lemma three_menu_choices_witness :
  Map_get
    (sessionVotes
       (handleVoteSelect "u4" "A" 3
          (handleVoteSelect "u4" "C" 2
             (handleVoteSelect "u4" "B" 1 scenarioSession).1).1).1) "u4"
  = Some ["B"; "C"; "A"].
Proof.
  refine (proj1 (three_menu_choices "u4" "B" "C" "A" scenarioSession
           (handleVoteSelect "u4" "B" 1 scenarioSession).1
           (handleVoteSelect "u4" "C" 2
              (handleVoteSelect "u4" "B" 1 scenarioSession).1).1
           2 3
           [ {| label := "Cafe A"; value := "A" |};
             {| label := "Club C"; value := "C" |} ]
           [ {| label := "Cafe A"; value := "A" |} ] _ _ _ _ _)).
  - by vm_compute.
  - by vm_compute.
  - apply list_elem_of_In. cbn. tauto.
  - by vm_compute.
  - apply list_elem_of_In. cbn. tauto.
Defined.

End VotingProps.

(** ** Places near a point *)

Module NearbyProps.
Import JS RatingService Types Firestore JSArray RatingStore Nearby.
Import SortFacts AggregateFacts GroupFacts.

Section Distance.
Variable haversineDistance : number → number → number → number → number.

Lemma byDistance_spec (lat0 lng0 : number) (a b : Place.t) :
  mayPrecede
    (λ a b, (distanceTo haversineDistance lat0 lng0 a
             - distanceTo haversineDistance lat0 lng0 b)%Q) a b ↔
  (distanceTo haversineDistance lat0 lng0 a
   <= distanceTo haversineDistance lat0 lng0 b)%Q.
Proof.
  unfold mayPrecede, isPositive, Signed_number.
  rewrite negb_false_iff, Qle_bool_iff. split; intros; lra.
Qed.

(** X28. Without an answer from Algolia, [getNearbyPlaces] only reads the
    stored places and returns those within the radius, the border included,
    each stored document once, nearest first. With an answer from Algolia
    it returns that answer and does not look at the stored places. *)
Theorem nearby_places (algoliaHits : option (list Place.t))
    (lat0 lng0 radiusKm : number) (db : Db) :
  let m := getNearbyPlaces haversineDistance algoliaHits lat0 lng0 radiusKm in
  let distance := distanceTo haversineDistance lat0 lng0 in
  exec m db = db ∧
  match algoliaHits with
  | Some hits => outcome m db = Ok hits
  | None =>
      ∃ found,
        outcome m db = Ok found ∧
        found ≡ₚ List.filter (λ place, Qle_bool (distance place) radiusKm)
                   (map_to_list (places db)).*2 ∧
        (∀ place, place ∈ found ↔
                  (∃ placeId, places db !! placeId = Some place) ∧
                  (distance place <= radiusKm)%Q) ∧
        ∀ i j a b, i < j → found !! i = Some a → found !! j = Some b →
                   (distance a <= distance b)%Q
  end.
Proof.
  intros m distance. unfold m, exec, outcome, getNearbyPlaces.
  destruct algoliaHits as [hits|]; [by split|].
  erewrite (outcome_bind_ok (docQuery _ _)) by reflexivity.
  cbn [mret M_ret fst snd]. split; [reflexivity|].
  assert (Hall : List.filter (λ kv : string * Place.t, true)
                   (map_to_list (docs placesCol db)) = map_to_list (places db)).
  { change (docs placesCol db) with (places db).
    induction (map_to_list (places db)) as [|kv l IH]; [done|].
    cbn [List.filter]. by rewrite IH. }
  rewrite Hall.
  set (cmp := λ a b : Place.t,
    (distanceTo haversineDistance lat0 lng0 a
     - distanceTo haversineDistance lat0 lng0 b)%Q).
  set (within := List.filter _ _).
  pose proof (Array_sort_perm cmp within) as Hperm.
  eexists. split; [reflexivity|]. split; [exact Hperm|]. split.
  - intros place. rewrite Hperm. unfold within.
    rewrite list_elem_of_In, filter_In, <- list_elem_of_In.
    rewrite Qle_bool_iff, list_elem_of_fmap. split.
    + intros [([k v] & -> & Hin) Hd]. split; [|exact Hd].
      exists k. by apply elem_of_map_to_list.
    + intros [(k & Hk) Hd]. split; [|exact Hd].
      exists (k, place). split; [done|]. by apply elem_of_map_to_list.
  - intros i j a b Hij Ha Hb.
    apply (byDistance_spec lat0 lng0).
    eapply (sorted_lookup cmp); [|exact Hij|exact Ha|exact Hb].
    apply Array_sort_sorted.
    + intros x y Hpos. apply byDistance_spec.
      assert (Hn : ¬ mayPrecede cmp x y) by (unfold mayPrecede; congruence).
      unfold cmp in Hn. rewrite byDistance_spec in Hn. lra.
    + intros x y z. unfold cmp. rewrite !byDistance_spec. lra.
Qed.

End Distance.

End NearbyProps.

(** ** Voting results: who voted for what *)

Module ResultsFacts.
Import JS Types Firestore JSArray GroupService ResultsSpec.
Import AggregateFacts GroupFacts.








End ResultsFacts.

Module ResultsProps.
Import JS Types Firestore JSArray GroupService ResultsSpec.
Import AggregateFacts GroupFacts ResultsFacts GroupExamples.


End ResultsProps.

(** ** The personality adjuster: round trip, range and scenarios *)

Module AdjusterClaims.
Import JS RatingService RatingFacts.

(** C7. When the five dimensions of [c] lie in [[1,10]], the overall score
    lies in [[1,10]] for every adjustment factor. *)
Theorem calculateOverallScore_range (c : RatingCategory) (a : number) :
  inRange c = true → (1 <= calculateOverallScore c a <= 10)%Q.
Proof.
  intros Hc. unfold calculateOverallScore.
  apply round1_inRange, weighted_inRange, adjust_inRange, Hc.
Qed.

Lemma calculateOverallScore_range_witness :
  inRange scenarioCategories = true ∧
  (1 <= calculateOverallScore scenarioCategories (-(1#2)) <= 10)%Q.
Proof.
  split; [reflexivity|].
  apply (calculateOverallScore_range scenarioCategories (-(1#2))). reflexivity.
Defined.

(** C8, as stated, fails: the score of scenario B is not 6.05, because the
    weighted sum is rounded to one decimal before it is returned. *)
Lemma scenario_scores_as_stated_fail :
  ¬ (calculateOverallScore scenarioCategories 0 == 68#10 ∧
     calculateOverallScore scenarioCategories (-(5#10)) == 605#100)%Q.
Proof. intros [_ HB]. vm_compute in HB. discriminate HB. Qed.

(** C8, amended. Scenario A: with [raterAF = 0] the overall score is 6.8.
    Scenario B: with [raterAF = -0.5] the adjusted sensitive values are
    [crowdSize = 5], [noiseLevel = 6], [socialEnergy = 4], their weighted sum
    is 6.05, and the returned score is that sum rounded to one decimal, 6.1. *)
Theorem scenario_scores :
  (calculateOverallScore scenarioCategories 0 == 68#10)%Q ∧
  adjustCategoriesForPersonality scenarioCategories (-(5#10)) =
    {| crowdSize := 5; noiseLevel := 6; socialEnergy := 4;
       service := 7; atmosphere := 8 |}%Q ∧
  (weighted (adjustCategoriesForPersonality scenarioCategories (-(5#10)))
     == 605#100)%Q ∧
  (calculateOverallScore scenarioCategories (-(5#10)) == 61#10)%Q.
Proof. repeat split; vm_compute; reflexivity. Qed.

End AdjusterClaims.
